(** * JARVIS assistant: the coordination layer, its configuration store,
      AI client, camera manager and speech engine, embedded in Rocq.

    Python values are modelled as they are at run time: [str] as [string]
    (the UTF-8 bytes of the text), [dict] as an association list with
    unique keys in insertion order, exceptions as an explicit [Raise]
    result. Calls that leave the program (the HTTP round trip, the camera
    device, the clock, the speech back end) take their outcome from an
    explicit environment record, and every effect the coordinator performs
    is written to a trace stamped with the three activity flags. *)

From Stdlib Require Import String Ascii List ZArith Bool Arith Lia.
From Stdlib Require QArith.
Import ListNotations.
Set Warnings "-register-all".
Open Scope string_scope.

(* ===================================================================== *)
(** ** Python strings *)
(* ===================================================================== *)

Module PyStr.

(** [needle in hay] for two [str] operands: substring test. *)
Fixpoint str_in (needle hay : string) : bool :=
  String.prefix needle hay ||
  match hay with
  | EmptyString => false
  | String _ rest => str_in needle rest
  end.

(** [any(word in text for word in words)]. *)
Definition any_in (words : list string) (text : string) : bool :=
  existsb (fun word => str_in word text) words.

(** [s.split(sep)] for a one-character separator: never returns an empty
    list; an empty input gives one empty segment. *)
Fixpoint split (sep : ascii) (s : string) : list string :=
  match s with
  | EmptyString => [EmptyString]
  | String c rest =>
      if Ascii.eqb c sep then EmptyString :: split sep rest
      else match split sep rest with
           | seg :: segs => String c seg :: segs
           | [] => [String c EmptyString]
           end
  end.

Definition nonempty (s : string) : bool :=
  match s with EmptyString => false | String _ _ => true end.

(** A lowering function for the examples: [str.lower] restricted to text
    whose letters are ASCII or Latin-1 (two-byte UTF-8 sequences led by
    0xC3). The general statements below do not depend on it: they take the
    run-time's [lower] as a parameter. *)
Definition lower_ascii (c : ascii) : ascii :=
  let n := nat_of_ascii c in
  if ((65 <=? n) && (n <=? 90))%nat then ascii_of_nat (n + 32) else c.

Definition lower_latin1_tail (c : ascii) : ascii :=
  let n := nat_of_ascii c in
  if ((128 <=? n) && (n <=? 158) && negb (n =? 151))%nat then ascii_of_nat (n + 32) else c.

Fixpoint lower_latin1 (s : string) : string :=
  match s with
  | EmptyString => EmptyString
  | String c rest =>
      if (nat_of_ascii c =? 195)%nat then
        match rest with
        | String c2 rest2 => String c (String (lower_latin1_tail c2) (lower_latin1 rest2))
        | EmptyString => String c EmptyString
        end
      else String (lower_ascii c) (lower_latin1 rest)
  end.

(** [str.strip] restricted to ASCII white space, for the examples. *)
Definition is_space (c : ascii) : bool :=
  let n := nat_of_ascii c in
  (((9 <=? n) && (n <=? 13)) || ((28 <=? n) && (n <=? 32)))%nat.

Fixpoint lstrip (s : string) : string :=
  match s with
  | String c rest => if is_space c then lstrip rest else s
  | EmptyString => EmptyString
  end.

Fixpoint rstrip (s : string) : string :=
  match s with
  | EmptyString => EmptyString
  | String c rest =>
      match rstrip rest with
      | EmptyString => if is_space c then EmptyString else String c EmptyString
      | r => String c r
      end
  end.

Definition strip_ascii (s : string) : string := rstrip (lstrip s).

(** [repr(s)]: the text in single quotes, or in double quotes when it
    holds a single quote and no double one; the backslash, the chosen
    quote and the control characters are escaped. Code points outside
    ASCII are printed as they are, which is what [repr] does with the
    printable ones. *)
Definition hex_digit (n : nat) : ascii :=
  ascii_of_nat (if (n <? 10)%nat then 48 + n else 87 + n).

Definition repr_char (quote c : ascii) : string :=
  let n := nat_of_ascii c in
  if (n =? 92)%nat then "\\"
  else if Ascii.eqb c quote then String "\" (String quote EmptyString)
  else if (n =? 9)%nat then "\t"
  else if (n =? 10)%nat then "\n"
  else if (n =? 13)%nat then "\r"
  else if ((n <? 32) || (n =? 127))%nat then
    String "\" (String "x" (String (hex_digit (n / 16))
                               (String (hex_digit (n mod 16)) EmptyString)))
  else String c EmptyString.

Fixpoint repr_body (quote : ascii) (s : string) : string :=
  match s with
  | EmptyString => EmptyString
  | String c rest => repr_char quote c ++ repr_body quote rest
  end.

Fixpoint has_ascii (c : ascii) (s : string) : bool :=
  match s with
  | EmptyString => false
  | String x rest => Ascii.eqb x c || has_ascii c rest
  end.

Definition repr (s : string) : string :=
  let quote :=
    if has_ascii "'" s && negb (has_ascii (ascii_of_nat 34) s)
    then ascii_of_nat 34 else "'"%char in
  String quote (repr_body quote s ++ String quote EmptyString).

End PyStr.

(* ===================================================================== *)
(** ** Python values, exceptions and the container primitives *)
(* ===================================================================== *)

Module Py.

(** The exceptions the modelled code raises or catches; the argument is
    [str(e)]. *)
Inductive exn : Type :=
| RuntimeError (msg : string)
| TypeError (msg : string)
| ValueError (msg : string)
| KeyError (msg : string)
| IndexError (msg : string)
| AttributeError (msg : string)
| RequestException (msg : string)
| JSONDecodeError (msg : string)
| OtherException (msg : string).

Definition str_exn (e : exn) : string :=
  match e with
  | RuntimeError m | TypeError m | ValueError m | KeyError m | IndexError m
  | AttributeError m | RequestException m | JSONDecodeError m
  | OtherException m => m
  end.

Inductive result (A : Type) : Type :=
| Ok (a : A)
| Raise (e : exn).
Arguments Ok {A} a.
Arguments Raise {A} e.

Definition bind {A B : Type} (r : result A) (k : A -> result B) : result B :=
  match r with
  | Ok a => k a
  | Raise e => Raise e
  end.

(** [try: body / except Exception: handler]. *)
Definition try_except {A : Type} (body : result A) (handler : exn -> result A)
  : result A :=
  match body with
  | Ok a => Ok a
  | Raise e => handler e
  end.

Declare Scope py_scope.
Delimit Scope py_scope with py.
Notation "x <- e ;; k" := (bind e (fun x => k))
  (at level 61, e at next level, right associativity) : py_scope.

(** The values a JSON document or the configuration holds. A [dict] keeps
    its keys unique and in insertion order. *)
Inductive value : Type :=
| VNone
| VBool (b : bool)
| VInt (n : Z)
| VFloat (q : QArith_base.Q)
| VStr (s : string)
| VList (l : list value)
| VDict (d : list (string * value)).

Definition dict : Type := list (string * value).

Fixpoint dict_get (k : string) (d : dict) : option value :=
  match d with
  | [] => None
  | (k', v) :: rest => if String.eqb k k' then Some v else dict_get k rest
  end.

(** [d[k] = v]: an existing key keeps its position, a new key goes last. *)
Fixpoint dict_set (d : dict) (k : string) (v : value) : dict :=
  match d with
  | [] => [(k, v)]
  | (k', v') :: rest =>
      if String.eqb k k' then (k, v) :: rest else (k', v') :: dict_set rest k v
  end.

Definition keys (d : dict) : list string := map fst d.

Definition isinstance_dict (v : value) : bool :=
  match v with VDict _ => true | _ => false end.

(** [type(v).__name__]. *)
Definition type_name (v : value) : string :=
  match v with
  | VNone => "NoneType"
  | VBool _ => "bool"
  | VInt _ => "int"
  | VFloat _ => "float"
  | VStr _ => "str"
  | VList _ => "list"
  | VDict _ => "dict"
  end.

Definition is_str (k : string) (v : value) : bool :=
  match v with VStr s => String.eqb s k | _ => false end.

(** [k in container] for a [str] key [k]. *)
Definition py_contains (container : value) (k : string) : result bool :=
  match container with
  | VDict d => Ok (match dict_get k d with Some _ => true | None => false end)
  | VList l => Ok (existsb (is_str k) l)
  | VStr s => Ok (PyStr.str_in k s)
  | _ => Raise (TypeError ("argument of type '" ++ type_name container
                           ++ "' is not iterable"))
  end.

(** [container[k]] for a [str] key [k]. *)
Definition py_getitem (container : value) (k : string) : result value :=
  match container with
  | VDict d =>
      match dict_get k d with
      | Some v => Ok v
      | None => Raise (KeyError (PyStr.repr k))
      end
  | VList _ => Raise (TypeError "list indices must be integers or slices, not str")
  | VStr _ => Raise (TypeError "string indices must be integers, not 'str'")
  | _ => Raise (TypeError ("'" ++ type_name container
                           ++ "' object is not subscriptable"))
  end.

(** [container[k] = v] for a [str] key [k]. *)
Definition py_setitem (container : value) (k : string) (v : value) : result value :=
  match container with
  | VDict d => Ok (VDict (dict_set d k v))
  | VList _ => Raise (TypeError "list indices must be integers or slices, not str")
  | _ => Raise (TypeError ("'" ++ type_name container
                           ++ "' object does not support item assignment"))
  end.

(** [len(v)]. *)
Definition py_len (v : value) : result nat :=
  match v with
  | VDict d => Ok (List.length d)
  | VList l => Ok (List.length l)
  | VStr s => Ok (String.length s)
  | _ => Raise (TypeError ("object of type '" ++ type_name v ++ "' has no len()"))
  end.

(** [container[0]]. A JSON object has only [str] keys, so the integer key
    is never found in a [dict]. *)
Definition py_getitem0 (container : value) : result value :=
  match container with
  | VList (v :: _) => Ok v
  | VList [] => Raise (IndexError "list index out of range")
  | VStr (String c _) => Ok (VStr (String c EmptyString))
  | VStr EmptyString => Raise (IndexError "string index out of range")
  | VDict _ => Raise (KeyError "0")
  | _ => Raise (TypeError ("'" ++ type_name container
                           ++ "' object is not subscriptable"))
  end.



End Py.

(* ===================================================================== *)
(** ** config.py *)
(* ===================================================================== *)

Module Config.
Import Py.
Local Open Scope py_scope.

(** [Config.load_default_config]; [api_key] is what
    [os.getenv("OPENROUTER_API_KEY", "")] returns. *)
Definition load_default_config (api_key : string) : value :=
  VDict
    [ ("openrouter", VDict
        [ ("api_key", VStr api_key);
          ("base_url", VStr "https://openrouter.ai/api/v1");
          ("model", VStr "anthropic/claude-3-sonnet");
          ("max_tokens", VInt 1000) ]);
      ("voice", VDict
        [ ("engine", VStr "pyttsx3");
          ("rate", VInt 150);
          ("volume", VFloat (QArith_base.Qmake 4 5));
          ("voice_id", VInt 0);
          ("language", VStr "pt-br") ]);
      ("speech", VDict
        [ ("language", VStr "pt-BR");
          ("timeout", VInt 5);
          ("phrase_timeout", VInt 1);
          ("energy_threshold", VInt 300) ]);
      ("camera", VDict
        [ ("device_id", VInt 0);
          ("width", VInt 640);
          ("height", VInt 480);
          ("fps", VInt 30) ]);
      ("ui", VDict
        [ ("theme", VStr "dark");
          ("accent_color", VStr "#00D4FF");
          ("background_color", VStr "#0A0A0A");
          ("text_color", VStr "#FFFFFF");
          ("window_size", VStr "1200x800");
          ("transparency", VFloat (QArith_base.Qmake 19 20)) ]);
      ("languages", VDict
        [ ("supported",
           VList [VStr "pt-BR"; VStr "en-US"; VStr "es-ES"; VStr "fr-FR"; VStr "de-DE"]);
          ("default", VStr "pt-BR") ]);
      ("features", VDict
        [ ("voice_activation", VBool true);
          ("wake_word", VStr "jarvis");
          ("auto_listen", VBool true);
          ("face_recognition", VBool false);
          ("gesture_control", VBool false);
          ("home_automation", VBool false) ]) ].

(** One iteration of the loop of [deep_merge], given the merge of the
    nested mappings. *)
Definition merge_step (rec : value -> dict -> dict)
  (default : dict) (item : string * value) : dict :=
  let (key, value) := item in
  match dict_get key default, value with
  | Some (VDict sub), VDict _ => dict_set default key (VDict (rec value sub))
  | _, _ => dict_set default key value
  end.

(** [deep_merge(default, user)] of [Config.merge_config]: [user] is walked
    in order; a key whose value is a mapping on both sides is merged in
    place, any other key is overwritten. *)
Fixpoint deep_merge (user : value) (default : dict) {struct user} : dict :=
  match user with
  | VDict items =>
      (fix loop (items : dict) (default : dict) {struct items} : dict :=
         match items with
         | [] => default
         | (key, value) :: rest =>
             loop rest
               (match dict_get key default, value with
                | Some (VDict sub), VDict _ =>
                    dict_set default key (VDict (deep_merge value sub))
                | _, _ => dict_set default key value
                end)
         end) items default
  | _ => default
  end.

(** [deep_merge] over a [default] that is no mapping. [self.config] is a
    mapping in every run of the program; over any other value the first
    pass of the loop raises, at [key in default], at [default[key]] or at
    the assignment, and without a pass nothing happens. *)
Definition merge_into_other (config : value) (items : dict) : result value :=
  match items with
  | [] => Ok config
  | (key, value) :: _ =>
      present <- py_contains config key ;;
      if present : bool then
        _ <- py_getitem config key ;; Ok config
      else py_setitem config key value
  end.

(** [Config.merge_config]: [user.items()] fails on anything but a mapping. *)
Definition merge_config (config user_config : value) : result value :=
  match user_config, config with
  | VDict _, VDict d => Ok (VDict (deep_merge user_config d))
  | VDict items, _ => merge_into_other config items
  | _, _ => Raise (AttributeError ("'" ++ type_name user_config
                                   ++ "' object has no attribute 'items'"))
  end.

(** The loop and the final [return value] of [Config.get]. *)
Fixpoint get_loop (keys : list string) (value default : Py.value) : result Py.value :=
  match keys with
  | [] => Ok value
  | k :: keys' =>
      if isinstance_dict value then
        present <- py_contains value k ;;
        if present then
          value' <- py_getitem value k ;;
          get_loop keys' value' default
        else Ok default
      else Ok default
  end.

(** [Config.get(key, default)]. *)
Definition get (config : value) (key : string) (default : value) : result value :=
  get_loop (PyStr.split "." key) config default.

(** The loop over [keys[:-1]] and the final assignment of [Config.set].
    The nested mappings are shared objects mutated in place, so the parent
    sees the updated child: the last [py_setitem] of a step writes it
    back. *)
Fixpoint set_loop (keys : list string) (config value : Py.value) : result Py.value :=
  match keys with
  | [] => Raise (IndexError "list index out of range")
  | [k] => py_setitem config k value
  | k :: keys' =>
      present <- py_contains config k ;;
      config1 <- (if negb present then py_setitem config k (VDict []) else Ok config) ;;
      child <- py_getitem config1 k ;;
      child' <- set_loop keys' child value ;;
      py_setitem config1 k child'
  end.

(** [Config.set(key, value)]. *)
Definition set (config : Py.value) (key : string) (value : Py.value) : result Py.value :=
  set_loop (PyStr.split "." key) config value.








(** The value a dot path leads to, as a relation: every segment but the
    last is looked up in a mapping. *)
Inductive resolves : value -> list string -> value -> Prop :=
| resolves_here : forall v, resolves v [] v
| resolves_step : forall d k ks v w,
    dict_get k d = Some v -> resolves v ks w -> resolves (VDict d) (k :: ks) w.

(** The path breaks off: a segment is absent, or the value reached
    before it is not a mapping. *)
Inductive broken : value -> list string -> Prop :=
| broken_not_dict : forall v k ks,
    isinstance_dict v = false -> broken v (k :: ks)
| broken_absent : forall d k ks,
    dict_get k d = None -> broken (VDict d) (k :: ks)
| broken_below : forall d k ks v,
    dict_get k d = Some v -> broken v ks -> broken (VDict d) (k :: ks).

(** The loop of [deep_merge] as a fold over [user.items()]. *)
Definition merge_loop (items : dict) (default : dict) : dict :=
  fold_left (merge_step deep_merge) items default.

(** The value a key has after the step of the merge that writes it. *)
Definition merged_value (default : dict) (k : string) (u : value) : value :=
  match dict_get k default, u with
  | Some (VDict sub), VDict _ => VDict (deep_merge u sub)
  | _, _ => u
  end.

End Config.

(* ===================================================================== *)
(** ** openrouter_client.py *)
(* ===================================================================== *)

Module OpenRouter.
Import Py.
Local Open Scope py_scope.

(** One entry of the [messages] list: [{'role': ..., 'content': ...}]. *)
Record message : Type := { role : string; content : string }.

(** What the HTTP round trip of [chat_completion] does, step by step:
    [requests.post] returns a response or raises; [raise_for_status]
    raises on an error status; [response.json()] returns the decoded body
    or raises. *)
Record response : Type := {
  raise_for_status : result unit;
  json : result value
}.

Definition http_outcome : Type := result response.

Definition fallback_responses : list (string * string) :=
  [ ("pt-BR", "Desculpe, estou com dificuldades para processar sua solicitação no momento. Tente novamente em alguns instantes.");
    ("en-US", "Sorry, I'm having trouble processing your request right now. Please try again in a moment.");
    ("es-ES", "Lo siento, tengo problemas para procesar tu solicitud en este momento. Inténtalo de nuevo en unos momentos.");
    ("fr-FR", "Désolé, j'ai des difficultés à traiter votre demande en ce moment. Veuillez réessayer dans quelques instants.");
    ("de-DE", "Entschuldigung, ich habe gerade Schwierigkeiten, Ihre Anfrage zu bearbeiten. Versuchen Sie es in einem Moment noch einmal.") ].

(** [d.get(k, default)] on a mapping from [str] to [str]. *)
Fixpoint str_dict_get (d : list (string * string)) (k default : string) : string :=
  match d with
  | [] => default
  | (k', v) :: rest => if String.eqb k k' then v else str_dict_get rest k default
  end.

(** [OpenRouterClient._get_fallback_response]; the default is
    [fallback_responses['en-US']]. *)
Definition _get_fallback_response (language : string) : string :=
  str_dict_get fallback_responses language
    (str_dict_get fallback_responses "en-US" EmptyString).

Section Runtime.
(** [str.strip] of the Python run time. *)
Variable strip : string -> string.

Definition py_strip (v : value) : result string :=
  match v with
  | VStr s => Ok (strip s)
  | _ => Raise (AttributeError ("'" ++ type_name v
                                ++ "' object has no attribute 'strip'"))
  end.

(** The body of the [try] of [chat_completion], after the payload is
    built. *)
Definition chat_completion_try (http : http_outcome) (language : string)
  : result string :=
  response <- http ;;
  _ <- raise_for_status response ;;
  result <- json response ;;
  has_choices <- py_contains result "choices" ;;
  nonempty <- (if has_choices : bool then
                 choices <- py_getitem result "choices" ;;
                 n <- py_len choices ;;
                 Ok (0 <? n)%nat
               else Ok false) ;;
  if nonempty : bool then
    choices <- py_getitem result "choices" ;;
    first <- py_getitem0 choices ;;
    msg <- py_getitem first "message" ;;
    text <- py_getitem msg "content" ;;
    py_strip text
  else Ok (_get_fallback_response language).

(** [OpenRouterClient.chat_completion]: the three [except] clauses differ
    in the line they log only. *)
Definition chat_completion (http : http_outcome) (messages : list message)
  (language : string) : result string :=
  try_except (chat_completion_try http language)
    (fun e =>
       match e with
       | RequestException _ => Ok (_get_fallback_response language)
       | JSONDecodeError _ => Ok (_get_fallback_response language)
       | _ => Ok (_get_fallback_response language)
       end).

End Runtime.

(** The decoded body carries a [choices] field of positive length. *)
Definition has_nonempty_choices (body : value) : bool :=
  match body with
  | VDict d =>
      match dict_get "choices" d with
      | Some (VList (_ :: _)) | Some (VDict (_ :: _)) | Some (VStr (String _ _)) => true
      | _ => false
      end
  | _ => false
  end.

(** The failures of the round trip: a raised transport error, an error
    status, a body that does not decode, or a body without a non-empty
    [choices]. *)
Definition round_trip_fails (http : http_outcome) : Prop :=
  match http with
  | Raise _ => True
  | Ok r =>
      match raise_for_status r with
      | Raise _ => True
      | Ok _ =>
          match json r with
          | Raise _ => True
          | Ok body => has_nonempty_choices body = false
          end
      end
  end.

Definition supported_languages : list string :=
  ["pt-BR"; "en-US"; "es-ES"; "fr-FR"; "de-DE"].

End OpenRouter.

(* ===================================================================== *)
(** ** camera_manager.py *)
(* ===================================================================== *)

Module Camera.
Import Py.

(** The pixels of a frame. *)
Definition frame : Type := string.

(** The files under [output/]: name and content, one entry per name. *)
Definition files : Type := list (string * frame).

(** The content of the file [name], if there is one. *)
Fixpoint read_file (fs : files) (name : string) : option frame :=
  match fs with
  | [] => None
  | (n, content) :: rest =>
      if String.eqb name n then Some content else read_file rest name
  end.

(** A completed write to [name]: the file is created, or the content of
    the file of that name is replaced. *)
Fixpoint write_file (fs : files) (name : string) (content : frame) : files :=
  match fs with
  | [] => [(name, content)]
  | (n, c) :: rest =>
      if String.eqb name n then (name, content) :: rest
      else (n, c) :: write_file rest name content
  end.

Record camera_manager : Type := {
  camera : bool;                 (* [self.camera is not None] *)
  is_active : bool;
  is_recording : bool;
  current_frame : option frame
}.

(** [CameraManager.__init__]. *)
Definition new_CameraManager : camera_manager :=
  {| camera := false; is_active := false; is_recording := false;
     current_frame := None |}.

(** What [cv2.VideoCapture(device_id)] gives. *)
Inductive device_outcome : Type :=
| Opened
| NotOpened
| OpenRaises (e : exn).

(** What [cv2.imwrite] does. *)
Inductive imwrite_outcome : Type :=
| Written
| NotWritten
| WriteRaises (e : exn).

(** [CameraManager.start_camera]. *)
Definition start_camera (cm : camera_manager) (dev : device_outcome)
  : bool * camera_manager :=
  if is_active cm then (true, cm)
  else
    match dev with
    | OpenRaises _ => (false, cm)
    | NotOpened =>
        (false, {| camera := true; is_active := is_active cm;
                   is_recording := is_recording cm;
                   current_frame := current_frame cm |})
    | Opened =>
        (true, {| camera := true; is_active := true;
                  is_recording := is_recording cm;
                  current_frame := current_frame cm |})
    end.

(** [CameraManager.stop_camera]. *)
Definition stop_camera (cm : camera_manager) : camera_manager :=
  if negb (is_active cm) then cm
  else {| camera := false; is_active := false; is_recording := false;
          current_frame := None |}.

(** One successful iteration of [_capture_loop]. *)
Definition capture (cm : camera_manager) (f : frame) : camera_manager :=
  if is_active cm && camera cm then
    {| camera := camera cm; is_active := is_active cm;
       is_recording := is_recording cm; current_frame := Some f |}
  else cm.

(** [CameraManager.get_current_frame]. *)
Definition get_current_frame (cm : camera_manager) : option frame :=
  match current_frame cm with
  | Some f => Some f
  | None => None
  end.

(** [CameraManager.take_photo]; [stamp] is
    [datetime.now().strftime("%Y%m%d_%H%M%S")]. *)
Definition take_photo (cm : camera_manager) (fs : files)
  (filename : option string) (stamp : string) (wr : imwrite_outcome)
  : result string * files :=
  if negb (is_active cm) then (Raise (RuntimeError "Camera is not active"), fs)
  else
    match get_current_frame cm with
    | None => (Raise (RuntimeError "No frame available"), fs)
    | Some frame =>
        let filename :=
          match filename with
          | Some name => name
          | None => "output/photos/jarvis_photo_" ++ stamp ++ ".jpg"
          end in
        match wr with
        | Written => (Ok filename, write_file fs filename frame)
        | NotWritten => (Ok filename, fs)
        | WriteRaises e => (Raise e, fs)
        end
    end.

End Camera.

(* ===================================================================== *)
(** ** speech_engine.py: [speak] and [stop] under concurrent callers *)
(* ===================================================================== *)

Module Speech.

(** Where a thread stands inside [SpeechEngine.speak]. *)
Inductive pc : Type :=
| Idle                            (* outside [speak] *)
| Entered (text : string)         (* at [if not text] *)
| AtLock (text : string)          (* waiting at [with self.speech_lock] *)
| InLock (text : string)          (* lock held, at [if self.is_speaking] *)
| Setting (text : string)         (* lock held, at [self.is_speaking = True] *)
| Leaving (text : string)         (* lock held, leaving the [with] block *)
| Dropping                        (* lock held, at the [return] inside [with] *)
| Synthesising (text : string)    (* inside [try]: synthesis and playback *)
| Finishing.                      (* at [finally: self.is_speaking = False] *)

Record engine : Type := {
  is_speaking : bool;
  speech_lock : bool;             (* the lock is held *)
  threads : nat -> pc
}.

(** [SpeechEngine.__init__], no thread inside [speak]. *)
Definition new_SpeechEngine : engine :=
  {| is_speaking := false; speech_lock := false; threads := fun _ => Idle |}.

Definition upd (f : nat -> pc) (i : nat) (p : pc) : nat -> pc :=
  fun j => if Nat.eqb j i then p else f j.

(** Thread [i] runs its next statement; an idle thread calls
    [speak(arg)], a thread waiting for a held lock stays where it is. *)
Definition step (s : engine) (i : nat) (arg : string) : engine :=
  match threads s i with
  | Idle =>
      {| is_speaking := is_speaking s; speech_lock := speech_lock s;
         threads := upd (threads s) i (Entered arg) |}
  | Entered text =>
      {| is_speaking := is_speaking s; speech_lock := speech_lock s;
         threads := upd (threads s) i
                      (if PyStr.nonempty text then AtLock text else Idle) |}
  | AtLock text =>
      if speech_lock s then s
      else {| is_speaking := is_speaking s; speech_lock := true;
              threads := upd (threads s) i (InLock text) |}
  | InLock text =>
      {| is_speaking := is_speaking s; speech_lock := speech_lock s;
         threads := upd (threads s) i
                      (if is_speaking s then Dropping else Setting text) |}
  | Setting text =>
      {| is_speaking := true; speech_lock := speech_lock s;
         threads := upd (threads s) i (Leaving text) |}
  | Leaving text =>
      {| is_speaking := is_speaking s; speech_lock := false;
         threads := upd (threads s) i (Synthesising text) |}
  | Dropping =>
      {| is_speaking := is_speaking s; speech_lock := false;
         threads := upd (threads s) i Idle |}
  | Synthesising _ =>
      {| is_speaking := is_speaking s; speech_lock := speech_lock s;
         threads := upd (threads s) i Finishing |}
  | Finishing =>
      {| is_speaking := false; speech_lock := speech_lock s;
         threads := upd (threads s) i Idle |}
  end.

(** A schedule names, step by step, the thread that runs and the text it
    would pass to [speak]. *)
Definition run (sched : list (nat * string)) (s : engine) : engine :=
  fold_left (fun s e => step s (fst e) (snd e)) sched s.

(** [SpeechEngine.stop]: whatever the back end does, the [finally] block
    clears [is_speaking]; the lock is not taken. *)
Definition stop (s : engine) : engine :=
  {| is_speaking := false; speech_lock := speech_lock s; threads := threads s |}.

(** [SpeechEngine.is_busy]. *)
Definition is_busy (s : engine) : bool := is_speaking s.

(** What happens next in the engine: a thread runs its next statement
    of [speak], or [stop] is called (by the coordinator's [shutdown] or
    the emergency stop of the window). [stop] takes no lock and touches
    the shared state in its one assignment. *)
Inductive event : Type :=
| Runs (i : nat) (arg : string)
| Stops.

Definition perform (s : engine) (e : event) : engine :=
  match e with
  | Runs i arg => step s i arg
  | Stops => stop s
  end.

Definition run_events (es : list event) (s : engine) : engine :=
  fold_left perform es s.

(** The states of the engine: any interleaving of calls of [speak] and
    of [stop]. *)
Definition reachable (s : engine) : Prop :=
  exists es, run_events es new_SpeechEngine = s.

(** The calls of [stop] in the run that found [is_speaking] set. *)
Fixpoint stops_while_speaking (es : list event) (s : engine) : nat :=
  match es with
  | [] => 0
  | e :: rest =>
      (match e with
       | Stops => if is_speaking s then 1 else 0
       | Runs _ _ => 0
       end + stops_while_speaking rest (perform s e))%nat
  end.

(** The thread produces audio. *)
Definition synthesising (p : pc) : bool :=
  match p with Synthesising _ => true | _ => false end.

(** The threads numbered below [n] that produce audio. *)
Definition synthesising_threads (s : engine) (n : nat) : list nat :=
  filter (fun i => synthesising (threads s i)) (seq 0 n).

(** The thread is inside the [with self.speech_lock] block. *)
Definition holds_lock (p : pc) : bool :=
  match p with
  | InLock _ | Setting _ | Leaving _ | Dropping => true
  | _ => false
  end.

(** The thread has set [is_speaking] and not yet cleared it. *)
Definition owns_flag (p : pc) : bool :=
  match p with
  | Leaving _ | Synthesising _ | Finishing => true
  | _ => false
  end.

Definition at_setting (p : pc) : bool :=
  match p with Setting _ => true | _ => false end.

(** What the lock guarantees, with or without [stop]: one thread at most
    is inside the [with] block, and the flag it has tested clear is still
    clear when it sets it. *)
Record lock_invariant (s : engine) : Prop := {
  inv_lock_unique : forall i j,
    holds_lock (threads s i) = true -> holds_lock (threads s j) = true -> i = j;
  inv_lock_held : forall i,
    holds_lock (threads s i) = true -> speech_lock s = true;
  inv_setting : forall i,
    at_setting (threads s i) = true -> is_speaking s = false
}.

(** The threads that have set the flag and not yet cleared it are at
    most [k], and one more while the flag is set. *)
Definition owners_bound (s : engine) (k : nat) : Prop :=
  forall l, NoDup l ->
    (forall i, In i l -> owns_flag (threads s i) = true) ->
    (List.length l <= (if is_speaking s then 1 else 0) + k)%nat.

(** Thread 0 speaks and is in the middle of its synthesis when thread 1
    calls [speak] and reaches the guarded test. *)
Definition second_call_at_test : list (nat * string) :=
  [ (0, "first"); (0, "first"); (0, "first"); (0, "first"); (0, "first");
    (0, "first"); (1, "second"); (1, "second"); (1, "second") ].

(** Thread 0 is in its synthesis when [stop] is called; thread 1 then
    calls [speak] and runs up to its own synthesis. *)
Definition second_call_after_stop : list event :=
  (repeat (Runs 0 "first") 6 ++ Stops :: repeat (Runs 1 "second") 6)%list.

End Speech.

(* ===================================================================== *)
(** ** jarvis_core.py *)
(* ===================================================================== *)

Module Core.
Import Py.
Import PyStr.

(** A snapshot of the three activity flags. *)
Record flags : Type := {
  listening : bool;
  speaking : bool;
  processing : bool
}.

(** An entry of [conversation_history]. *)
Record turn : Type := {
  turn_role : string;
  turn_content : string;
  turn_timestamp : Z;
  turn_language : string
}.

(** An entry of [command_queue]; [command_data.get] supplies a default
    for a key that is absent. *)
Record command_data : Type := {
  cmd_text : option string;
  cmd_language : option string;
  cmd_timestamp : option Z
}.

(** The argument a callback receives. *)
Inductive payload : Type :=
| PStr (s : string)
| PCommand (c : command_data)
| PResponse (text language : string).

(** The effects of the coordinator that leave it. *)
Inductive event : Type :=
| Callback (name : string) (data : payload)
| LogInfo (msg : string)
| LogError (msg : string)
| ChatCompletion (messages : list OpenRouter.message) (language : string)
| EngineSpeak (text language : string)
| IncreaseVolume
| DecreaseVolume
| MuteVolume
| ListeningThread.

Record jarvis : Type := {
  is_listening : bool;
  is_speaking : bool;
  is_processing : bool;
  wake_word_detected : bool;
  ai_client : bool;                          (* [self.ai_client is not None] *)
  camera_manager : Camera.camera_manager;
  conversation_history : list turn;
  current_language : string;
  command_queue : list command_data;
  files : Camera.files;
  trace : list (event * flags)               (* every effect, newest first, with the flags at its time *)
}.

(** [JarvisCore.__init__], with the language and the presence of an API
    key read from the configuration. *)
Definition new_JarvisCore (language : string) (api_key_present : bool) : jarvis :=
  {| is_listening := false; is_speaking := false; is_processing := false;
     wake_word_detected := false; ai_client := api_key_present;
     camera_manager := Camera.new_CameraManager;
     conversation_history := []; current_language := language;
     command_queue := []; files := []; trace := [] |}.

(** [JarvisCore.get_status], the three flags of it. *)
Definition get_status (s : jarvis) : flags :=
  {| listening := is_listening s; speaking := is_speaking s;
     processing := is_processing s |}.

Definition set_is_listening (b : bool) (s : jarvis) : jarvis :=
  {| is_listening := b; is_speaking := is_speaking s;
     is_processing := is_processing s;
     wake_word_detected := wake_word_detected s; ai_client := ai_client s;
     camera_manager := camera_manager s;
     conversation_history := conversation_history s;
     current_language := current_language s;
     command_queue := command_queue s; files := files s; trace := trace s |}.

Definition set_is_speaking (b : bool) (s : jarvis) : jarvis :=
  {| is_listening := is_listening s; is_speaking := b;
     is_processing := is_processing s;
     wake_word_detected := wake_word_detected s; ai_client := ai_client s;
     camera_manager := camera_manager s;
     conversation_history := conversation_history s;
     current_language := current_language s;
     command_queue := command_queue s; files := files s; trace := trace s |}.

Definition set_is_processing (b : bool) (s : jarvis) : jarvis :=
  {| is_listening := is_listening s; is_speaking := is_speaking s;
     is_processing := b;
     wake_word_detected := wake_word_detected s; ai_client := ai_client s;
     camera_manager := camera_manager s;
     conversation_history := conversation_history s;
     current_language := current_language s;
     command_queue := command_queue s; files := files s; trace := trace s |}.

Definition set_wake_word_detected (b : bool) (s : jarvis) : jarvis :=
  {| is_listening := is_listening s; is_speaking := is_speaking s;
     is_processing := is_processing s;
     wake_word_detected := b; ai_client := ai_client s;
     camera_manager := camera_manager s;
     conversation_history := conversation_history s;
     current_language := current_language s;
     command_queue := command_queue s; files := files s; trace := trace s |}.

Definition set_camera (cm : Camera.camera_manager) (fs : Camera.files)
  (s : jarvis) : jarvis :=
  {| is_listening := is_listening s; is_speaking := is_speaking s;
     is_processing := is_processing s;
     wake_word_detected := wake_word_detected s; ai_client := ai_client s;
     camera_manager := cm;
     conversation_history := conversation_history s;
     current_language := current_language s;
     command_queue := command_queue s; files := fs; trace := trace s |}.

Definition set_conversation_history (h : list turn) (s : jarvis) : jarvis :=
  {| is_listening := is_listening s; is_speaking := is_speaking s;
     is_processing := is_processing s;
     wake_word_detected := wake_word_detected s; ai_client := ai_client s;
     camera_manager := camera_manager s;
     conversation_history := h;
     current_language := current_language s;
     command_queue := command_queue s; files := files s; trace := trace s |}.

Definition set_current_language (l : string) (s : jarvis) : jarvis :=
  {| is_listening := is_listening s; is_speaking := is_speaking s;
     is_processing := is_processing s;
     wake_word_detected := wake_word_detected s; ai_client := ai_client s;
     camera_manager := camera_manager s;
     conversation_history := conversation_history s;
     current_language := l;
     command_queue := command_queue s; files := files s; trace := trace s |}.

Definition set_command_queue (q : list command_data) (s : jarvis) : jarvis :=
  {| is_listening := is_listening s; is_speaking := is_speaking s;
     is_processing := is_processing s;
     wake_word_detected := wake_word_detected s; ai_client := ai_client s;
     camera_manager := camera_manager s;
     conversation_history := conversation_history s;
     current_language := current_language s;
     command_queue := q; files := files s; trace := trace s |}.

Definition set_trace (t : list (event * flags)) (s : jarvis) : jarvis :=
  {| is_listening := is_listening s; is_speaking := is_speaking s;
     is_processing := is_processing s;
     wake_word_detected := wake_word_detected s; ai_client := ai_client s;
     camera_manager := camera_manager s;
     conversation_history := conversation_history s;
     current_language := current_language s;
     command_queue := command_queue s; files := files s; trace := t |}.

(** What the world answers while one command is handled. *)
Record world : Type := {
  now_user : Z;                          (* [datetime.now()] for the user turn *)
  now_assistant : Z;                     (* [datetime.now()] for the reply *)
  photo_stamp : string;                  (* the formatted time in [take_photo] *)
  device : Camera.device_outcome;
  imwrite : Camera.imwrite_outcome;
  http : OpenRouter.http_outcome;
  engine_speak : result unit             (* [speech_engine.speak] returns or raises *)
}.

(** Statements of a method: a state transformer that returns or raises. *)
Definition M (A : Type) : Type := jarvis -> result A * jarvis.

Definition ret {A : Type} (a : A) : M A := fun s => (Ok a, s).

Definition raise {A : Type} (e : exn) : M A := fun s => (Raise e, s).

Definition mbind {A B : Type} (m : M A) (k : A -> M B) : M B :=
  fun s =>
    match m s with
    | (Ok a, s1) => k a s1
    | (Raise e, s1) => (Raise e, s1)
    end.

(** [try: body / except Exception as e: handler]. *)
Definition try_except {A : Type} (body : M A) (handler : exn -> M A) : M A :=
  fun s =>
    match body s with
    | (Ok a, s1) => (Ok a, s1)
    | (Raise e, s1) => handler e s1
    end.

(** [try: body / finally: final]. *)
Definition try_finally {A : Type} (body : M A) (final : M unit) : M A :=
  fun s =>
    match body s with
    | (r, s1) =>
        match final s1 with
        | (Ok _, s2) => (r, s2)
        | (Raise e, s2) => (Raise e, s2)
        end
    end.

Definition modify (f : jarvis -> jarvis) : M unit := fun s => (Ok tt, f s).

Definition read {A : Type} (f : jarvis -> A) : M A := fun s => (Ok (f s), s).

Declare Scope core_scope.
Delimit Scope core_scope with core.
Notation "x <- e ;; k" := (mbind e (fun x => k))
  (at level 61, e at next level, right associativity) : core_scope.
Notation "e ;; k" := (mbind e (fun _ => k))
  (at level 61, right associativity) : core_scope.
Local Open Scope core_scope.

(** An effect is put on the trace with the flags of that moment. *)
Definition emit (e : event) : M unit :=
  modify (fun s => set_trace ((e, get_status s) :: trace s) s).

(** [JarvisCore._trigger_callback]: an exception of a subscriber is
    logged there and goes no further; subscribers do not write to the
    coordinator. *)
Definition _trigger_callback (name : string) (data : payload) : M unit :=
  emit (Callback name data).

(** [x or default] on an optional [str]. *)
Definition or_default (x : option string) (default : string) : string :=
  match x with
  | Some (String c r) => String c r
  | _ => default
  end.

(** [JarvisCore.speak]. *)
Definition speak (w : world) (text : string) (language : option string) : M unit :=
  if negb (nonempty text) then ret tt
  else
    current <- read current_language ;;
    let language := or_default language current in
    modify (set_is_speaking true) ;;
    _trigger_callback "on_status_change" (PStr "speaking") ;;
    try_finally
      (try_except
         (emit (EngineSpeak text language) ;;
          match engine_speak w with
          | Ok _ => ret tt
          | Raise e => raise e
          end)
         (fun e => emit (LogError ("Error speaking: " ++ str_exn e))))
      (modify (set_is_speaking false) ;;
       _trigger_callback "on_status_change" (PStr "idle")).

(** [d.get(k, default)]. *)
Fixpoint lookup {A : Type} (d : list (string * A)) (k : string) (default : A) : A :=
  match d with
  | [] => default
  | (k', v) :: rest => if String.eqb k k' then v else lookup rest k default
  end.

Definition system_prompts : list (string * OpenRouter.message) :=
  [ ("pt-BR", {| OpenRouter.role := "system";
                 OpenRouter.content := "Você é JARVIS, um assistente virtual inteligente. Seja útil, conciso e amigável. Responda sempre em português brasileiro." |});
    ("en-US", {| OpenRouter.role := "system";
                 OpenRouter.content := "You are JARVIS, an intelligent virtual assistant. Be helpful, concise and friendly. Always respond in English." |});
    ("es-ES", {| OpenRouter.role := "system";
                 OpenRouter.content := "Eres JARVIS, un asistente virtual inteligente. Sé útil, conciso y amigable. Responde siempre en español." |}) ].

(** [system_prompts.get(language, system_prompts['pt-BR'])]. *)
Definition system_prompt (language : string) : OpenRouter.message :=
  lookup system_prompts language
    (lookup system_prompts "pt-BR"
       {| OpenRouter.role := EmptyString; OpenRouter.content := EmptyString |}).

(** [h[-6:] if len(h) > 6 else h]. *)
Definition recent_history (h : list turn) : list turn :=
  if (6 <? List.length h)%nat then skipn (List.length h - 6) h else h.

Definition message_of (t : turn) : OpenRouter.message :=
  {| OpenRouter.role := turn_role t; OpenRouter.content := turn_content t |}.

(** [JarvisCore._build_context]. *)
Definition _build_context (s : jarvis) (language : string) : list OpenRouter.message :=
  system_prompt language :: map message_of (recent_history (conversation_history s)).

Section Runtime.
(** [str.lower] and [str.strip] of the Python run time. *)
Variable lower : string -> string.
Variable strip : string -> string.

(** [JarvisCore._process_with_ai]. *)
Definition _process_with_ai (w : world) (text language : string) : M string :=
  has_client <- read ai_client ;;
  if negb has_client then
    ret "Sistema de IA não configurado. Verifique sua chave de API."
  else
    try_except
      (context <- read (fun s => _build_context s language) ;;
       let messages :=
         (context ++ [{| OpenRouter.role := "user"; OpenRouter.content := text |}])%list in
       emit (ChatCompletion messages language) ;;
       match OpenRouter.chat_completion strip (http w) messages language with
       | Ok response => ret response
       | Raise e => raise e
       end)
      (fun e =>
         emit (LogError ("AI processing error: " ++ str_exn e)) ;;
         ret "Desculpe, não consegui processar sua solicitação no momento.").

(** The camera calls of the coordinator. *)
Definition camera_start_camera (w : world) : M bool :=
  fun s =>
    let (ok, cm) := Camera.start_camera (camera_manager s) (device w) in
    (Ok ok, set_camera cm (files s) s).

Definition camera_stop_camera : M unit :=
  modify (fun s => set_camera (Camera.stop_camera (camera_manager s)) (files s) s).

Definition camera_take_photo (w : world) : M string :=
  fun s =>
    let (r, fs) :=
      Camera.take_photo (camera_manager s) (files s) None (photo_stamp w) (imwrite w) in
    (r, set_camera (camera_manager s) fs s).

(** The three blocks of [JarvisCore._handle_system_commands], last
    first: a block whose inner tests all fail falls through to the next. *)
Definition language_commands (command_lower : string) : M (option string) :=
  if str_in "idioma" command_lower || str_in "language" command_lower then
    if str_in "inglês" command_lower || str_in "english" command_lower then
      modify (set_current_language "en-US") ;;
      ret (Some "Language changed to English.")
    else if str_in "português" command_lower || str_in "portuguese" command_lower then
      modify (set_current_language "pt-BR") ;;
      ret (Some "Idioma alterado para português.")
    else if str_in "espanhol" command_lower || str_in "spanish" command_lower then
      modify (set_current_language "es-ES") ;;
      ret (Some "Idioma cambiado a español.")
    else ret None
  else ret None.

Definition volume_commands (command_lower : string) : M (option string) :=
  if any_in ["volume"; "som"] command_lower then
    if str_in "aumentar" command_lower || str_in "increase" command_lower
       || str_in "up" command_lower then
      emit IncreaseVolume ;;
      ret (Some "Volume aumentado.")
    else if str_in "diminuir" command_lower || str_in "decrease" command_lower
            || str_in "down" command_lower then
      emit DecreaseVolume ;;
      ret (Some "Volume diminuído.")
    else if str_in "mudo" command_lower || str_in "mute" command_lower then
      emit MuteVolume ;;
      ret (Some "Som silenciado.")
    else language_commands command_lower
  else language_commands command_lower.

(** [JarvisCore._handle_system_commands]. *)
Definition _handle_system_commands (w : world) (command : string) : M (option string) :=
  let command_lower := lower command in
  if any_in ["câmera"; "camera"; "foto"; "picture"] command_lower then
    if str_in "ligar" command_lower || str_in "ativar" command_lower
       || str_in "turn on" command_lower then
      _ <- camera_start_camera w ;;
      ret (Some "Câmera ativada com sucesso.")
    else if str_in "desligar" command_lower || str_in "desativar" command_lower
            || str_in "turn off" command_lower then
      camera_stop_camera ;;
      ret (Some "Câmera desativada.")
    else if str_in "foto" command_lower || str_in "picture" command_lower
            || str_in "capturar" command_lower then
      filename <- camera_take_photo w ;;
      ret (Some ("Foto capturada e salva como " ++ filename ++ "."))
    else volume_commands command_lower
  else volume_commands command_lower.

Definition append_turn (t : turn) : M unit :=
  modify (fun s => set_conversation_history (conversation_history s ++ [t]) s).

(** The [try] block of [JarvisCore._process_command]. *)
Definition process_command_try (w : world) (command_data : command_data) : M unit :=
  modify (set_is_processing true) ;;
  _trigger_callback "on_status_change" (PStr "processing") ;;
  let command_text :=
    match cmd_text command_data with Some t => t | None => EmptyString end in
  current <- read current_language ;;
  let language :=
    match cmd_language command_data with Some l => l | None => current end in
  emit (LogInfo ("Processing command: " ++ command_text)) ;;
  append_turn {| turn_role := "user"; turn_content := command_text;
                 turn_timestamp := now_user w; turn_language := language |} ;;
  system_response <- _handle_system_commands w command_text ;;
  response <-
    match system_response with
    | Some (String c r) => ret (String c r)
    | _ => _process_with_ai w command_text language
    end ;;
  append_turn {| turn_role := "assistant"; turn_content := response;
                 turn_timestamp := now_assistant w; turn_language := language |} ;;
  speak w response (Some language) ;;
  _trigger_callback "on_command" (PCommand command_data) ;;
  _trigger_callback "on_response" (PResponse response language).

Definition error_msg : string :=
  "Desculpe, ocorreu um erro ao processar seu comando.".

(** The [except] block of [JarvisCore._process_command]. *)
Definition process_command_except (w : world) (e : exn) : M unit :=
  emit (LogError ("Error processing command: " ++ str_exn e)) ;;
  speak w error_msg None ;;
  _trigger_callback "on_error" (PStr (str_exn e)).

(** The [finally] block of [JarvisCore._process_command]. *)
Definition process_command_finally : M unit :=
  modify (set_is_processing false) ;;
  _trigger_callback "on_status_change" (PStr "idle").

(** [JarvisCore._process_command]. *)
Definition _process_command (w : world) (command_data : command_data) : M unit :=
  try_finally
    (try_except (process_command_try w command_data) (process_command_except w))
    process_command_finally.

(** One turn of the loop of [JarvisCore._command_processor]: an empty
    queue times out and the loop goes on. *)
Definition _command_processor (w : world) : M unit :=
  try_except
    (q <- read command_queue ;;
     match q with
     | [] => ret tt
     | command_data :: rest =>
         modify (set_command_queue rest) ;;
         _process_command w command_data
     end)
    (fun e => emit (LogError ("Error processing command: " ++ str_exn e))).

(** [JarvisCore.start_listening]. *)
Definition start_listening : M unit :=
  l <- read is_listening ;;
  sp <- read is_speaking ;;
  if l || sp then ret tt
  else
    modify (set_is_listening true) ;;
    _trigger_callback "on_status_change" (PStr "listening") ;;
    emit ListeningThread.

(** [JarvisCore._listen_for_command], run by the thread that
    [start_listening] starts; [heard] is what
    [recognition_engine.listen_for_command()] gives; [now] is the clock. *)
Definition _listen_for_command (heard : result (option string)) (now : Z) : M unit :=
  try_finally
    (try_except
       (match heard with
        | Raise e => raise e
        | Ok (Some (String c r)) =>
            current <- read current_language ;;
            modify (fun s =>
              set_command_queue
                (command_queue s ++
                   [{| cmd_text := Some (String c r);
                       cmd_language := Some current;
                       cmd_timestamp := Some now |}]) s)
        | Ok _ => ret tt
        end)
       (fun e => emit (LogError ("Error listening for command: " ++ str_exn e))))
    (modify (set_is_listening false) ;;
     _trigger_callback "on_status_change" (PStr "idle")).

(** One turn of the loop of [JarvisCore._voice_activation_listener]. *)
Definition _voice_activation_listener (wake_word : string)
  (heard : result (option string)) : M unit :=
  try_except
    (sp <- read is_speaking ;;
     pr <- read is_processing ;;
     if negb sp && negb pr then
       match heard with
       | Raise e => raise e
       | Ok (Some (String c r)) =>
           if str_in wake_word (lower (String c r)) then
             modify (set_wake_word_detected true) ;;
             _trigger_callback "on_wake_word" (PStr (String c r)) ;;
             start_listening
           else ret tt
       | Ok _ => ret tt
       end
     else ret tt)
    (fun e => emit (LogError ("Error in voice activation: " ++ str_exn e))).

(** What the threads of the coordinator and its clients do, one call at a
    time. *)
Inductive action : Type :=
| QueuePut (c : command_data)
| CommandProcessor (w : world)
| StartListening
| ListenForCommand (heard : result (option string)) (now : Z)
| VoiceActivation (wake_word : string) (heard : result (option string)).

Definition perform (a : action) : M unit :=
  match a with
  | QueuePut c => modify (fun s => set_command_queue (command_queue s ++ [c]) s)
  | CommandProcessor w => _command_processor w
  | StartListening => start_listening
  | ListenForCommand heard now => _listen_for_command heard now
  | VoiceActivation wake_word heard => _voice_activation_listener wake_word heard
  end.

Definition run (acts : list action) (s : jarvis) : jarvis :=
  fold_left (fun s a => snd (perform a s)) acts s.

End Runtime.

(** A command text matches a known system-command phrase: the key word of
    a block and one of its action words both occur in the lowered text. *)
Definition camera_phrase (command_lower : string) : bool :=
  any_in ["câmera"; "camera"; "foto"; "picture"] command_lower &&
  any_in ["ligar"; "ativar"; "turn on"; "desligar"; "desativar"; "turn off";
          "foto"; "picture"; "capturar"] command_lower.

Definition volume_phrase (command_lower : string) : bool :=
  any_in ["volume"; "som"] command_lower &&
  any_in ["aumentar"; "increase"; "up"; "diminuir"; "decrease"; "down";
          "mudo"; "mute"] command_lower.

Definition language_phrase (command_lower : string) : bool :=
  any_in ["idioma"; "language"] command_lower &&
  any_in ["inglês"; "english"; "português"; "portuguese";
          "espanhol"; "spanish"] command_lower.

Definition system_command_phrase (command_lower : string) : bool :=
  camera_phrase command_lower || volume_phrase command_lower
  || language_phrase command_lower.

(** The flags seen at some effect of the run, or at its end. *)
Definition observed (s : jarvis) (f : flags) : Prop :=
  f = get_status s \/ In f (map snd (trace s)).

Definition chat_calls (t : list (event * flags)) : list (list OpenRouter.message * string) :=
  flat_map (fun ef =>
              match fst ef with
              | ChatCompletion messages language => [(messages, language)]
              | _ => []
              end) t.

Definition spoken (t : list (event * flags)) : list (string * string) :=
  flat_map (fun ef =>
              match fst ef with
              | EngineSpeak text language => [(text, language)]
              | _ => []
              end) t.

Definition count_role (r : string) (h : list turn) : nat :=
  List.length (filter (fun t => String.eqb (turn_role t) r) h).

(** The effects a call adds to the trace when it takes [s] to [s'],
    newest first. *)
Definition effects (s s' : jarvis) : list (event * flags) :=
  firstn (List.length (trace s') - List.length (trace s)) (trace s').

Definition stamp (f : flags) (evs : list event) : list (event * flags) :=
  map (fun e => (e, f)) evs.

(** A call of the system controller. *)
Definition controller_event (e : event) : bool :=
  match e with
  | IncreaseVolume | DecreaseVolume | MuteVolume => true
  | _ => false
  end.

(** What [_handle_system_commands] leaves alone: the flags, the history,
    the AI client and the queue; the trace grows by calls of the system
    controller only. *)
Record preserved (s s' : jarvis) : Prop := {
  pres_flags : get_status s' = get_status s;
  pres_history : conversation_history s' = conversation_history s;
  pres_ai : ai_client s' = ai_client s;
  pres_queue : command_queue s' = command_queue s;
  pres_trace : exists evs,
      forallb controller_event evs = true /\
      trace s' = (stamp (get_status s) evs ++ trace s)%list
}.

(** The user turn and the reply that [_process_command] appends. *)
Definition command_text (c : command_data) : string :=
  match cmd_text c with Some t => t | None => EmptyString end.

Definition command_language (c : command_data) (s : jarvis) : string :=
  match cmd_language c with Some l => l | None => current_language s end.

Definition user_turn (w : world) (c : command_data) (s : jarvis) : turn :=
  {| turn_role := "user"; turn_content := command_text c;
     turn_timestamp := now_user w; turn_language := command_language c s |}.

Definition assistant_turn (w : world) (c : command_data) (s : jarvis)
  (response : string) : turn :=
  {| turn_role := "assistant"; turn_content := response;
     turn_timestamp := now_assistant w; turn_language := command_language c s |}.

(** The state in which [_process_command] calls
    [_handle_system_commands]. *)
Definition at_dispatch (w : world) (c : command_data) (s : jarvis) : jarvis :=
  let s1 := set_is_processing true s in
  let s2 := set_trace
              ((LogInfo ("Processing command: " ++ command_text c), get_status s1)
               :: (Callback "on_status_change" (PStr "processing"), get_status s1)
               :: trace s1) s1 in
  set_conversation_history (conversation_history s2 ++ [user_turn w c s]) s2.

(** *** The states [_process_command] goes through, written out *)

Definition with_speaking (b : bool) (f : flags) : flags :=
  {| listening := listening f; speaking := b; processing := processing f |}.

(** What [speak] adds to the trace when the text is not empty, newest
    first; [f] are the flags on entry. *)
Definition speak_effects (w : world) (text language : string) (f : flags)
  : list (event * flags) :=
  ((Callback "on_status_change" (PStr "idle"), with_speaking false f)
   :: match engine_speak w with
      | Ok _ => []
      | Raise e => [(LogError ("Error speaking: " ++ str_exn e), with_speaking true f)]
      end
   ++ [(EngineSpeak text language, with_speaking true f);
       (Callback "on_status_change" (PStr "speaking"), with_speaking true f)])%list.

(** The state after [speak(text, language)]. *)
Definition said (w : world) (text : string) (language : option string)
  (s : jarvis) : jarvis :=
  match text with
  | EmptyString => s
  | String _ _ =>
      set_trace
        (speak_effects w text (or_default language (current_language s)) (get_status s)
         ++ trace s)%list
        (set_is_speaking false s)
  end.

(** The state after the reply is recorded, spoken and announced. *)
Definition replied (w : world) (c : command_data) (t : turn)
  (language response : string) (s : jarvis) : jarvis :=
  let s1 := set_conversation_history (conversation_history s ++ [t]) s in
  let s2 := said w response (Some language) s1 in
  set_trace
    ((Callback "on_response" (PResponse response language), get_status s2)
     :: (Callback "on_command" (PCommand c), get_status s2)
     :: trace s2) s2.

(** The state after the [except] block. *)
Definition failed (w : world) (e : exn) (s : jarvis) : jarvis :=
  let s1 := set_trace
              ((LogError ("Error processing command: " ++ str_exn e), get_status s)
               :: trace s) s in
  let s2 := said w error_msg None s1 in
  set_trace ((Callback "on_error" (PStr (str_exn e)), get_status s2) :: trace s2) s2.

(** The state after the [finally] block. *)
Definition finished (s : jarvis) : jarvis :=
  let s1 := set_is_processing false s in
  set_trace ((Callback "on_status_change" (PStr "idle"), get_status s1) :: trace s1) s1.

(** The photo block raises what [take_photo] raises. *)
Definition photo_raises (w : world) (s : jarvis) (e : exn) : Prop :=
  fst (Camera.take_photo (camera_manager s) (files s) None (photo_stamp w) (imwrite w))
  = Raise e.

(** The messages [_process_with_ai] sends. *)
Definition ai_messages (s : jarvis) (text language : string)
  : list OpenRouter.message :=
  (_build_context s language
   ++ [{| OpenRouter.role := "user"; OpenRouter.content := text |}])%list.

(** What [speak(text, language)] adds to the trace, newest first. *)
Definition said_effects (w : world) (text : string) (language : option string)
  (s : jarvis) : list (event * flags) :=
  match text with
  | EmptyString => []
  | String _ _ =>
      speak_effects w text (or_default language (current_language s)) (get_status s)
  end.

(** Flags in which speaking happens inside processing only. *)
Definition consistent (f : flags) : Prop :=
  speaking f = true -> processing f = true.

(** The coordinator between two commands. *)
Record at_rest (s : jarvis) : Prop := {
  rest_speaking : is_speaking s = false;
  rest_processing : is_processing s = false;
  rest_trace : Forall (fun ef => consistent (snd ef)) (trace s)
}.

(** The coordinator inside [_process_command], outside [speak]. *)
Record busy (s : jarvis) : Prop := {
  busy_processing : is_processing s = true;
  busy_speaking : is_speaking s = false;
  busy_trace : Forall (fun ef => consistent (snd ef)) (trace s)
}.

(** A world in which the camera opens, photos are written, the AI
    back end cannot be reached and the speech engine works. *)
Definition offline_world : world :=
  {| now_user := 1; now_assistant := 2; photo_stamp := "20240101_120000";
     device := Camera.Opened; imwrite := Camera.Written;
     http := Raise (RequestException "connection refused");
     engine_speak := Ok tt |}.

(** A command as the text entry of the window queues it. *)
Definition typed (text language : string) : command_data :=
  {| cmd_text := Some text; cmd_language := Some language; cmd_timestamp := None |}.

(** What [_process_command] adds to the trace before the dispatch. *)
Definition dispatch_effects (w : world) (c : command_data) (s : jarvis)
  : list (event * flags) :=
  [ (LogInfo ("Processing command: " ++ command_text c), get_status (at_dispatch w c s));
    (Callback "on_status_change" (PStr "processing"), get_status (at_dispatch w c s)) ].

(** What the reply and the [finally] block add to the trace. *)
Definition reply_effects (w : world) (c : command_data)
  (language response : string) (s : jarvis) : list (event * flags) :=
  let f := get_status (said w response (Some language) s) in
  (Callback "on_status_change" (PStr "idle"),
   {| listening := listening f; speaking := speaking f; processing := false |})
  :: (Callback "on_response" (PResponse response language), f)
  :: (Callback "on_command" (PCommand c), f)
  :: said_effects w response (Some language) s.

(** What the [except] and the [finally] block add to the trace. *)
Definition failure_effects (w : world) (e : exn) (s : jarvis)
  : list (event * flags) :=
  ((Callback "on_status_change" (PStr "idle"),
    {| listening := is_listening s; speaking := false; processing := false |})
   :: (Callback "on_error" (PStr (str_exn e)), with_speaking false (get_status s))
   :: speak_effects w error_msg (current_language s) (get_status s)
   ++ [(LogError ("Error processing command: " ++ str_exn e), get_status s)])%list.

Definition with_chat (messages : list OpenRouter.message) (language : string)
  (s : jarvis) : jarvis :=
  set_trace ((ChatCompletion messages language, get_status s) :: trace s) s.

Section Outcomes.
Variable lower : string -> string.
Variable strip : string -> string.

(** The four ways through [_process_command] and the state each ends
    in. *)
Inductive outcome (w : world) (c : command_data) (s : jarvis) : jarvis -> Prop :=
| outcome_system : forall r s2,
    system_command_phrase (lower (command_text c)) = true ->
    _handle_system_commands lower w (command_text c) (at_dispatch w c s)
      = (Ok (Some r), s2) ->
    nonempty r = true ->
    preserved (at_dispatch w c s) s2 ->
    outcome w c s
      (finished (replied w c (assistant_turn w c s r) (command_language c s) r s2))
| outcome_raised : forall e s2,
    system_command_phrase (lower (command_text c)) = true ->
    _handle_system_commands lower w (command_text c) (at_dispatch w c s)
      = (Raise e, s2) ->
    process_command_try lower strip w c s = (Raise e, s2) ->
    photo_raises w s e ->
    preserved (at_dispatch w c s) s2 ->
    outcome w c s (finished (failed w e s2))
| outcome_no_client :
    system_command_phrase (lower (command_text c)) = false ->
    _handle_system_commands lower w (command_text c) (at_dispatch w c s)
      = (Ok None, at_dispatch w c s) ->
    ai_client s = false ->
    outcome w c s
      (finished
         (replied w c
            (assistant_turn w c s
               "Sistema de IA não configurado. Verifique sua chave de API.")
            (command_language c s)
            "Sistema de IA não configurado. Verifique sua chave de API."
            (at_dispatch w c s)))
| outcome_ai : forall response,
    system_command_phrase (lower (command_text c)) = false ->
    _handle_system_commands lower w (command_text c) (at_dispatch w c s)
      = (Ok None, at_dispatch w c s) ->
    ai_client s = true ->
    OpenRouter.chat_completion strip (http w)
      (ai_messages (at_dispatch w c s) (command_text c) (command_language c s))
      (command_language c s) = Ok response ->
    outcome w c s
      (finished
         (replied w c (assistant_turn w c s response) (command_language c s) response
            (with_chat
               (ai_messages (at_dispatch w c s) (command_text c) (command_language c s))
               (command_language c s) (at_dispatch w c s)))).

End Outcomes.

(** The coordinator after four questions typed while the AI back end is
    unreachable: eight turns of history. *)
Definition chatty : jarvis :=
  run PyStr.lower_latin1 PyStr.strip_ascii
    [ QueuePut (typed "bom dia" "pt-BR"); CommandProcessor offline_world;
      QueuePut (typed "que horas são" "pt-BR"); CommandProcessor offline_world;
      QueuePut (typed "conte uma piada" "pt-BR"); CommandProcessor offline_world;
      QueuePut (typed "obrigado" "pt-BR"); CommandProcessor offline_world ]
    (new_JarvisCore "pt-BR" true).

(** The window is opened for listening, then a typed command is
    processed while the listening thread still waits. *)
Definition listen_then_type : list action :=
  [ StartListening; QueuePut (typed "bom dia" "pt-BR");
    CommandProcessor offline_world ].

End Core.

(* ===================================================================== *)
(** ** config.py: the paths of [set] *)
(* ===================================================================== *)

Module ConfigPaths.
Import Py.
Import Config.

(** On the way to the last segment a value is stored that is not a
    mapping. *)
Inductive blocked : value -> list string -> Prop :=
| blocked_here : forall v k ks,
    isinstance_dict v = false -> blocked v (k :: ks)
| blocked_below : forall d k k' ks child,
    dict_get k d = Some child ->
    blocked child (k' :: ks) ->
    blocked (VDict d) (k :: k' :: ks).


End ConfigPaths.

(* ===================================================================== *)
(** ** openrouter_client.py: the connection test and the model list *)
(* ===================================================================== *)

Module OpenRouterProbe.
Import Py.
Import OpenRouter.
Local Open Scope py_scope.

Definition test_messages : list message :=
  [{| role := "user"; content := "Hello, can you hear me?" |}].

(** [for x in v]: the elements a value yields. A [str] yields strings
    of length one (here one per byte; whatever their length, they are
    strings). *)
Definition py_iter (v : value) : result (list value) :=
  match v with
  | VList l => Ok l
  | VDict d => Ok (map (fun kv => VStr (fst kv)) d)
  | VStr s => Ok (map (fun c => VStr (String c EmptyString)) (list_ascii_of_string s))
  | _ => Raise (TypeError ("'" ++ type_name v ++ "' object is not iterable"))
  end.

(** [[model['id'] for model in models]]. *)
Fixpoint model_ids (models : list value) : result (list value) :=
  match models with
  | [] => Ok []
  | model :: rest =>
      id <- py_getitem model "id" ;;
      ids <- model_ids rest ;;
      Ok (id :: ids)
  end.

(** [OpenRouterClient.get_available_models]; [http] is the round trip of
    its [requests.get]. *)
Definition get_available_models (http : http_outcome) : result (list value) :=
  try_except
    (response <- http ;;
     _ <- raise_for_status response ;;
     result <- json response ;;
     has_data <- py_contains result "data" ;;
     if has_data : bool then
       data <- py_getitem result "data" ;;
       models <- py_iter data ;;
       model_ids models
     else Ok [])
    (fun _ => Ok []).

Section Runtime.
Variable strip : string -> string.

(** [OpenRouterClient.test_connection]:
    [bool(response and len(response) > 0)]. *)
Definition test_connection (http : http_outcome) : result bool :=
  try_except
    (response <- chat_completion strip http test_messages "en-US" ;;
     Ok (if PyStr.nonempty response
         then (0 <? String.length response)%nat
         else false))
    (fun _ => Ok false).

End Runtime.

(** A response with status 200 and the decoded body [body]. *)
Definition answered (body : value) : http_outcome :=
  Ok {| raise_for_status := Ok tt; json := Ok body |}.

End OpenRouterProbe.

(* ===================================================================== *)
(** ** camera_manager.py: recording *)
(* ===================================================================== *)

Module Recorder.
Import Py.
Import Camera.

(** A [cv2.VideoWriter]: the file it writes, the frames written so far
    (newest first) and whether [release] was called. *)
Record writer : Type := {
  target : string;
  frames : list frame;
  released : bool
}.

(** The camera manager with the attributes that recording adds;
    [video_writer] is [None] until [start_recording] sets it. *)
Record recorder : Type := {
  cam : camera_manager;
  video_writer : option writer;
  recording_filename : option string
}.

Definition new_recorder : recorder :=
  {| cam := new_CameraManager; video_writer := None; recording_filename := None |}.

Definition set_is_recording (b : bool) (cm : camera_manager) : camera_manager :=
  {| camera := camera cm; is_active := is_active cm; is_recording := b;
     current_frame := current_frame cm |}.

(** What [cv2.VideoWriter(...)] does. *)
Inductive writer_outcome : Type :=
| WriterOpens
| WriterRaises (e : exn).

(** [CameraManager.start_recording]; [stamp] is the formatted time. *)
Definition start_recording (r : recorder) (filename : option string)
  (stamp : string) (wr : writer_outcome) : result string * recorder :=
  if negb (is_active (cam r)) then (Raise (RuntimeError "Camera is not active"), r)
  else if is_recording (cam r) then (Raise (RuntimeError "Already recording"), r)
  else
    let filename :=
      match filename with
      | Some name => name
      | None => "output/videos/jarvis_video_" ++ stamp ++ ".mp4"
      end in
    match wr with
    | WriterRaises e => (Raise e, r)
    | WriterOpens =>
        (Ok filename,
         {| cam := set_is_recording true (cam r);
            video_writer := Some {| target := filename; frames := []; released := false |};
            recording_filename := Some filename |})
    end.

(** [CameraManager.stop_recording]. *)
Definition stop_recording (r : recorder) : recorder :=
  if negb (is_recording (cam r)) then r
  else
    {| cam := set_is_recording false (cam r);
       video_writer :=
         match video_writer r with
         | Some w => Some {| target := target w; frames := frames w; released := true |}
         | None => None
         end;
       recording_filename := recording_filename r |}.

(** One turn of [CameraManager._recording_loop]. *)
Definition recording_step (r : recorder) : recorder :=
  if is_recording (cam r) then
    match get_current_frame (cam r), video_writer r with
    | Some f, Some w =>
        {| cam := cam r;
           video_writer :=
             Some {| target := target w; frames := f :: frames w; released := released w |};
           recording_filename := recording_filename r |}
    | _, _ => r
    end
  else r.

Definition with_cam (cm : camera_manager) (r : recorder) : recorder :=
  {| cam := cm; video_writer := video_writer r;
     recording_filename := recording_filename r |}.

(** The calls a client of the camera manager makes. *)
Inductive op : Type :=
| StartCamera (dev : device_outcome)
| StopCamera
| Capture (f : frame)
| StartRecording (filename : option string) (stamp : string) (wr : writer_outcome)
| StopRecording
| RecordingStep.

Definition apply_op (r : recorder) (o : op) : recorder :=
  match o with
  | StartCamera dev => with_cam (snd (start_camera (cam r) dev)) r
  | StopCamera => with_cam (stop_camera (cam r)) r
  | Capture f => with_cam (capture (cam r) f) r
  | StartRecording filename stamp wr => snd (start_recording r filename stamp wr)
  | StopRecording => stop_recording r
  | RecordingStep => recording_step r
  end.

Definition run (ops : list op) (r : recorder) : recorder :=
  fold_left apply_op ops r.

(** While recording, the camera is active and the writer is open. *)
Definition recording_ok (r : recorder) : Prop :=
  is_recording (cam r) = true ->
  is_active (cam r) = true /\
  exists w, video_writer r = Some w /\ released w = false /\
            recording_filename r = Some (target w).

End Recorder.

(* ===================================================================== *)
(** ** speech_engine.py: the text effects *)
(* ===================================================================== *)

Module SpeechText.
Import PyStr.

(** [s.replace("", new)]: [new] before every character and at the end. *)
Fixpoint interleave (new s : string) : string :=
  match s with
  | EmptyString => new
  | String c rest => new ++ String c (interleave new rest)
  end.

(** The scan of [s.replace(old, new)] for a non-empty [old], left to
    right without overlap; [skip] counts the characters of a match still
    to pass over. *)
Fixpoint replace_from (old new : string) (skip : nat) (s : string) : string :=
  match s with
  | EmptyString => EmptyString
  | String c rest =>
      match skip with
      | S n => replace_from old new n rest
      | O =>
          if String.prefix old s
          then new ++ replace_from old new (String.length old - 1) rest
          else String c (replace_from old new 0 rest)
      end
  end.

(** [s.replace(old, new)]. *)
Definition replace (old new s : string) : string :=
  match old with
  | EmptyString => interleave new s
  | String _ _ => replace_from old new 0 s
  end.

(** The character occurs in the text: [c in s] for a one-character
    [c]. *)
Fixpoint has_char (c : ascii) (s : string) : bool :=
  match s with
  | EmptyString => false
  | String x rest => Ascii.eqb c x || has_char c rest
  end.

Definition emphasis_words : list string :=
  ["jarvis"; "sistema"; "ativado"; "processando"; "comando"].

Definition emphasis_tag (word : string) : string :=
  "<emphasis level='strong'>" ++ word ++ "</emphasis>".

Section Runtime.
(** [str.lower] of the Python run time. *)
Variable lower : string -> string.

(** One turn of the loop over [emphasis_words]. *)
Definition emphasise (robotic_text word : string) : string :=
  if str_in word (lower robotic_text)
  then replace word (emphasis_tag word) robotic_text
  else robotic_text.

(** [SpeechEngine._apply_robotic_effects]. *)
Definition _apply_robotic_effects (text : string) : string :=
  let robotic_text := replace "." "... " text in
  let robotic_text := replace "," ",. " robotic_text in
  let robotic_text := replace "!" "... " robotic_text in
  let robotic_text := replace "?" "... " robotic_text in
  fold_left emphasise emphasis_words robotic_text.

End Runtime.

End SpeechText.

(* ===================================================================== *)
(** ** jarvis_core.py: the queue and the history over several commands *)
(* ===================================================================== *)

Module CoreMore.
Import Py.
Import Core.

(** The command thread takes one turn of its loop per world. *)
Definition rounds (ws : list world) : list action := map CommandProcessor ws.

(** The texts of the user turns of a piece of history, oldest first. *)
Definition user_texts (h : list turn) : list string :=
  map turn_content (filter (fun t => String.eqb (turn_role t) "user") h).

(** The languages [_build_context] has a system prompt for. *)
Definition prompt_languages : list string := map fst system_prompts.

(** The command [_listen_for_command] queues for a recognised text. *)
Definition heard_command (text : string) (now : Z) (s : jarvis) : command_data :=
  {| cmd_text := Some text; cmd_language := Some (current_language s);
     cmd_timestamp := Some now |}.

End CoreMore.

(* ===================================================================== *)
(** ** jarvis_core.py: the callback registry *)
(* ===================================================================== *)

Module Callbacks.
Import Py.
Import Core.

(** A subscriber: a name to tell it by and what it does with the data,
    return or raise. *)
Record callback : Type := {
  cb_name : string;
  cb_call : payload -> result unit
}.

(** [self.callbacks]: the lists of subscribers by event name. *)
Definition registry : Type := list (string * list callback).

(** The registry [JarvisCore.__init__] builds. *)
Definition new_callbacks : registry :=
  [ ("on_wake_word", []); ("on_command", []); ("on_response", []);
    ("on_error", []); ("on_status_change", []) ].

(** [event in self.callbacks]. *)
Fixpoint known (reg : registry) (event : string) : bool :=
  match reg with
  | [] => false
  | (name, _) :: rest => String.eqb event name || known rest event
  end.

(** [self.callbacks[event].append(callback)] for a known event. *)
Fixpoint append_at (reg : registry) (event : string) (cb : callback) : registry :=
  match reg with
  | [] => []
  | (name, cbs) :: rest =>
      if String.eqb event name then (name, (cbs ++ [cb])%list) :: rest
      else (name, cbs) :: append_at rest event cb
  end.

(** [JarvisCore.add_callback]. *)
Definition add_callback (reg : registry) (event : string) (cb : callback) : registry :=
  if known reg event then append_at reg event cb else reg.

(** [self.callbacks.get(event, [])]. *)
Definition subscribers (reg : registry) (event : string) : list callback :=
  lookup reg event [].

(** What a call of [_trigger_callback] does, in order. *)
Inductive notice : Type :=
| Called (name : string) (data : payload)
| Logged (msg : string).

(** [JarvisCore._trigger_callback]: every subscriber is called inside its
    own [try]; what one raises is logged. *)
Definition _trigger_callback (reg : registry) (event : string) (data : payload)
  : list notice :=
  flat_map
    (fun cb =>
       Called (cb_name cb) data ::
       match cb_call cb data with
       | Ok _ => []
       | Raise e => [Logged ("Callback error for " ++ event ++ ": " ++ str_exn e)]
       end)
    (subscribers reg event).

(** The subscribers called, in order. *)
Definition called (ns : list notice) : list string :=
  flat_map (fun n => match n with Called name _ => [name] | Logged _ => [] end) ns.

Definition logged (ns : list notice) : list string :=
  flat_map (fun n => match n with Logged msg => [msg] | Called _ _ => [] end) ns.

(** The subscribers of the list that raise on the data. *)
Definition raising (data : payload) (cbs : list callback) : list callback :=
  filter (fun cb => match cb_call cb data with Raise _ => true | Ok _ => false end) cbs.

End Callbacks.

(* ===================================================================== *)
(** ** logger.py: the record buffer of [JarvisLogHandler] *)
(* ===================================================================== *)

Module LogBuffer.

Section Records.
Variable record : Type.

(** [l[i:]] for an integer [i]: a negative [i] counts from the end. *)
Definition slice_from (i : Z) (l : list record) : list record :=
  let n := Z.of_nat (List.length l) in
  let start := if (i <? 0)%Z then Z.max 0 (n + i) else Z.min i n in
  skipn (Z.to_nat start) l.

Definition max_records : Z := 1000.

(** The buffer after [JarvisLogHandler.emit(record)]; a callback that
    raises is handed to [handleError] after the record is stored. *)
Definition emit (records : list record) (r : record) : list record :=
  let records := (records ++ [r])%list in
  if (max_records <? Z.of_nat (List.length records))%Z
  then slice_from (- max_records) records
  else records.

(** [JarvisLogHandler.get_recent_logs]. *)
Definition get_recent_logs (records : list record) (count : Z) : list record :=
  if (count <? Z.of_nat (List.length records))%Z
  then slice_from (- count) records
  else records.

(** The handler after the records were emitted one by one. *)
Definition emitted (rs : list record) : list record := fold_left emit rs [].

End Records.

End LogBuffer.

(* ===================================================================== *)
(** ** system_control.py: volume level, web sites and web search *)
(* ===================================================================== *)

Module SystemControl.
Import Py.
Import PyStr.

(** What the system controller asks of the operating system. *)
Inductive effect : Type :=
| SetMasterScalarVolume (level : Z)   (* [SetMasterScalarVolume(level / 100, None)] *)
| OsascriptVolume (level : Z)         (* [osascript -e 'set volume output volume {level}'] *)
| AmixerMaster (level : Z)            (* [amixer set Master {level}%] *)
| BrowserOpen (url : string).         (* [webbrowser.open(url)] *)

(** The call [set_volume] makes on the platform [system], if any. *)
Definition volume_call (system : string) (level : Z) : list effect :=
  if String.eqb system "windows" then [SetMasterScalarVolume level]
  else if String.eqb system "darwin" then [OsascriptVolume level]
  else if String.eqb system "linux" then [AmixerMaster level]
  else [].

(** [SystemController.set_volume]; [os] is what the branch of the
    platform does, return or raise, and the list holds the call that
    branch makes with the level. No branch is taken on another platform,
    where nothing can raise. *)
Definition set_volume (system : string) (level : Z) (os : result unit)
  : bool * list effect :=
  let level := Z.max 0 (Z.min 100 level) in
  match volume_call system level, os with
  | [], _ => (true, [])
  | calls, Ok _ => (true, calls)
  | calls, Raise _ => (false, calls)
  end.

(** [url.startswith(('http://', 'https://'))]. *)
Definition has_scheme (url : string) : bool :=
  String.prefix "http://" url || String.prefix "https://" url.

(** [SystemController.open_website]; [browser] is what
    [webbrowser.open] does. *)
Definition open_website (url : string) (browser : result unit) : bool * list effect :=
  let url := if negb (has_scheme url) then "https://" ++ url else url in
  match browser with
  | Ok _ => (true, [BrowserOpen url])
  | Raise _ => (false, [BrowserOpen url])
  end.

Definition search_urls : list (string * string) :=
  [ ("google", "https://www.google.com/search?q=");
    ("bing", "https://www.bing.com/search?q=");
    ("duckduckgo", "https://duckduckgo.com/?q=");
    ("youtube", "https://www.youtube.com/results?search_query=") ].

(** [search_urls.get(engine, search_urls['google'])]. *)
Definition base_url (engine : string) : string :=
  Core.lookup search_urls engine (Core.lookup search_urls "google" EmptyString).

(** [SystemController.search_web]. *)
Definition search_web (query engine : string) (browser : result unit)
  : bool * list effect :=
  let search_url := base_url engine ++ SpeechText.replace " " "+" query in
  open_website search_url browser.

End SystemControl.

(* ===================================================================== *)
(** ** recognition_engine.py: from the microphone to a command text *)
(* ===================================================================== *)

Module Recognition.
Import PyStr.

(** What a recogniser does with the audio: a text, or one of the errors
    the engine tells apart. *)
Inductive recognised : Type :=
| Text (text : string)
| UnknownValueError
| RequestError (msg : string)
| OtherError (msg : string).

(** What [recognizer.listen] does. *)
Inductive listened : Type :=
| Audio
| WaitTimeoutError
| ListenError (msg : string).

Record engine : Type := {
  microphone : bool;              (* [self.microphone] is set *)
  is_listening : bool
}.

Section Runtime.
Variable lower : string -> string.
Variable strip : string -> string.

(** [RecognitionEngine._offline_recognition]; [sphinx] is what
    [recognize_sphinx] does. *)
Definition _offline_recognition (sphinx : recognised) : option string :=
  match sphinx with
  | Text text => if nonempty text then Some (strip (lower text)) else None
  | _ => None
  end.

(** [RecognitionEngine._recognize_speech]; [google] is what
    [recognize_google] does. The language detection of the slow mode
    only logs and raises nothing, so [quick] does not show in the
    result. *)
Definition _recognize_speech (google sphinx : recognised) : option string :=
  match google with
  | Text text => if nonempty text then Some (strip (lower text)) else None
  | UnknownValueError => None
  | RequestError _ => _offline_recognition sphinx
  | OtherError _ => None
  end.

(** [RecognitionEngine.listen_for_command]: the result and the engine
    when it returns. *)
Definition listen_for_command (e : engine) (l : listened)
  (google sphinx : recognised) : option string * engine :=
  if negb (microphone e) then (None, e)
  else
    (match l with
     | Audio =>
         match _recognize_speech google sphinx with
         | Some (String c r) => Some (String c r)
         | _ => None
         end
     | _ => None
     end,
     {| microphone := microphone e; is_listening := false |}).

(** [RecognitionEngine.listen_for_wake_word]. *)
Definition listen_for_wake_word (e : engine) (l : listened)
  (google sphinx : recognised) : option string :=
  if negb (microphone e) then None
  else
    match l with
    | Audio => _recognize_speech google sphinx
    | _ => None
    end.

End Runtime.

End Recognition.

(* ===================================================================== *)
(** ** Facts about the configuration store *)
(* ===================================================================== *)

Module ConfigFacts.
Import Py.
Import Config.
Local Open Scope py_scope.

Lemma dict_get_set_same (d : dict) (k : string) (v : value) :
  dict_get k (dict_set d k v) = Some v.
Proof.
  induction d as [|[k' v'] rest IH]; simpl.
  - now rewrite String.eqb_refl.
  - destruct (String.eqb k k') eqn:E; simpl.
    + now rewrite String.eqb_refl.
    + now rewrite E.
Qed.

Lemma dict_get_set_other (d : dict) (k k' : string) (v : value) :
  String.eqb k k' = false ->
  dict_get k (dict_set d k' v) = dict_get k d.
Proof.
  intros Hne. induction d as [|[k0 v0] rest IH]; simpl.
  - now rewrite Hne.
  - destruct (String.eqb k' k0) eqn:E; simpl.
    + apply String.eqb_eq in E. subst k0. now rewrite Hne.
    + destruct (String.eqb k k0); [reflexivity | exact IH].
Qed.

Lemma split_not_nil (sep : ascii) (s : string) : PyStr.split sep s <> [].
Proof.
  destruct s as [|c rest]; simpl; [discriminate|].
  destruct (Ascii.eqb c sep); [discriminate|].
  destruct (PyStr.split sep rest); discriminate.
Qed.

Lemma resolves_functional (v : value) (ks : list string) (w1 w2 : value) :
  resolves v ks w1 -> resolves v ks w2 -> w1 = w2.
Proof.
  intros H1. revert w2. induction H1 as [v|d k ks v w Hk Hr IH]; intros w2 H2.
  - now inversion H2.
  - inversion H2; subst. rewrite Hk in H3. injection H3 as <-. now apply IH.
Qed.

(** The loop of [get] returns, and what it returns is the value the path
    leads to when there is one and the default when there is none. *)
Lemma get_loop_spec (ks : list string) (default : value) :
  forall v,
    (exists w, resolves v ks w /\ get_loop ks v default = Ok w) \/
    ((forall w, ~ resolves v ks w) /\ get_loop ks v default = Ok default).
Proof.
  induction ks as [|k ks IH]; intros v.
  - left. exists v. split; [constructor | reflexivity].
  - destruct v as [| b | n | q | s | l | d];
      try (right; split; [intros w H; inversion H | reflexivity]).
    simpl. destruct (dict_get k d) as [child|] eqn:Hk; simpl.
    + destruct (IH child) as [[w [Hr Hg]] | [Hn Hg]].
      * left. exists w. split; [econstructor; eassumption | exact Hg].
      * right. split; [|exact Hg].
        intros w H. inversion H; subst.
        rewrite Hk in H3. injection H3 as <-. now apply (Hn w).
    + right. split; [|reflexivity].
      intros w H. inversion H; subst. rewrite Hk in H3. discriminate.
Qed.


Lemma set_loop_step (k k2 : string) (ks : list string) (config v : value) :
  set_loop (k :: k2 :: ks) config v =
  (present <- py_contains config k ;;
   config1 <- (if negb present then py_setitem config k (VDict []) else Ok config) ;;
   child <- py_getitem config1 k ;;
   child' <- set_loop (k2 :: ks) child v ;;
   py_setitem config1 k child').
Proof. reflexivity. Qed.



(** *** Unique keys are kept *)





(** *** Merging the saved file over the defaults *)

Lemma deep_merge_loop (items default : dict) :
  deep_merge (VDict items) default = merge_loop items default.
Proof.
  unfold merge_loop. revert default.
  induction items as [|[k v] rest IH]; intros default; [reflexivity|].
  simpl fold_left. rewrite <- IH. reflexivity.
Qed.

Lemma merge_step_same (default : dict) (k : string) (u : value) :
  dict_get k (merge_step deep_merge default (k, u)) = Some (merged_value default k u).
Proof.
  unfold merge_step, merged_value.
  destruct (dict_get k default) as [[]|]; destruct u; apply dict_get_set_same.
Qed.

Lemma merge_step_other (default : dict) (k k' : string) (u : value) :
  String.eqb k k' = false ->
  dict_get k (merge_step deep_merge default (k', u)) = dict_get k default.
Proof.
  intros Hne. unfold merge_step.
  destruct (dict_get k' default) as [[]|]; destruct u;
    now apply dict_get_set_other.
Qed.

Lemma merge_loop_absent (items : dict) :
  forall default k,
    existsb (String.eqb k) (map fst items) = false ->
    dict_get k (merge_loop items default) = dict_get k default.
Proof.
  induction items as [|[k' v'] rest IH]; intros default k H; [reflexivity|].
  simpl in H. apply orb_false_elim in H. destruct H as [Hne Hrest].
  change (merge_loop ((k', v') :: rest) default)
    with (merge_loop rest (merge_step deep_merge default (k', v'))).
  rewrite (IH _ _ Hrest). now apply merge_step_other.
Qed.



Lemma broken_not_resolves (v : value) (ks : list string) :
  broken v ks -> forall w, ~ resolves v ks w.
Proof.
  induction 1 as [v k ks Hv | d k ks Hk | d k ks c Hk Hb IH]; intros w Hr;
    inversion Hr; subst; try discriminate.
  - rewrite Hk in H2. discriminate.
  - rewrite Hk in H2. injection H2 as <-. exact (IH _ H4).
Qed.

Lemma resolves_or_broken (ks : list string) :
  forall v, (exists w, resolves v ks w) \/ broken v ks.
Proof.
  induction ks as [|k ks IH]; intros v.
  - left. exists v. constructor.
  - destruct v as [| b | n | q | s | l | d];
      try (right; now apply broken_not_dict).
    destruct (dict_get k d) as [child|] eqn:Hk.
    + destruct (IH child) as [[w Hr] | Hb].
      * left. exists w. econstructor; eassumption.
      * right. eapply broken_below; eassumption.
    + right. now apply broken_absent.
Qed.

(** C10. [Config.get] is total: for every key string and every stored
    configuration it returns a value and never raises. Either every
    segment of the path is found in a mapping, and it returns the stored
    value, or a segment is absent or the value reached before it is not
    a mapping, and it returns the given default. *)
Theorem get_total (config : value) (key : string) (default : value) :
  (exists v, get config key default = Ok v) /\
  ((exists w, resolves config (PyStr.split "." key) w) \/
   broken config (PyStr.split "." key)) /\
  (forall w, resolves config (PyStr.split "." key) w ->
             get config key default = Ok w) /\
  (broken config (PyStr.split "." key) -> get config key default = Ok default).
Proof.
  unfold get. split; [|split; [apply resolves_or_broken|]];
  destruct (get_loop_spec (PyStr.split "." key) default config)
    as [[w [Hr Hg]] | [Hn Hg]].
  - now exists w.
  - now exists default.
  - split.
    + intros w' Hr'. now rewrite (resolves_functional _ _ _ _ Hr' Hr).
    + intros Hb. now elim (broken_not_resolves _ _ Hb w).
  - split.
    + intros w Hr. now elim (Hn w).
    + intros _. exact Hg.
Qed.

Lemma get_total_witness :
  get (load_default_config "k") "voice.rate" VNone = Ok (VInt 150) /\
  get (load_default_config "k") "voice.rate.unit" (VStr "wpm") = Ok (VStr "wpm") /\
  get (load_default_config "k") "voice.pitch" (VInt 7) = Ok (VInt 7).
Proof.
  split; [|split].
  - apply (proj1 (proj2 (proj2 (get_total (load_default_config "k") "voice.rate" VNone)))).
    vm_compute. eapply resolves_step; [reflexivity|].
    eapply resolves_step; [reflexivity|]. apply resolves_here.
  - apply (proj2 (proj2 (proj2 (get_total (load_default_config "k") "voice.rate.unit"
                                   (VStr "wpm"))))).
    vm_compute. eapply broken_below; [reflexivity|].
    eapply broken_below; [reflexivity|]. now apply broken_not_dict.
  - apply (proj2 (proj2 (proj2 (get_total (load_default_config "k") "voice.pitch"
                                   (VInt 7))))).
    vm_compute. eapply broken_below; [reflexivity|]. now apply broken_absent.
Defined.







End ConfigFacts.

(* ===================================================================== *)
(** ** Facts about the AI client *)
(* ===================================================================== *)

Module OpenRouterFacts.
Import Py.
Import OpenRouter.
Local Open Scope py_scope.

Section Runtime.
Variable strip : string -> string.

(** Every exception of the round trip ends in one of the three [except]
    clauses: [chat_completion] returns. *)
Lemma chat_completion_returns (http : http_outcome) (messages : list message)
  (language : string) :
  exists text, chat_completion strip http messages language = Ok text.
Proof.
  unfold chat_completion, try_except.
  destruct (chat_completion_try strip http language) as [text|e].
  - now exists text.
  - exists (_get_fallback_response language). now destruct e.
Qed.

(** When the [try] block returns although the round trip failed, it went
    through the [else] branch of the test on [choices]. *)
Lemma chat_completion_try_failed (http : http_outcome) (language text : string) :
  round_trip_fails http ->
  chat_completion_try strip http language = Ok text ->
  text = _get_fallback_response language.
Proof.
  unfold round_trip_fails, chat_completion_try.
  destruct http as [r|e]; cbn [bind]; [|discriminate].
  destruct (raise_for_status r) as [u|e]; cbn [bind]; [|discriminate].
  destruct (json r) as [body|e]; cbn [bind]; [|discriminate].
  intros Hfail.
  destruct body as [| b | n | q | s | l | d]; cbn [py_contains bind];
    try discriminate.
  - destruct (PyStr.str_in "choices" s); cbn; [discriminate|congruence].
  - destruct (existsb (is_str "choices") l); cbn; [discriminate|congruence].
  - unfold has_nonempty_choices in Hfail. unfold py_getitem.
    destruct (dict_get "choices" d) as [choices|]; cbn [bind]; [|congruence].
    destruct choices as [| b | n | q | s | l | d']; cbn; try discriminate.
    + destruct s; [cbn; congruence | discriminate].
    + destruct l; [cbn; congruence | discriminate].
    + destruct d'; [cbn; congruence | discriminate].
Qed.

Lemma chat_completion_failed (http : http_outcome) (messages : list message)
  (language : string) :
  round_trip_fails http ->
  chat_completion strip http messages language = Ok (_get_fallback_response language).
Proof.
  intros Hfail. unfold chat_completion, try_except.
  destruct (chat_completion_try strip http language) as [text|e] eqn:Htry.
  - now rewrite (chat_completion_try_failed _ _ _ Hfail Htry).
  - now destruct e.
Qed.

End Runtime.

Lemma str_dict_get_absent (d : list (string * string)) (k default : string) :
  ~ In k (map fst d) -> str_dict_get d k default = default.
Proof.
  induction d as [|[k' v] rest IH]; simpl; intros Hn; [reflexivity|].
  destruct (String.eqb k k') eqn:E.
  - apply String.eqb_eq in E. subst. tauto.
  - apply IH. tauto.
Qed.

(** C9. For every language outside the five known codes the fallback
    response is the English one. *)
Theorem fallback_defaults_to_english (language : string) :
  ~ In language supported_languages ->
  _get_fallback_response language =
  "Sorry, I'm having trouble processing your request right now. Please try again in a moment.".
Proof.
  intros Hn. unfold _get_fallback_response.
  rewrite str_dict_get_absent; [reflexivity | exact Hn].
Qed.

Lemma fallback_defaults_to_english_witness :
  ~ In "it-IT" supported_languages /\
  _get_fallback_response "it-IT" = _get_fallback_response "en-US".
Proof.
  assert (H : ~ In "it-IT" supported_languages).
  { simpl. intros [H|[H|[H|[H|[H|[]]]]]]; discriminate H. }
  split; [exact H|].
  rewrite (fallback_defaults_to_english "it-IT" H). reflexivity.
Defined.

End OpenRouterFacts.

(* ===================================================================== *)
(** ** Facts about the camera manager *)
(* ===================================================================== *)

Module CameraFacts.
Import Py.
Import Camera.

(** C5. While the camera is not active, [take_photo] raises
    [RuntimeError("Camera is not active")] before the frame is read or
    anything is written: no file is created and no file name is
    returned. *)
Theorem take_photo_inactive (cm : camera_manager) (fs : files)
  (filename : option string) (stamp : string) (wr : imwrite_outcome) :
  is_active cm = false ->
  take_photo cm fs filename stamp wr
  = (Raise (RuntimeError "Camera is not active"), fs).
Proof.
  intros Hoff. unfold take_photo. now rewrite Hoff.
Qed.

Lemma take_photo_inactive_witness :
  is_active new_CameraManager = false /\
  take_photo new_CameraManager [] (Some "shot.jpg") "20240101_120000" Written
  = (Raise (RuntimeError "Camera is not active"), []).
Proof.
  split; [reflexivity|].
  apply (take_photo_inactive new_CameraManager [] (Some "shot.jpg")
           "20240101_120000" Written).
  reflexivity.
Defined.

(** The files change only when the camera is active, holds a frame, and
    the write succeeds. *)
Lemma take_photo_writes (cm : camera_manager) (fs fs' : files)
  (filename : option string) (stamp : string) (wr : imwrite_outcome)
  (r : result string) :
  take_photo cm fs filename stamp wr = (r, fs') ->
  fs' <> fs ->
  is_active cm = true /\ current_frame cm <> None /\ wr = Written.
Proof.
  unfold take_photo, get_current_frame.
  destruct (is_active cm); cbn [negb].
  - destruct (current_frame cm).
    + destruct wr; intros H Hne; injection H as _ <-;
        try (now elim Hne); repeat split; discriminate.
    + intros H Hne. injection H as _ <-. now elim Hne.
  - intros H Hne. injection H as _ <-. now elim Hne.
Qed.

End CameraFacts.

(* ===================================================================== *)
(** ** Facts about [SpeechEngine.speak] *)
(* ===================================================================== *)

Module SpeechFacts.
Import Speech.

Lemma setting_holds_lock (p : pc) : at_setting p = true -> holds_lock p = true.
Proof. now destruct p. Qed.

Lemma synthesising_owns_flag (p : pc) :
  synthesising p = true -> owns_flag p = true.
Proof. now destruct p. Qed.

Ltac upd_cases :=
  unfold upd in *;
  repeat match goal with
         | H : context [Nat.eqb ?a ?b] |- _ => destruct (Nat.eqb_spec a b); subst
         | |- context [Nat.eqb ?a ?b] => destruct (Nat.eqb_spec a b); subst
         end.

(** What the invariant of the old state says about one thread that
    satisfies one of the two predicates, and whether that thread is the
    one that steps. *)
Ltac sat_one i L1 L2 S1 Hi :=
  match goal with
  | H : holds_lock (threads _ ?a) = true |- _ =>
      pose proof (L2 a H);
      try (assert (a = i) by (apply (L1 a i H); rewrite Hi; reflexivity));
      revert H
  | H : at_setting (threads _ ?a) = true |- _ =>
      pose proof (S1 a H);
      try (assert (a = i)
            by (apply (L1 a i (setting_holds_lock _ H)); rewrite Hi; reflexivity));
      revert H
  end.

Ltac close_inv i Hinv Hi :=
  let L1 := fresh "L1" in let L2 := fresh "L2" in let S1 := fresh "S1" in
  destruct Hinv as [L1 L2 S1];
  constructor; cbn [threads is_speaking speech_lock]; intros;
  upd_cases; cbn [holds_lock at_setting] in *;
  try discriminate; try reflexivity;
  try (pose proof (L2 i); pose proof (S1 i));
  repeat sat_one i L1 L2 S1 Hi; intros;
  rewrite ?Hi in *; cbn [holds_lock at_setting] in *;
  repeat match goal with
         | H : true = true -> _ |- _ => specialize (H eq_refl)
         end;
  try congruence; eauto.

Lemma new_lock_invariant : lock_invariant new_SpeechEngine.
Proof. constructor; simpl; intros; discriminate. Qed.

Lemma step_lock_invariant (s : engine) (i : nat) (arg : string) :
  lock_invariant s -> lock_invariant (step s i arg).
Proof.
  intros Hinv. unfold step.
  destruct (threads s i) eqn:Hi.
  - close_inv i Hinv Hi.
  - destruct (PyStr.nonempty text); close_inv i Hinv Hi.
  - destruct (speech_lock s) eqn:Hlock; [exact Hinv|].
    close_inv i Hinv Hi.
  - destruct (is_speaking s) eqn:Hsp; close_inv i Hinv Hi.
  - close_inv i Hinv Hi.
  - close_inv i Hinv Hi.
  - close_inv i Hinv Hi.
  - close_inv i Hinv Hi.
  - close_inv i Hinv Hi.
Qed.

Lemma stop_lock_invariant (s : engine) : lock_invariant s -> lock_invariant (stop s).
Proof.
  intros [L1 L2 S1]. constructor; cbn [stop threads is_speaking speech_lock]; auto.
Qed.

Lemma run_events_lock_invariant (es : list event) :
  forall s, lock_invariant s -> lock_invariant (run_events es s).
Proof.
  induction es as [|[i arg|] rest IH]; intros s Hinv; [exact Hinv| |]; apply IH.
  - now apply step_lock_invariant.
  - now apply stop_lock_invariant.
Qed.

Lemma reachable_lock_invariant (s : engine) : reachable s -> lock_invariant s.
Proof.
  intros [es <-]. apply run_events_lock_invariant, new_lock_invariant.
Qed.

(** *** How many threads own the flag *)

Lemma threads_step_other (s : engine) (i j : nat) (arg : string) :
  j <> i -> threads (step s i arg) j = threads s j.
Proof.
  intros Hne. unfold step.
  destruct (threads s i); try destruct (speech_lock s);
    cbn [threads]; unfold upd;
    try (apply Nat.eqb_neq in Hne; rewrite Hne); reflexivity.
Qed.

(** A thread whose step neither takes nor gives up the flag leaves the
    owners as they were. *)
Lemma owners_same (s s' : engine) (k : nat) :
  (forall j, owns_flag (threads s' j) = owns_flag (threads s j)) ->
  is_speaking s' = is_speaking s ->
  owners_bound s k -> owners_bound s' k.
Proof.
  unfold owners_bound. intros Hown Hflag Hb l Hnd Hl. rewrite Hflag.
  apply Hb; [exact Hnd|]. intros j Hj. rewrite <- Hown. now apply Hl.
Qed.

(** A thread that takes the flag finds it clear. *)
Lemma owners_gain (s s' : engine) (i k : nat) :
  (forall j, j <> i -> threads s' j = threads s j) ->
  is_speaking s = false ->
  is_speaking s' = true ->
  owners_bound s k -> owners_bound s' k.
Proof.
  unfold owners_bound. intros Hother Hclear Hset Hb l Hnd Hl. rewrite Hset.
  rewrite Hclear in Hb. cbn [Nat.add] in Hb.
  destruct (in_dec Nat.eq_dec i l) as [Hin | Hout].
  - destruct (in_split _ _ Hin) as [l1 [l2 ->]].
    pose proof (NoDup_remove_1 _ _ _ Hnd) as Hnd'.
    pose proof (NoDup_remove_2 _ _ _ Hnd) as Hfresh.
    assert (Hlen : (List.length (l1 ++ l2) <= k)%nat).
    { apply Hb; [exact Hnd'|].
      intros j Hj. rewrite <- Hother.
      - apply Hl. apply in_app_or in Hj. apply in_or_app.
        destruct Hj; [now left | right; now right].
      - intros ->. contradiction. }
    rewrite length_app in *. cbn [List.length]. lia.
  - assert (Hlen : (List.length l <= k)%nat).
    { apply Hb; [exact Hnd|]. intros j Hj. rewrite <- Hother.
      - now apply Hl.
      - intros ->. contradiction. }
    lia.
Qed.

(** A thread that gives up the flag clears it. *)
Lemma owners_loss (s s' : engine) (i k : nat) :
  (forall j, j <> i -> threads s' j = threads s j) ->
  owns_flag (threads s i) = true ->
  owns_flag (threads s' i) = false ->
  owners_bound s k -> owners_bound s' k.
Proof.
  unfold owners_bound. intros Hother Hold Hnew Hb l Hnd Hl.
  assert (Hout : ~ In i l).
  { intros Hin. specialize (Hl i Hin). congruence. }
  assert (Hlen : (List.length (i :: l) <= (if is_speaking s then 1 else 0) + k)%nat).
  { apply Hb; [now constructor|].
    intros j [<- | Hj]; [exact Hold|].
    rewrite <- Hother; [now apply Hl|]. intros ->. contradiction. }
  cbn [List.length] in Hlen. destruct (is_speaking s), (is_speaking s'); lia.
Qed.

Lemma step_owners_bound (s : engine) (i k : nat) (arg : string) :
  lock_invariant s -> owners_bound s k -> owners_bound (step s i arg) k.
Proof.
  intros Hinv Hb.
  pose proof (threads_step_other s i) as Hother.
  assert (Hsame : forall p,
             owns_flag p = owns_flag (threads s i) ->
             forall j, owns_flag (upd (threads s) i p j) = owns_flag (threads s j)).
  { intros p Hp j. unfold upd. destruct (Nat.eqb_spec j i); [now subst|reflexivity]. }
  unfold step in *. destruct (threads s i) eqn:Hi.
  - eapply owners_same; [| |exact Hb]; [apply Hsame|]; reflexivity.
  - eapply owners_same; [| |exact Hb]; [apply Hsame|]; [|reflexivity].
    now destruct (PyStr.nonempty text).
  - destruct (speech_lock s); [exact Hb|].
    eapply owners_same; [| |exact Hb]; [apply Hsame|]; reflexivity.
  - eapply owners_same; [| |exact Hb]; [apply Hsame|]; [|reflexivity].
    now destruct (is_speaking s).
  - eapply (owners_gain s _ i); [intros j Hj; exact (Hother j arg Hj)| |reflexivity|exact Hb].
    apply (inv_setting s Hinv i). now rewrite Hi.
  - eapply owners_same; [| |exact Hb]; [apply Hsame|]; reflexivity.
  - eapply owners_same; [| |exact Hb]; [apply Hsame|]; reflexivity.
  - eapply owners_same; [| |exact Hb]; [apply Hsame|]; reflexivity.
  - eapply (owners_loss s _ i); [intros j Hj; exact (Hother j arg Hj)| | |exact Hb].
    + now rewrite Hi.
    + cbn [threads]. unfold upd. now rewrite Nat.eqb_refl.
Qed.

(** [stop] on a set flag leaves its owners without it. *)
Lemma stop_owners_bound (s : engine) (k : nat) :
  owners_bound s k ->
  owners_bound (stop s) ((if is_speaking s then 1 else 0) + k).
Proof.
  unfold owners_bound. intros Hb l Hnd Hl. cbn [stop is_speaking threads] in *.
  specialize (Hb l Hnd Hl). lia.
Qed.

Lemma run_events_owners_bound (es : list event) :
  forall s k,
    lock_invariant s -> owners_bound s k ->
    owners_bound (run_events es s) (k + stops_while_speaking es s).
Proof.
  induction es as [|e rest IH]; intros s k Hinv Hb.
  - cbn. now rewrite Nat.add_0_r.
  - cbn [run_events fold_left stops_while_speaking].
    fold (run_events rest (perform s e)).
    destruct e as [i arg|]; cbn [perform] in *.
    + cbn [Nat.add]. apply IH;
        [now apply step_lock_invariant | now apply step_owners_bound].
    + rewrite Nat.add_assoc,
        (Nat.add_comm k (if is_speaking s then 1 else 0)%nat).
      apply IH; [now apply stop_lock_invariant | now apply stop_owners_bound].
Qed.

Lemma new_owners_bound : owners_bound new_SpeechEngine 0.
Proof.
  intros [|i l] _ Hl; [cbn; lia|].
  specialize (Hl i (or_introl eq_refl)). discriminate.
Qed.

(** C7, as the code has it. A call of [SpeechEngine.speak] that finds
    [is_speaking] set at the guarded test goes to the [return] inside
    the [with] block and from there out of [speak], releasing the lock
    and leaving the flag as it is: it never reaches the synthesis. In
    every state that calls of [speak] and of [stop] can reach, the test
    and the assignment of [is_speaking] are made by the one thread that
    holds the lock. [stop] clears the flag without the lock, while a
    call may still be in its synthesis: the threads that synthesise at
    the same time are never more than one plus the calls of [stop] that
    found the flag set, so that without such a call two calls of
    [speak] never produce audio at the same time. *)
Theorem speak_never_overlaps :
  (forall s i text arg,
      threads s i = InLock text -> is_speaking s = true ->
      threads (step s i arg) i = Dropping /\
      is_speaking (step s i arg) = true /\
      speech_lock (step s i arg) = speech_lock s) /\
  (forall s i arg,
      threads s i = Dropping ->
      threads (step s i arg) i = Idle /\
      is_speaking (step s i arg) = is_speaking s /\
      speech_lock (step s i arg) = false) /\
  (forall s i,
      reachable s ->
      (exists text, threads s i = InLock text \/ threads s i = Setting text) ->
      speech_lock s = true /\
      forall j, holds_lock (threads s j) = true -> j = i) /\
  (forall es n,
      (List.length (synthesising_threads (run_events es new_SpeechEngine) n)
       <= 1 + stops_while_speaking es new_SpeechEngine)%nat) /\
  (forall es i j,
      stops_while_speaking es new_SpeechEngine = 0%nat ->
      synthesising (threads (run_events es new_SpeechEngine) i) = true ->
      synthesising (threads (run_events es new_SpeechEngine) j) = true ->
      i = j).
Proof.
  assert (Hbound : forall es,
             owners_bound (run_events es new_SpeechEngine)
               (stops_while_speaking es new_SpeechEngine)).
  { intros es.
    apply (run_events_owners_bound es new_SpeechEngine 0
             new_lock_invariant new_owners_bound). }
  repeat split.
  - unfold step. rewrite H. cbn. unfold upd. now rewrite Nat.eqb_refl, H0.
  - unfold step. rewrite H. cbn. exact H0.
  - unfold step. now rewrite H.
  - unfold step. rewrite H. cbn. unfold upd. now rewrite Nat.eqb_refl.
  - unfold step. now rewrite H.
  - unfold step. now rewrite H.
  - destruct H0 as [text [Hi | Hi]];
      apply (inv_lock_held s (reachable_lock_invariant s H) i); now rewrite Hi.
  - intros j Hj. apply (inv_lock_unique s (reachable_lock_invariant s H)); [exact Hj|].
    destruct H0 as [text [Hi | Hi]]; now rewrite Hi.
  - intros es n. unfold synthesising_threads.
    assert (Hlen := Hbound es
              (filter (fun i => synthesising (threads (run_events es new_SpeechEngine) i))
                      (seq 0 n))
              (NoDup_filter _ (seq_NoDup n 0))).
    assert (Hall : forall i,
               In i (filter (fun i => synthesising
                                        (threads (run_events es new_SpeechEngine) i))
                            (seq 0 n)) ->
               owns_flag (threads (run_events es new_SpeechEngine) i) = true).
    { intros i Hi. apply filter_In in Hi. now apply synthesising_owns_flag. }
    specialize (Hlen Hall).
    destruct (is_speaking (run_events es new_SpeechEngine)); lia.
  - intros es i j Hquiet Hi Hj.
    destruct (Nat.eq_dec i j) as [Heq | Hne]; [exact Heq | exfalso].
    assert (Hnd : NoDup [i; j]).
    { constructor; [intros [H | []]; now apply Hne | constructor; [intros []|constructor]]. }
    pose proof (Hbound es [i; j] Hnd) as Hlen.
    rewrite Hquiet in Hlen. cbn [List.length] in Hlen.
    assert (Hall : forall t, In t [i; j] ->
                   owns_flag (threads (run_events es new_SpeechEngine) t) = true).
    { intros t [<- | [<- | []]]; now apply synthesising_owns_flag. }
    specialize (Hlen Hall).
    destruct (is_speaking (run_events es new_SpeechEngine)); lia.
Qed.

Lemma speak_never_overlaps_witness :
  let s := run second_call_at_test new_SpeechEngine in
  (threads s 1 = InLock "second" /\ is_speaking s = true) /\
  synthesising (threads s 0) = true /\
  threads (step s 1 "x") 1 = Dropping /\
  threads (step (step s 1 "x") 1 "y") 1 = Idle /\
  synthesising (threads (step (step s 1 "x") 1 "y") 0) = true /\
  speech_lock (step (step s 1 "x") 1 "y") = false.
Proof.
  destruct speak_never_overlaps as [Hdrop [Hout _]].
  set (s := run second_call_at_test new_SpeechEngine).
  assert (H1 : threads s 1 = InLock "second") by reflexivity.
  assert (H2 : is_speaking s = true) by reflexivity.
  split; [split; [exact H1 | exact H2]|].
  split; [reflexivity|].
  destruct (Hdrop s 1 "second" "x" H1 H2) as [Hd _].
  split; [exact Hd|].
  destruct (Hout (step s 1 "x") 1 "y" Hd) as [Hidle [_ Hlock]].
  split; [exact Hidle|]. split; [reflexivity | exact Hlock].
Defined.

(** C7 as stated fails once [stop] is called while a call of [speak] is
    in its synthesis: the flag is cleared, a second call passes the
    guarded test, and both calls are in the synthesis together. *)
Lemma speak_overlaps_after_stop :
  let before := run_events (repeat (Runs 0 "first") 6) new_SpeechEngine in
  let after := run_events second_call_after_stop new_SpeechEngine in
  synthesising (threads before 0) = true /\ is_speaking before = true /\
  threads before 1 = Idle /\
  stops_while_speaking second_call_after_stop new_SpeechEngine = 1%nat /\
  synthesising (threads after 0) = true /\
  synthesising (threads after 1) = true /\
  synthesising_threads after 2 = [0; 1]%nat.
Proof. repeat split. Qed.

End SpeechFacts.

(* ===================================================================== *)
(** ** Facts about the coordinator *)
(* ===================================================================== *)

Module CoreFacts.
Import Py.
Import PyStr.
Import Core.

Section Runtime.
Variable lower : string -> string.
Variable strip : string -> string.

Lemma preserved_refl s : preserved s s.
Proof.
  constructor; try reflexivity. exists []. split; reflexivity.
Qed.

Ltac atoms :=
  repeat match goal with
         | |- context [str_in ?a ?b] =>
             let E := fresh "E" in
             destruct (str_in a b) eqn:E;
             cbn [orb andb negb existsb any_in]
         end.

Lemma preserved_language (l : string) (s : jarvis) :
  preserved s (set_current_language l s).
Proof.
  constructor; try reflexivity. exists []. split; reflexivity.
Qed.

Lemma preserved_emit (e : event) (s : jarvis) :
  controller_event e = true ->
  preserved s (set_trace ((e, get_status s) :: trace s) s).
Proof.
  intros He. constructor; try reflexivity.
  exists [e]. split; [simpl; now rewrite He|reflexivity].
Qed.

Lemma preserved_camera (cm : Camera.camera_manager) (fs : Camera.files) (s : jarvis) :
  preserved s (set_camera cm fs s).
Proof.
  constructor; try reflexivity. exists []. split; reflexivity.
Qed.

Ltac returns_some :=
  do 2 eexists; split; [reflexivity | split; [reflexivity|]].

Lemma language_commands_spec (cl : string) (s : jarvis) :
  if language_phrase cl then
    exists r s', language_commands cl s = (Ok (Some r), s') /\
                 nonempty r = true /\ preserved s s'
  else language_commands cl s = (Ok None, s).
Proof.
  unfold language_commands, language_phrase, any_in. cbn [existsb].
  atoms; try reflexivity; returns_some; apply preserved_language.
Qed.

Lemma volume_commands_spec (cl : string) (s : jarvis) :
  if volume_phrase cl then
    exists r s', volume_commands cl s = (Ok (Some r), s') /\
                 nonempty r = true /\ preserved s s'
  else volume_commands cl s = language_commands cl s.
Proof.
  unfold volume_commands, volume_phrase, any_in. cbn [existsb].
  atoms; try reflexivity; returns_some; now apply preserved_emit.
Qed.


Lemma camera_commands_spec (w : world) (command : string) (s : jarvis) :
  if camera_phrase (lower command) then
    (exists r s', _handle_system_commands lower w command s = (Ok (Some r), s') /\
                  nonempty r = true /\ preserved s s') \/
    (exists e s', _handle_system_commands lower w command s = (Raise e, s') /\
                  photo_raises w s e /\ preserved s s')
  else _handle_system_commands lower w command s = volume_commands (lower command) s.
Proof.
  unfold _handle_system_commands, camera_phrase, any_in. cbn [existsb].
  set (cl := lower command).
  atoms; try reflexivity.
  all: unfold mbind, camera_start_camera, camera_stop_camera, camera_take_photo,
         modify, ret, photo_raises.
  all: try (left; destruct (Camera.start_camera (camera_manager s) (device w));
            returns_some; apply preserved_camera).
  all: destruct (Camera.take_photo (camera_manager s) (files s) None
                   (photo_stamp w) (imwrite w)) as [[name|e] fs] eqn:Hp;
       [left; returns_some | right; do 2 eexists; split; [reflexivity|split;[reflexivity|]]];
       apply preserved_camera.
Qed.

Lemma handle_cases (w : world) (command : string) (s : jarvis) :
  (system_command_phrase (lower command) = false /\
   _handle_system_commands lower w command s = (Ok None, s)) \/
  (system_command_phrase (lower command) = true /\
   exists s', preserved s s' /\
     ((exists r, nonempty r = true /\
                 _handle_system_commands lower w command s = (Ok (Some r), s')) \/
      (exists e, photo_raises w s e /\
                 _handle_system_commands lower w command s = (Raise e, s')))).
Proof.
  unfold system_command_phrase.
  pose proof (camera_commands_spec w command s) as Hc.
  pose proof (volume_commands_spec (lower command) s) as Hv.
  pose proof (language_commands_spec (lower command) s) as Hl.
  destruct (camera_phrase (lower command)); cbn [orb].
  - right. split; [reflexivity|].
    destruct Hc as [[r [s' [H [Hr Hp]]]] | [e [s' [H [He Hp]]]]]; exists s'; eauto 10.
  - rewrite Hc. destruct (volume_phrase (lower command)); cbn [orb].
    + right. split; [reflexivity|].
      destruct Hv as [r [s' [H [Hr Hp]]]]. exists s'; eauto 10.
    + rewrite Hv. destruct (language_phrase (lower command)).
      * right. split; [reflexivity|].
        destruct Hl as [r [s' [H [Hr Hp]]]]. exists s'; eauto 10.
      * now left.
Qed.

Lemma speak_said (w : world) (text : string) (language : option string) (s : jarvis) :
  speak w text language s = (Ok tt, said w text language s).
Proof.
  destruct text as [|ch r]; [reflexivity|].
  unfold speak, said, speak_effects. cbn [nonempty negb].
  unfold mbind, read, modify, _trigger_callback, emit, try_finally, try_except, ret, raise.
  cbn. destruct (engine_speak w); reflexivity.
Qed.

Lemma process_with_ai_spec (w : world) (text language : string) (s : jarvis) :
  if ai_client s then
    exists response,
      OpenRouter.chat_completion strip (http w) (ai_messages s text language) language
      = Ok response /\
      _process_with_ai strip w text language s =
      (Ok response,
       set_trace ((ChatCompletion (ai_messages s text language) language, get_status s)
                  :: trace s) s)
  else
    _process_with_ai strip w text language s =
    (Ok "Sistema de IA não configurado. Verifique sua chave de API.", s).
Proof.
  destruct (ai_client s) eqn:Hai.
  - destruct (OpenRouterFacts.chat_completion_returns strip (http w)
                (ai_messages s text language) language) as [response H].
    exists response. split; [exact H|].
    unfold _process_with_ai, try_except, mbind, read, emit, modify.
    rewrite Hai. cbn [negb].
    change (_build_context s language ++
            [{| OpenRouter.role := "user"; OpenRouter.content := text |}])%list
      with (ai_messages s text language).
    rewrite H. reflexivity.
  - unfold _process_with_ai, mbind, read. rewrite Hai. reflexivity.
Qed.

Lemma process_command_try_unfold (w : world) (c : command_data) (s : jarvis) :
  process_command_try lower strip w c s =
  mbind (_handle_system_commands lower w (command_text c))
    (fun system_response =>
       mbind (match system_response with
              | Some (String ch r) => ret (String ch r)
              | _ => _process_with_ai strip w (command_text c) (command_language c s)
              end)
         (fun response =>
            mbind (append_turn (assistant_turn w c s response))
              (fun _ =>
                 mbind (speak w response (Some (command_language c s)))
                   (fun _ =>
                      mbind (_trigger_callback "on_command" (PCommand c))
                        (fun _ =>
                           _trigger_callback "on_response"
                             (PResponse response (command_language c s)))))))
    (at_dispatch w c s).
Proof. reflexivity. Qed.

Lemma respond_replied (w : world) (c : command_data) (t : turn)
  (language response : string) (s : jarvis) :
  mbind (append_turn t)
    (fun _ =>
       mbind (speak w response (Some language))
         (fun _ =>
            mbind (_trigger_callback "on_command" (PCommand c))
              (fun _ => _trigger_callback "on_response" (PResponse response language))))
    s
  = (Ok tt, replied w c t language response s).
Proof.
  unfold mbind at 1. unfold append_turn at 1. unfold modify at 1.
  unfold mbind at 1. rewrite speak_said. reflexivity.
Qed.

Lemma except_failed (w : world) (e : exn) (s : jarvis) :
  process_command_except w e s = (Ok tt, failed w e s).
Proof.
  unfold process_command_except.
  unfold mbind at 1. unfold emit at 1. unfold modify at 1.
  unfold mbind at 1. rewrite speak_said. reflexivity.
Qed.

(** [_process_command] written out along the three ways through it. *)
Lemma process_command_cases (w : world) (c : command_data) (s : jarvis) :
  _process_command lower strip w c s =
  match _handle_system_commands lower w (command_text c) (at_dispatch w c s) with
  | (Ok (Some (String ch r)), s2) =>
      (Ok tt, finished (replied w c (assistant_turn w c s (String ch r))
                          (command_language c s) (String ch r) s2))
  | (Ok _, s2) =>
      match _process_with_ai strip w (command_text c) (command_language c s) s2 with
      | (Ok response, s3) =>
          (Ok tt, finished (replied w c (assistant_turn w c s response)
                              (command_language c s) response s3))
      | (Raise e, s3) => (Ok tt, finished (failed w e s3))
      end
  | (Raise e, s2) => (Ok tt, finished (failed w e s2))
  end.
Proof.
  unfold _process_command, try_finally, try_except.
  rewrite process_command_try_unfold. unfold mbind at 1.
  destruct (_handle_system_commands lower w (command_text c) (at_dispatch w c s))
    as [[[[|ch r]|]|e] s2].
  - unfold mbind at 1.
    destruct (_process_with_ai strip w (command_text c) (command_language c s) s2)
      as [[response|e] s3].
    + rewrite respond_replied. reflexivity.
    + rewrite except_failed. reflexivity.
  - unfold mbind at 1. unfold ret at 1. rewrite respond_replied. reflexivity.
  - unfold mbind at 1.
    destruct (_process_with_ai strip w (command_text c) (command_language c s) s2)
      as [[response|e] s3].
    + rewrite respond_replied. reflexivity.
    + rewrite except_failed. reflexivity.
  - rewrite except_failed. reflexivity.
Qed.



Lemma process_command_outcome (w : world) (c : command_data) (s : jarvis) :
  exists s', _process_command lower strip w c s = (Ok tt, s') /\
             outcome lower strip w c s s'.
Proof.
  rewrite process_command_cases.
  pose proof (process_command_try_unfold w c s) as Htry.
  unfold mbind at 1 in Htry.
  destruct (handle_cases w (command_text c) (at_dispatch w c s))
    as [[Hph Hh] | [Hph [s2 [Hpres [[r [Hr Hh]] | [e [He Hh]]]]]]];
    rewrite Hh in *.
  - pose proof (process_with_ai_spec w (command_text c) (command_language c s)
                  (at_dispatch w c s)) as Hai.
    change (ai_client (at_dispatch w c s)) with (ai_client s) in Hai.
    destruct (ai_client s) eqn:Hclient.
    + destruct Hai as [response [Hchat Hrun]]. rewrite Hrun.
      eexists. split; [reflexivity|]. now apply outcome_ai.
    + rewrite Hai. eexists. split; [reflexivity|]. now apply outcome_no_client.
  - destruct r as [|ch r]; [discriminate|].
    eexists. split; [reflexivity|]. now apply outcome_system.
  - eexists. split; [reflexivity|].
    apply outcome_raised; assumption.
Qed.

(** *** The trace of each outcome *)

Lemma effects_intro (s s' : jarvis) (L : list (event * flags)) :
  trace s' = (L ++ trace s)%list -> effects s s' = L.
Proof.
  intros H. unfold effects. rewrite H, length_app.
  replace (List.length L + List.length (trace s) - List.length (trace s))%nat
    with (List.length L) by lia.
  rewrite firstn_app, Nat.sub_diag, firstn_all. simpl. apply app_nil_r.
Qed.

Lemma trace_dispatch (w : world) (c : command_data) (s : jarvis) :
  trace (at_dispatch w c s) = (dispatch_effects w c s ++ trace s)%list.
Proof. reflexivity. Qed.

Lemma trace_with_chat (w : world) (c : command_data) (s : jarvis)
  (messages : list OpenRouter.message) (language : string) :
  trace (with_chat messages language (at_dispatch w c s))
  = (((ChatCompletion messages language, get_status (at_dispatch w c s))
      :: dispatch_effects w c s) ++ trace s)%list.
Proof. reflexivity. Qed.

Lemma trace_replied (w : world) (c : command_data) (t : turn)
  (language response : string) (s : jarvis) :
  trace (finished (replied w c t language response s))
  = (reply_effects w c language response s ++ trace s)%list.
Proof. destruct response; reflexivity. Qed.

Lemma trace_failed (w : world) (e : exn) (s : jarvis) :
  trace (finished (failed w e s)) = (failure_effects w e s ++ trace s)%list.
Proof.
  unfold failure_effects, finished, failed, said, error_msg, speak_effects.
  cbn. destruct (engine_speak w); reflexivity.
Qed.

Lemma chat_calls_app (a b : list (event * flags)) :
  chat_calls (a ++ b) = (chat_calls a ++ chat_calls b)%list.
Proof. apply flat_map_app. Qed.

Lemma spoken_app (a b : list (event * flags)) :
  spoken (a ++ b) = (spoken a ++ spoken b)%list.
Proof. apply flat_map_app. Qed.

Lemma chat_calls_stamp (f : flags) (evs : list event) :
  forallb controller_event evs = true -> chat_calls (stamp f evs) = [].
Proof.
  induction evs as [|e evs IH]; [reflexivity|].
  simpl. intros H. apply andb_prop in H. destruct H as [He Hevs].
  destruct e; try discriminate; exact (IH Hevs).
Qed.

Lemma spoken_stamp (f : flags) (evs : list event) :
  forallb controller_event evs = true -> spoken (stamp f evs) = [].
Proof.
  induction evs as [|e evs IH]; [reflexivity|].
  simpl. intros H. apply andb_prop in H. destruct H as [He Hevs].
  destruct e; try discriminate; exact (IH Hevs).
Qed.

Lemma chat_calls_reply (w : world) (c : command_data)
  (language response : string) (s : jarvis) :
  chat_calls (reply_effects w c language response s) = [].
Proof.
  unfold reply_effects, said_effects, speak_effects.
  destruct response; [reflexivity|]. cbn. destruct (engine_speak w); reflexivity.
Qed.

Lemma spoken_reply (w : world) (c : command_data)
  (language response : string) (s : jarvis) :
  spoken (reply_effects w c language response s)
  = match response with
    | EmptyString => []
    | String _ _ => [(response, or_default (Some language) (current_language s))]
    end.
Proof.
  unfold reply_effects, said_effects, speak_effects.
  destruct response; [reflexivity|]. cbn. destruct (engine_speak w); reflexivity.
Qed.

Lemma chat_calls_failure (w : world) (e : exn) (s : jarvis) :
  chat_calls (failure_effects w e s) = [].
Proof.
  unfold failure_effects, speak_effects. cbn. destruct (engine_speak w); reflexivity.
Qed.

Lemma spoken_failure (w : world) (e : exn) (s : jarvis) :
  spoken (failure_effects w e s) = [(error_msg, current_language s)].
Proof.
  unfold failure_effects, speak_effects. cbn. destruct (engine_speak w); reflexivity.
Qed.

(** The trace, the history and the language when one outcome ends. *)
Lemma outcome_system_effects (w : world) (c : command_data) (s s2 : jarvis)
  (r : string) :
  preserved (at_dispatch w c s) s2 ->
  exists evs,
    forallb controller_event evs = true /\
    effects s (finished (replied w c (assistant_turn w c s r)
                           (command_language c s) r s2))
    = (reply_effects w c (command_language c s) r s2
       ++ stamp (get_status (at_dispatch w c s)) evs
       ++ dispatch_effects w c s)%list.
Proof.
  intros [_ _ _ _ [evs [Hevs Htrace]]]. exists evs. split; [exact Hevs|].
  apply effects_intro. rewrite trace_replied, Htrace.
  rewrite trace_dispatch. now rewrite <- !app_assoc.
Qed.

Lemma outcome_raised_effects (w : world) (c : command_data) (s s2 : jarvis)
  (e : exn) :
  preserved (at_dispatch w c s) s2 ->
  exists evs,
    forallb controller_event evs = true /\
    effects s (finished (failed w e s2))
    = (failure_effects w e s2
       ++ stamp (get_status (at_dispatch w c s)) evs
       ++ dispatch_effects w c s)%list.
Proof.
  intros [_ _ _ _ [evs [Hevs Htrace]]]. exists evs. split; [exact Hevs|].
  apply effects_intro. rewrite trace_failed, Htrace.
  rewrite trace_dispatch. now rewrite <- !app_assoc.
Qed.

Lemma outcome_reply_effects (w : world) (c : command_data) (s s3 : jarvis)
  (t : turn) (response : string) (L : list (event * flags)) :
  trace s3 = (L ++ trace s)%list ->
  effects s (finished (replied w c t (command_language c s) response s3))
  = (reply_effects w c (command_language c s) response s3 ++ L)%list.
Proof.
  intros Htrace. apply effects_intro. rewrite trace_replied, Htrace.
  now rewrite app_assoc.
Qed.

Lemma history_replied (w : world) (c : command_data) (t : turn)
  (language response : string) (s : jarvis) :
  conversation_history (finished (replied w c t language response s))
  = (conversation_history s ++ [t])%list.
Proof. destruct response; reflexivity. Qed.

Lemma history_failed (w : world) (e : exn) (s : jarvis) :
  conversation_history (finished (failed w e s)) = conversation_history s.
Proof. reflexivity. Qed.

(** The calls of the AI client and the texts spoken, outcome by
    outcome. *)
Lemma outcome_chat_calls (w : world) (c : command_data) (s s' : jarvis) :
  outcome lower strip w c s s' ->
  chat_calls (effects s s') = [] \/
  (system_command_phrase (lower (command_text c)) = false /\
   ai_client s = true /\
   chat_calls (effects s s')
   = [(ai_messages (at_dispatch w c s) (command_text c) (command_language c s),
       command_language c s)]).
Proof.
  intros [r s2 Hph Hh Hr Hpres | e s2 Hph Hh Htry He Hpres | Hph Hh Hai
          | response Hph Hh Hai Hchat].
  - left. destruct (outcome_system_effects w c s s2 r Hpres) as [evs [Hevs ->]].
    now rewrite !chat_calls_app, chat_calls_reply, chat_calls_stamp.
  - left. destruct (outcome_raised_effects w c s s2 e Hpres) as [evs [Hevs ->]].
    now rewrite !chat_calls_app, chat_calls_failure, chat_calls_stamp.
  - left. rewrite (outcome_reply_effects w c s _ _ _ _ (trace_dispatch w c s)).
    now rewrite chat_calls_app, chat_calls_reply.
  - right. split; [exact Hph|]. split; [exact Hai|].
    rewrite (outcome_reply_effects w c s _ _ _ _ (trace_with_chat w c s _ _)).
    now rewrite chat_calls_app, chat_calls_reply.
Qed.

Lemma outcome_spoken (w : world) (c : command_data) (s s' : jarvis) :
  outcome lower strip w c s s' ->
  match _handle_system_commands lower w (command_text c) (at_dispatch w c s) with
  | (Ok (Some r), _) => map fst (spoken (effects s s')) = [r]
  | (Raise e, _) => map fst (spoken (effects s s')) = [error_msg]
  | (Ok None, _) => True
  end.
Proof.
  intros [r s2 Hph Hh Hr Hpres | e s2 Hph Hh Htry He Hpres | Hph Hh Hai
          | response Hph Hh Hai Hchat]; rewrite Hh; [| |exact I|exact I].
  - destruct (outcome_system_effects w c s s2 r Hpres) as [evs [Hevs ->]].
    rewrite !spoken_app, spoken_reply, spoken_stamp by exact Hevs.
    destruct r; [discriminate|reflexivity].
  - destruct (outcome_raised_effects w c s s2 e Hpres) as [evs [Hevs ->]].
    now rewrite !spoken_app, spoken_failure, spoken_stamp.
Qed.

(** *** The window on the history *)






(** *** System commands and the AI path *)

(** C3, as the code has it. For every command text that matches a known
    system-command phrase, [_process_command] never calls the AI client.
    [_handle_system_commands] then either returns a non-empty response,
    which is the text spoken, or (in the photo block only) lets the
    exception of [take_photo] through, and the generic error text is
    spoken instead. The AI client is called only when
    [_handle_system_commands] has returned [None]. *)
Theorem system_command_short_circuits (w : world) (c : command_data) (s : jarvis) :
  let s1 := at_dispatch w c s in
  let s' := snd (_process_command lower strip w c s) in
  (system_command_phrase (lower (command_text c)) = true ->
   chat_calls (effects s s') = [] /\
   ((exists r s2,
        _handle_system_commands lower w (command_text c) s1 = (Ok (Some r), s2) /\
        nonempty r = true /\
        map fst (spoken (effects s s')) = [r]) \/
    (exists e s2,
        _handle_system_commands lower w (command_text c) s1 = (Raise e, s2) /\
        photo_raises w s e /\
        map fst (spoken (effects s s')) = [error_msg]))) /\
  (chat_calls (effects s s') <> [] ->
   _handle_system_commands lower w (command_text c) s1 = (Ok None, s1)).
Proof.
  intros s1 s'. subst s1 s'.
  destruct (process_command_outcome w c s) as [s' [Hrun Hout]].
  rewrite Hrun. cbn [snd].
  pose proof (outcome_chat_calls w c s s' Hout) as Hcalls.
  pose proof (outcome_spoken w c s s' Hout) as Hspoken.
  split.
  - intros Hph.
    split; [destruct Hcalls as [H | [H _]]; [exact H | congruence]|].
    destruct Hout as [r s2 _ Hh Hr Hpres | e s2 _ Hh Htry He Hpres | Hph' Hh Hai
                     | response Hph' Hh Hai Hchat]; try congruence;
      rewrite Hh in Hspoken.
    + left. exists r, s2. auto.
    + right. exists e, s2. auto.
  - intros Hne. destruct Hcalls as [H | [Hph _]]; [contradiction|].
    destruct Hout as [r s2 Hph' _ _ _ | e s2 Hph' _ _ _ _ | _ Hh _ | response _ Hh _ _];
      congruence.
Qed.

(** *** A failing AI client *)

Lemma fallback_nonempty (language : string) :
  nonempty (OpenRouter._get_fallback_response language) = true.
Proof.
  unfold OpenRouter._get_fallback_response. simpl.
  repeat match goal with
         | |- context [String.eqb ?a ?b] => destruct (String.eqb a b)
         end; reflexivity.
Qed.

Lemma count_role_app (r : string) (a b : list turn) :
  count_role r (a ++ b) = (count_role r a + count_role r b)%nat.
Proof. unfold count_role. now rewrite filter_app, length_app. Qed.

(** C4. Whenever the HTTP round trip raises, answers with an error
    status, does not decode, or carries no non-empty [choices],
    [chat_completion] returns the fallback text of the language; for each
    of the five supported languages that is the entry of the table for
    it. Processing such a command appends the user turn and exactly one
    assistant turn, which holds the fallback text, and that text is what
    is spoken. *)
Theorem ai_failure_falls_back :
  (forall http messages language,
      OpenRouter.round_trip_fails http ->
      OpenRouter.chat_completion strip http messages language
      = Ok (OpenRouter._get_fallback_response language)) /\
  (forall language,
      In language OpenRouter.supported_languages ->
      In (language, OpenRouter._get_fallback_response language)
         OpenRouter.fallback_responses) /\
  (forall w c s,
      system_command_phrase (lower (command_text c)) = false ->
      ai_client s = true ->
      OpenRouter.round_trip_fails (http w) ->
      let s' := snd (_process_command lower strip w c s) in
      let reply := OpenRouter._get_fallback_response (command_language c s) in
      conversation_history s'
      = (conversation_history s ++ [user_turn w c s; assistant_turn w c s reply])%list /\
      count_role "assistant" (conversation_history s')
      = S (count_role "assistant" (conversation_history s)) /\
      map fst (spoken (effects s s')) = [reply]).
Proof.
  split; [|split].
  - intros http messages language Hfail.
    now apply OpenRouterFacts.chat_completion_failed.
  - intros language Hin. simpl in Hin.
    destruct Hin as [<- | [<- | [<- | [<- | [<- | []]]]]]; simpl; auto 10.
  - intros w c s Hph Hai Hfail s' reply. subst s' reply.
    destruct (process_command_outcome w c s) as [s' [Hrun Hout]].
    rewrite Hrun. cbn [snd].
    destruct Hout as [r s2 Hph' _ _ _ | e s2 Hph' _ _ _ _ | _ _ Hai'
                     | response _ Hh _ Hchat]; try congruence.
    rewrite (OpenRouterFacts.chat_completion_failed strip _ _ _ Hfail) in Hchat.
    injection Hchat as <-.
    assert (Hhist :
      conversation_history
        (finished
           (replied w c
              (assistant_turn w c s
                 (OpenRouter._get_fallback_response (command_language c s)))
              (command_language c s)
              (OpenRouter._get_fallback_response (command_language c s))
              (with_chat
                 (ai_messages (at_dispatch w c s) (command_text c) (command_language c s))
                 (command_language c s) (at_dispatch w c s))))
      = (conversation_history s
         ++ [user_turn w c s;
             assistant_turn w c s
               (OpenRouter._get_fallback_response (command_language c s))])%list).
    { rewrite history_replied. cbn. now rewrite <- app_assoc. }
    split; [exact Hhist|]. split.
    + rewrite Hhist, count_role_app. cbn. lia.
    + rewrite (outcome_reply_effects w c s _ _ _ _ (trace_with_chat w c s _ _)).
      rewrite spoken_app, spoken_reply.
      pose proof (fallback_nonempty (command_language c s)) as Hne.
      destruct (OpenRouter._get_fallback_response (command_language c s));
        [discriminate|reflexivity].
Qed.

(** *** Exceptions while a command is processed *)

Lemma process_command_returns (w : world) (c : command_data) (s : jarvis) :
  fst (_process_command lower strip w c s) = Ok tt.
Proof.
  destruct (process_command_outcome w c s) as [s' [Hrun _]]. now rewrite Hrun.
Qed.

Lemma command_processor_returns (w : world) (s : jarvis) :
  fst (_command_processor lower strip w s) = Ok tt.
Proof.
  unfold _command_processor, try_except, mbind, read, modify.
  destruct (command_queue s) as [|c rest]; [reflexivity|].
  pose proof (process_command_returns w c (set_command_queue rest s)) as H.
  destruct (_process_command lower strip w c (set_command_queue rest s)) as [[[]|e] s'];
    [reflexivity | discriminate].
Qed.

(** C8, as the code has it. No exception leaves [_process_command], and
    [is_processing] is cleared when it returns; a turn of
    [_command_processor] returns as well. An exception raised in the
    [try] block is logged, the fixed Portuguese text [error_msg] is
    spoken with the coordinator's current language (the language of the
    command plays no part), and [on_error] is fired with the text of the
    exception. *)
Theorem process_command_catches (w : world) (c : command_data) (s : jarvis) :
  fst (_process_command lower strip w c s) = Ok tt /\
  is_processing (snd (_process_command lower strip w c s)) = false /\
  fst (_command_processor lower strip w s) = Ok tt /\
  (forall e s2,
      process_command_try lower strip w c s = (Raise e, s2) ->
      _process_command lower strip w c s = (Ok tt, finished (failed w e s2)) /\
      effects s2 (finished (failed w e s2)) = failure_effects w e s2 /\
      spoken (failure_effects w e s2) = [(error_msg, current_language s2)] /\
      In (LogError ("Error processing command: " ++ str_exn e))
         (map fst (failure_effects w e s2)) /\
      In (Callback "on_error" (PStr (str_exn e)))
         (map fst (failure_effects w e s2))).
Proof.
  split; [apply process_command_returns|].
  split.
  { destruct (process_command_outcome w c s) as [s' [Hrun Hout]]. rewrite Hrun.
    now destruct Hout. }
  split; [apply command_processor_returns|].
  intros e s2 Htry.
  split.
  { unfold _process_command, try_finally, try_except.
    rewrite Htry, except_failed. reflexivity. }
  split; [apply effects_intro, trace_failed|].
  split; [apply spoken_failure|].
  unfold failure_effects, speak_effects.
  split.
  - rewrite map_cons, map_cons, map_app. right. right.
    apply in_or_app. right. now left.
  - rewrite map_cons, map_cons. right. now left.
Qed.

(** *** The three flags *)

Lemma consistent_not_speaking (f : flags) : speaking f = false -> consistent f.
Proof. unfold consistent. congruence. Qed.

Lemma consistent_processing (f : flags) : processing f = true -> consistent f.
Proof. unfold consistent. auto. Qed.

Lemma at_rest_dispatch (w : world) (c : command_data) (s : jarvis) :
  at_rest s -> busy (at_dispatch w c s).
Proof.
  intros [Hs Hp Ht]. constructor; [reflexivity | exact Hs |].
  cbn. repeat constructor; try exact Ht; now apply consistent_processing.
Qed.

Lemma busy_preserved (s1 s2 : jarvis) : busy s1 -> preserved s1 s2 -> busy s2.
Proof.
  intros [Hp Hs Ht] [Hf _ _ _ [evs [_ Htrace]]].
  injection Hf as Hl Hsp Hpr.
  constructor; [congruence | congruence |].
  rewrite Htrace. apply Forall_app. split; [|exact Ht].
  unfold stamp. apply Forall_map. apply Forall_forall. intros e _.
  apply consistent_processing. exact Hp.
Qed.

Lemma busy_with_chat (messages : list OpenRouter.message) (language : string)
  (s : jarvis) :
  busy s -> busy (with_chat messages language s).
Proof.
  intros [Hp Hs Ht]. constructor; [exact Hp | exact Hs |].
  cbn. constructor; [|exact Ht]. now apply consistent_processing.
Qed.

Lemma speak_effects_consistent (w : world) (text language : string) (f : flags) :
  processing f = true ->
  Forall (fun ef => consistent (snd ef)) (speak_effects w text language f).
Proof.
  intros Hp. unfold speak_effects.
  destruct (engine_speak w); repeat constructor;
    now apply consistent_processing.
Qed.

Lemma busy_replied (w : world) (c : command_data) (t : turn)
  (language response : string) (s : jarvis) :
  busy s -> at_rest (finished (replied w c t language response s)).
Proof.
  intros [Hp Hs Ht]. constructor.
  - destruct response; [exact Hs | reflexivity].
  - reflexivity.
  - rewrite trace_replied. apply Forall_app. split; [|exact Ht].
    unfold reply_effects, said_effects.
    destruct response as [|ch r].
    + repeat constructor; now apply consistent_not_speaking.
    + constructor; [now apply consistent_not_speaking|].
      constructor; [now apply consistent_not_speaking|].
      constructor; [now apply consistent_not_speaking|].
      now apply speak_effects_consistent.
Qed.

Lemma busy_failed (w : world) (e : exn) (s : jarvis) :
  busy s -> at_rest (finished (failed w e s)).
Proof.
  intros [Hp Hs Ht]. constructor; [reflexivity | reflexivity |].
  rewrite trace_failed. apply Forall_app. split; [|exact Ht].
  unfold failure_effects.
  constructor; [now apply consistent_not_speaking|].
  constructor; [now apply consistent_not_speaking|].
  apply Forall_app. split; [now apply speak_effects_consistent|].
  repeat constructor. now apply consistent_processing.
Qed.

Lemma outcome_at_rest (w : world) (c : command_data) (s s' : jarvis) :
  at_rest s -> outcome lower strip w c s s' -> at_rest s'.
Proof.
  intros Hrest Hout. pose proof (at_rest_dispatch w c s Hrest) as Hbusy.
  destruct Hout as [r s2 _ _ _ Hpres | e s2 _ _ _ _ Hpres | _ _ _ | response _ _ _ _].
  - apply busy_replied. eapply busy_preserved; eassumption.
  - apply busy_failed. eapply busy_preserved; eassumption.
  - now apply busy_replied.
  - apply busy_replied. now apply busy_with_chat.
Qed.

Lemma start_listening_at_rest (s : jarvis) :
  at_rest s -> at_rest (snd (start_listening s)).
Proof.
  intros [Hs Hp Ht]. unfold start_listening, mbind, read.
  rewrite Hs, orb_false_r. destruct (is_listening s); [now constructor|].
  constructor; [exact Hs | exact Hp |].
  cbn. repeat constructor; try exact Ht; now apply consistent_not_speaking.
Qed.

Lemma perform_at_rest (a : action) (s : jarvis) :
  at_rest s -> at_rest (snd (perform lower strip a s)).
Proof.
  intros Hrest. destruct a as [c | w | | heard now | wake_word heard].
  - destruct Hrest as [Hs Hp Ht]. now constructor.
  - cbn [perform]. unfold _command_processor, try_except, mbind, read, modify.
    destruct (command_queue s) as [|c rest]; [exact Hrest|].
    assert (Hrest' : at_rest (set_command_queue rest s))
      by (destruct Hrest as [Hs Hp Ht]; now constructor).
    destruct (process_command_outcome w c (set_command_queue rest s))
      as [s' [Hrun Hout]].
    rewrite Hrun. cbn [snd]. eapply outcome_at_rest; eassumption.
  - now apply start_listening_at_rest.
  - destruct Hrest as [Hs Hp Ht].
    cbn [perform]. unfold _listen_for_command, try_finally, try_except.
    destruct heard as [[[|ch r]|]|e]; cbn;
      (constructor; [exact Hs | exact Hp |]);
      cbn; repeat constructor; try exact Ht; now apply consistent_not_speaking.
  - cbn [perform]. unfold _voice_activation_listener, try_except.
    unfold mbind at 1. unfold read at 1. unfold mbind at 1. unfold read at 1.
    destruct Hrest as [Hs Hp Ht]. rewrite Hs, Hp. cbn [negb andb].
    destruct heard as [[[|ch r]|]|e]; try (now constructor).
    + destruct (str_in wake_word (lower (String ch r))); [|now constructor].
      unfold start_listening, mbind, modify, _trigger_callback, emit, modify, read, ret.
      cbn. rewrite Hs, orb_false_r.
      destruct (is_listening s); cbn;
        (constructor; [exact Hs | exact Hp |]);
        cbn; repeat constructor; try exact Ht; now apply consistent_not_speaking.
    + constructor; [exact Hs | exact Hp |].
      cbn. constructor; [|exact Ht]. now apply consistent_not_speaking.
Qed.

Lemma run_at_rest (acts : list action) :
  forall s, at_rest s -> at_rest (run lower strip acts s).
Proof.
  induction acts as [|a acts IH]; intros s Hrest; [exact Hrest|].
  apply IH. now apply perform_at_rest.
Qed.

(** C2, as the code has it. In every state seen while the queue, the
    command processor, [start_listening], the listening thread and the
    wake-word listener run one call after the other, [is_speaking] is set
    only while [is_processing] is set: the response is spoken inside
    [_process_command], so the two flags are true together rather than
    exclusive. Between two calls neither of them is set.
    [start_listening] does nothing when [is_listening] or [is_speaking]
    is set, and the wake-word listener does nothing when [is_speaking] or
    [is_processing] is set. *)
Theorem speaking_within_processing :
  (forall language key acts f,
      observed (run lower strip acts (new_JarvisCore language key)) f ->
      speaking f = true -> processing f = true) /\
  (forall language key acts,
      is_speaking (run lower strip acts (new_JarvisCore language key)) = false /\
      is_processing (run lower strip acts (new_JarvisCore language key)) = false) /\
  (forall s, is_listening s || is_speaking s = true ->
             start_listening s = (Ok tt, s)) /\
  (forall wake_word heard s,
      is_speaking s || is_processing s = true ->
      _voice_activation_listener lower wake_word heard s = (Ok tt, s)).
Proof.
  assert (Hinit : forall language key, at_rest (new_JarvisCore language key))
    by (intros; constructor; [reflexivity | reflexivity | constructor]).
  split; [|split; [|split]].
  - intros language key acts f Hobs.
    destruct (run_at_rest acts _ (Hinit language key)) as [Hs Hp Ht].
    destruct Hobs as [-> | Hin].
    + cbn. congruence.
    + apply in_map_iff in Hin. destruct Hin as [ef [<- Hin]].
      rewrite Forall_forall in Ht. exact (Ht ef Hin).
  - intros language key acts.
    destruct (run_at_rest acts _ (Hinit language key)) as [Hs Hp Ht]. auto.
  - intros s H. unfold start_listening, mbind, read. now rewrite H.
  - intros wake_word heard s H.
    unfold _voice_activation_listener, try_except, mbind, read.
    destruct (is_speaking s), (is_processing s); try discriminate; reflexivity.
Qed.

End Runtime.

(** *** The statements above on concrete runs *)


Lemma system_command_short_circuits_witness :
  let c := typed "Ligar CÂMERA" "pt-BR" in
  let s := new_JarvisCore "pt-BR" true in
  let s' := snd (_process_command lower_latin1 strip_ascii offline_world c s) in
  system_command_phrase (lower_latin1 (command_text c)) = true /\
  chat_calls (effects s s') = [] /\
  map fst (spoken (effects s s')) = ["Câmera ativada com sucesso."].
Proof.
  intros c s s'.
  assert (Hph : system_command_phrase (lower_latin1 (command_text c)) = true)
    by reflexivity.
  split; [exact Hph|].
  destruct (system_command_short_circuits lower_latin1 strip_ascii offline_world c s)
    as [Hmatch _].
  destruct (Hmatch Hph) as [Hcalls _].
  split; [exact Hcalls | reflexivity].
Defined.

(** C3 as stated fails on the photo phrase while the camera is off: the
    text matches, [_handle_system_commands] returns no response but
    raises, and what is spoken is the generic error text. *)
Lemma photo_command_raises :
  let c := typed "tirar foto" "pt-BR" in
  let s := new_JarvisCore "pt-BR" true in
  let s' := snd (_process_command lower_latin1 strip_ascii offline_world c s) in
  system_command_phrase (lower_latin1 (command_text c)) = true /\
  fst (_handle_system_commands lower_latin1 offline_world (command_text c)
         (at_dispatch offline_world c s))
  = Raise (RuntimeError "Camera is not active") /\
  spoken (effects s s')
  = [("Desculpe, ocorreu um erro ao processar seu comando.", "pt-BR")].
Proof. repeat split. Qed.

Lemma ai_failure_falls_back_witness :
  let c := typed "que horas são" "en-US" in
  let s := new_JarvisCore "pt-BR" true in
  let s' := snd (_process_command lower_latin1 strip_ascii offline_world c s) in
  (system_command_phrase (lower_latin1 (command_text c)) = false /\
   ai_client s = true /\ OpenRouter.round_trip_fails (http offline_world)) /\
  count_role "assistant" (conversation_history s') = 1%nat /\
  map fst (spoken (effects s s'))
  = ["Sorry, I'm having trouble processing your request right now. Please try again in a moment."].
Proof.
  intros c s s'.
  assert (Hph : system_command_phrase (lower_latin1 (command_text c)) = false)
    by reflexivity.
  assert (Hai : ai_client s = true) by reflexivity.
  assert (Hfail : OpenRouter.round_trip_fails (http offline_world)) by exact I.
  split; [auto|].
  destruct (ai_failure_falls_back lower_latin1 strip_ascii) as [_ [_ Hproc]].
  destruct (Hproc offline_world c s Hph Hai Hfail) as [_ [Hcount Hspoken]].
  split; [exact Hcount | exact Hspoken].
Defined.

Lemma process_command_catches_witness :
  let c := typed "tirar foto" "pt-BR" in
  let s := new_JarvisCore "pt-BR" true in
  exists s2,
    process_command_try lower_latin1 strip_ascii offline_world c s
    = (Raise (RuntimeError "Camera is not active"), s2) /\
    _process_command lower_latin1 strip_ascii offline_world c s
    = (Ok tt, finished (failed offline_world (RuntimeError "Camera is not active") s2)) /\
    In (Callback "on_error" (PStr "Camera is not active"))
       (map fst (failure_effects offline_world (RuntimeError "Camera is not active") s2)).
Proof.
  intros c s. eexists.
  assert (Htry : process_command_try lower_latin1 strip_ascii offline_world c s
                 = (Raise (RuntimeError "Camera is not active"), _))
    by (vm_compute; reflexivity).
  split; [exact Htry|].
  destruct (process_command_catches lower_latin1 strip_ascii offline_world c s)
    as [_ [_ [_ Hcatch]]].
  destruct (Hcatch _ _ Htry) as [Hrun [_ [_ [_ Hcb]]]].
  split; [exact Hrun | exact Hcb].
Defined.

(** C8 as stated fails on the error utterance: an English and a Spanish
    command that fail both get the same Portuguese text, spoken with the
    coordinator's language [pt-BR], not with the language of the
    command. *)
Lemma error_utterance_not_localized :
  let s := new_JarvisCore "pt-BR" true in
  let run c := snd (_process_command lower_latin1 strip_ascii offline_world c s) in
  command_language (typed "take a picture" "en-US") s = "en-US" /\
  spoken (effects s (run (typed "take a picture" "en-US")))
  = [("Desculpe, ocorreu um erro ao processar seu comando.", "pt-BR")] /\
  command_language (typed "capturar foto" "es-ES") s = "es-ES" /\
  spoken (effects s (run (typed "capturar foto" "es-ES")))
  = [("Desculpe, ocorreu um erro ao processar seu comando.", "pt-BR")].
Proof. repeat split. Qed.

Lemma speaking_within_processing_witness :
  let s := run lower_latin1 strip_ascii listen_then_type (new_JarvisCore "pt-BR" true) in
  let f := {| listening := true; speaking := true; processing := true |} in
  observed s f /\ speaking f = true /\ processing f = true.
Proof.
  intros s f.
  assert (Hobs : observed s f) by (right; vm_compute; tauto).
  split; [exact Hobs|]. split; [reflexivity|].
  destruct (speaking_within_processing lower_latin1 strip_ascii) as [Hinv _].
  exact (Hinv "pt-BR" true listen_then_type f Hobs eq_refl).
Defined.

(** C2 as stated fails: while the response to a typed command is spoken,
    [is_processing] and [is_speaking] are both set, and [is_listening]
    too when the window was opened for listening just before. *)
Lemma flags_not_exclusive :
  observed
    (run lower_latin1 strip_ascii
       [QueuePut (typed "bom dia" "pt-BR"); CommandProcessor offline_world]
       (new_JarvisCore "pt-BR" true))
    {| listening := false; speaking := true; processing := true |} /\
  observed
    (run lower_latin1 strip_ascii listen_then_type (new_JarvisCore "pt-BR" true))
    {| listening := true; speaking := true; processing := true |}.
Proof. split; right; vm_compute; tauto. Qed.

(** The word [desligar] contains [ligar], which the camera block tests
    first: the command starts the camera. *)
Example desligar_starts_camera :
  let c := typed "desligar câmera" "pt-BR" in
  let s := new_JarvisCore "pt-BR" true in
  let s' := snd (_process_command lower_latin1 strip_ascii offline_world c s) in
  Camera.is_active (camera_manager s') = true /\
  map fst (spoken (effects s s')) = ["Câmera ativada com sucesso."].
Proof. split; reflexivity. Qed.

End CoreFacts.

(* ===================================================================== *)
(** ** More facts about the configuration store *)
(* ===================================================================== *)

Module ConfigPathFacts.
Import Py.
Import Config.
Import ConfigPaths.
Import ConfigFacts.
Local Open Scope py_scope.

Lemma set_loop_blocked (ks : list string) :
  forall config v e,
    set_loop ks config v = Raise e -> ks <> [] ->
    blocked config ks /\ exists msg, e = TypeError msg.
Proof.
  induction ks as [|k ks IH]; intros config v e H Hne; [contradiction|].
  destruct ks as [|k2 ks].
  - destruct config; cbn in H; try discriminate;
      injection H as <-; (split; [now apply blocked_here | eauto]).
  - rewrite set_loop_step in H.
    destruct config as [| b | n | q | s | l | d]; cbn [py_contains bind] in H;
      try (injection H as <-; split; [now apply blocked_here | eauto]).
    + destruct (PyStr.str_in k s); cbn in H; injection H as <-;
        (split; [now apply blocked_here | eauto]).
    + destruct (existsb (is_str k) l); cbn in H; injection H as <-;
        (split; [now apply blocked_here | eauto]).
    + unfold bind at 1 2 3 in H.
      destruct (dict_get k d) as [child|] eqn:Hk; cbn [negb] in H.
      * unfold py_getitem in H. rewrite Hk in H.
        destruct (set_loop (k2 :: ks) child v) as [child'|e'] eqn:Hs;
          cbn [bind py_setitem] in H; [discriminate|].
        injection H as <-.
        destruct (IH child v e' Hs) as [Hb He]; [discriminate|].
        split; [eapply blocked_below; eassumption | exact He].
      * cbn [py_setitem py_getitem] in H. rewrite dict_get_set_same in H.
        destruct (set_loop (k2 :: ks) (VDict []) v) as [child'|e'] eqn:Hs;
          cbn [bind py_setitem] in H; [discriminate|].
        exfalso.
        destruct (IH (VDict []) v e' Hs) as [Hb _]; [discriminate|].
        clear - Hb. inversion Hb; subst; discriminate.
Qed.

Lemma blocked_set_loop (config : value) (ks : list string) (v : value) :
  blocked config ks -> exists e, set_loop ks config v = Raise e.
Proof.
  induction 1 as [c k ks Hc | d k k' ks child Hk Hb IH].
  - destruct ks as [|k2 ks].
    + destruct c; try discriminate; cbn; eauto.
    + rewrite set_loop_step. destruct c; try discriminate; cbn; eauto.
      * destruct (PyStr.str_in k s); cbn; eauto.
      * destruct (existsb (is_str k) l); cbn; eauto.
  - rewrite set_loop_step. cbn [py_contains bind]. rewrite Hk. cbn [negb].
    unfold bind at 1. unfold py_getitem. rewrite Hk. unfold bind at 1.
    destruct IH as [e He]. rewrite He. cbn. eauto.
Qed.

(** [Config.set] raises exactly when a value stored on the way to the
    last segment is not a mapping, and what it raises then is a
    [TypeError]; an absent segment never makes it raise. *)
Theorem set_raises_iff (config : value) (key : string) (v : value) :
  ((exists e, set config key v = Raise e) <->
   blocked config (PyStr.split "." key)) /\
  (forall e, set config key v = Raise e -> exists msg, e = TypeError msg).
Proof.
  unfold set. split; [split|].
  - intros [e He].
    exact (proj1 (set_loop_blocked _ _ _ _ He (split_not_nil _ _))).
  - intros Hb. now apply blocked_set_loop.
  - intros e He.
    exact (proj2 (set_loop_blocked _ _ _ _ He (split_not_nil _ _))).
Qed.

Lemma set_raises_iff_witness :
  blocked (load_default_config "k") (PyStr.split "." "voice.rate.unit") /\
  exists e, set (load_default_config "k") "voice.rate.unit" (VStr "wpm") = Raise e.
Proof.
  assert (Hb : blocked (load_default_config "k") (PyStr.split "." "voice.rate.unit")).
  { vm_compute. eapply blocked_below; [reflexivity|].
    eapply blocked_below; [reflexivity|]. now apply blocked_here. }
  split; [exact Hb|].
  exact (proj2 (proj1 (set_raises_iff (load_default_config "k") "voice.rate.unit"
                         (VStr "wpm"))) Hb).
Defined.






Lemma existsb_keys_none (k : string) (d : dict) :
  dict_get k d = None -> existsb (String.eqb k) (map fst d) = false.
Proof.
  induction d as [|[k' v] rest IH]; [reflexivity|].
  simpl. destruct (String.eqb k k'); [discriminate | exact IH].
Qed.

Lemma merge_loop_keeps (items : dict) :
  forall default k,
    dict_get k default <> None -> dict_get k (merge_loop items default) <> None.
Proof.
  induction items as [|[k' v'] rest IH]; intros default k Hk; [exact Hk|].
  change (merge_loop ((k', v') :: rest) default)
    with (merge_loop rest (merge_step deep_merge default (k', v'))).
  apply IH. destruct (String.eqb k k') eqn:E.
  - apply String.eqb_eq in E. subst k'. rewrite merge_step_same. discriminate.
  - now rewrite merge_step_other.
Qed.

(** Merging a user file over the configuration never removes a key of
    the configuration, and a setting whose first path segment the file
    does not mention reads exactly as before. *)
Theorem merge_keeps_defaults (default user : dict) :
  exists merged,
    merge_config (VDict default) (VDict user) = Ok (VDict merged) /\
    (forall k, dict_get k default <> None -> dict_get k merged <> None) /\
    (forall key k ks d,
        PyStr.split "." key = k :: ks ->
        dict_get k user = None ->
        get (VDict merged) key d = get (VDict default) key d).
Proof.
  exists (deep_merge (VDict user) default).
  split; [reflexivity|]. rewrite deep_merge_loop. split.
  - intros k. apply merge_loop_keeps.
  - intros key k ks d Hsplit Hk. unfold get. rewrite Hsplit. cbn.
    now rewrite (merge_loop_absent _ _ _ (existsb_keys_none _ _ Hk)).
Qed.

Lemma merge_keeps_defaults_witness :
  let default :=
    match load_default_config "k" with VDict d => d | _ => [] end in
  let user := [("voice", VDict [("rate", VInt 90)])] in
  exists merged,
    merge_config (VDict default) (VDict user) = Ok (VDict merged) /\
    dict_get "camera" merged <> None /\
    (PyStr.split "." "camera.fps" = ["camera"; "fps"] /\
     dict_get "camera" user = None) /\
    get (VDict merged) "camera.fps" VNone = Ok (VInt 30).
Proof.
  intros default user.
  destruct (merge_keeps_defaults default user) as [merged [Hm [Hkeep Hsame]]].
  exists merged. split; [exact Hm|].
  split; [apply Hkeep; discriminate|].
  split; [split; reflexivity|].
  rewrite (Hsame "camera.fps" "camera" ["fps"] VNone eq_refl eq_refl).
  reflexivity.
Defined.

End ConfigPathFacts.

(* ===================================================================== *)
(** ** More facts about the AI client *)
(* ===================================================================== *)

Module OpenRouterProbeFacts.
Import Py.
Import OpenRouter.
Import OpenRouterProbe.
Local Open Scope py_scope.

Section Runtime.
Variable strip : string -> string.

(** [test_connection] goes through [chat_completion], which answers a
    failed round trip with the fallback text: whenever the round trip
    fails, [test_connection] reports [True]. It reports [False] only
    when the round trip succeeded and the reply is empty once
    stripped. *)
Theorem test_connection_on_failure (http : http_outcome) :
  (round_trip_fails http -> test_connection strip http = Ok true) /\
  (test_connection strip http = Ok false ->
   chat_completion strip http test_messages "en-US" = Ok EmptyString /\
   ~ round_trip_fails http).
Proof.
  unfold test_connection, try_except. split.
  - intros Hfail.
    now rewrite (OpenRouterFacts.chat_completion_failed strip _ _ _ Hfail).
  - destruct (OpenRouterFacts.chat_completion_returns strip http test_messages "en-US")
      as [text Htext].
    rewrite Htext. cbn [bind].
    destruct text as [|c r]; [|discriminate].
    intros _. split; [reflexivity|].
    intros Hfail.
    rewrite (OpenRouterFacts.chat_completion_failed strip _ _ _ Hfail) in Htext.
    discriminate.
Qed.

(** [chat_completion] returns the stripped [content] of the first choice
    when the body has the expected shape; the other choices and fields
    play no part. *)
Theorem chat_completion_first_choice (d first msg : dict) (rest : list value)
  (text : string) (messages : list message) (language : string) :
  dict_get "choices" d = Some (VList (VDict first :: rest)) ->
  dict_get "message" first = Some (VDict msg) ->
  dict_get "content" msg = Some (VStr text) ->
  chat_completion strip (answered (VDict d)) messages language = Ok (strip text).
Proof.
  intros Hc Hm Ht.
  unfold chat_completion, chat_completion_try, answered, try_except.
  cbn [bind raise_for_status json py_contains py_getitem].
  rewrite Hc. cbn [bind py_len List.length Nat.ltb Nat.leb py_getitem0 py_getitem].
  rewrite Hm. cbn [bind py_getitem]. rewrite Ht. reflexivity.
Qed.

End Runtime.

Lemma test_connection_on_failure_witness :
  round_trip_fails (Raise (RequestException "no route to host")) /\
  test_connection PyStr.strip_ascii (Raise (RequestException "no route to host"))
  = Ok true.
Proof.
  assert (H : round_trip_fails (Raise (RequestException "no route to host")))
    by exact I.
  split; [exact H|].
  exact (proj1 (test_connection_on_failure PyStr.strip_ascii _) H).
Defined.

Lemma chat_completion_first_choice_witness :
  let msg := [("role", VStr "assistant"); ("content", VStr "  Bom dia.  ")] in
  let first := [("index", VInt 0); ("message", VDict msg)] in
  let d := [("id", VStr "gen-1"); ("choices", VList [VDict first; VNone])] in
  (dict_get "choices" d = Some (VList [VDict first; VNone]) /\
   dict_get "message" first = Some (VDict msg) /\
   dict_get "content" msg = Some (VStr "  Bom dia.  ")) /\
  chat_completion PyStr.strip_ascii (answered (VDict d)) [] "pt-BR" = Ok "Bom dia.".
Proof.
  intros msg first d. split; [repeat split|].
  rewrite (chat_completion_first_choice PyStr.strip_ascii d first msg [VNone]
             "  Bom dia.  " [] "pt-BR" eq_refl eq_refl eq_refl).
  reflexivity.
Defined.

Lemma model_ids_raises (models : list value) (m : value) (e : exn) :
  In m models -> py_getitem m "id" = Raise e ->
  exists e', model_ids models = Raise e'.
Proof.
  induction models as [|m' rest IH]; intros Hin Hm; [contradiction|].
  cbn. destruct (py_getitem m' "id") as [id|e1] eqn:Hm'; cbn; [|eauto].
  destruct Hin as [-> | Hin]; [congruence|].
  destruct (IH Hin Hm) as [e' ->]. cbn. eauto.
Qed.

Lemma model_ids_all (models : list value) (ids : list value) :
  Forall2 (fun m id => py_getitem m "id" = Ok id) models ids ->
  model_ids models = Ok ids.
Proof.
  induction 1 as [|m id models ids Hm _ IH]; [reflexivity|].
  cbn. rewrite Hm. cbn. rewrite IH. reflexivity.
Qed.

(** [get_available_models] never raises. It returns the [id] of every
    entry of [data], in order, when each entry has one; a failed round
    trip, a body without [data], or a single entry without an [id] all
    give the empty list. *)
Theorem get_available_models_all_or_nothing :
  (forall http, exists ids, get_available_models http = Ok ids) /\
  (forall d models ids,
      dict_get "data" d = Some (VList models) ->
      Forall2 (fun m id => py_getitem m "id" = Ok id) models ids ->
      get_available_models (answered (VDict d)) = Ok ids) /\
  (forall d models m e,
      dict_get "data" d = Some (VList models) ->
      In m models -> py_getitem m "id" = Raise e ->
      get_available_models (answered (VDict d)) = Ok []) /\
  (forall d, dict_get "data" d = None ->
             get_available_models (answered (VDict d)) = Ok []) /\
  (forall e, get_available_models (Raise e) = Ok []).
Proof.
  split; [|split; [|split; [|split]]].
  - intros http. unfold get_available_models, try_except.
    match goal with |- context [match ?b with Ok _ => _ | Raise _ => _ end] =>
      destruct b end; eauto.
  - intros d models ids Hd Hall.
    unfold get_available_models, answered, try_except.
    cbn [bind raise_for_status json py_contains py_getitem].
    rewrite Hd. cbn [bind py_iter]. now rewrite (model_ids_all _ _ Hall).
  - intros d models m e Hd Hin Hm.
    unfold get_available_models, answered, try_except.
    cbn [bind raise_for_status json py_contains py_getitem].
    rewrite Hd. cbn [bind py_iter].
    destruct (model_ids_raises _ _ _ Hin Hm) as [e' ->]. reflexivity.
  - intros d Hd. unfold get_available_models, answered, try_except.
    cbn [bind raise_for_status json py_contains]. now rewrite Hd.
  - reflexivity.
Qed.

Lemma get_available_models_all_or_nothing_witness :
  let good := VDict [("id", VStr "anthropic/claude-3-sonnet")] in
  let bad := VDict [("name", VStr "nameless")] in
  get_available_models (answered (VDict [("data", VList [good; good])]))
  = Ok [VStr "anthropic/claude-3-sonnet"; VStr "anthropic/claude-3-sonnet"] /\
  get_available_models (answered (VDict [("data", VList [good; bad])])) = Ok [].
Proof.
  intros good bad.
  destruct get_available_models_all_or_nothing as [_ [Hall [Hnone _]]].
  split.
  - apply (Hall _ [good; good]); [reflexivity|].
    repeat constructor.
  - apply (Hnone _ [good; bad] bad (KeyError "'id'")); [reflexivity | |reflexivity].
    right. now left.
Defined.

End OpenRouterProbeFacts.

(* ===================================================================== *)
(** ** More facts about the camera manager *)
(* ===================================================================== *)

Module RecorderFacts.
Import Py.
Import Camera.
Import Recorder.

Lemma apply_op_recording_ok (r : recorder) (o : op) :
  recording_ok r -> recording_ok (apply_op r o).
Proof.
  destruct r as [[c a rec fr] vw fn]. unfold recording_ok. cbn. intros Hok.
  destruct o as [dev | | f | filename stamp wr | | ]; cbn.
  - unfold start_camera. cbn. destruct a; cbn; [exact Hok|].
    destruct dev; cbn; intros Hr; destruct (Hok Hr) as [Ha _]; discriminate.
  - unfold stop_camera. cbn. destruct a; cbn; [discriminate | exact Hok].
  - unfold capture. cbn. destruct (a && c); cbn; exact Hok.
  - unfold start_recording. cbn. destruct a; cbn; [|exact Hok].
    destruct rec; cbn; [exact Hok|].
    destruct wr; cbn; [|discriminate].
    intros _. split; [reflexivity|]. eexists. repeat split.
  - unfold stop_recording. cbn. destruct rec; cbn; [discriminate | exact Hok].
  - unfold recording_step. cbn. destruct rec; cbn; [|discriminate].
    destruct (Hok eq_refl) as [Ha [w [Hw [Hrel Hname]]]].
    rewrite Hw. unfold get_current_frame. cbn. destruct fr; cbn.
    + intros _. split; [exact Ha|]. eexists. repeat split; assumption.
    + intros _. split; [exact Ha|]. exists w. repeat split; assumption.
Qed.

(** Whatever sequence of camera and recording calls is made on a fresh
    camera manager, [is_recording] is set only while the camera is
    active, and then an unreleased video writer for
    [recording_filename] exists. *)
Theorem recording_needs_active_camera (ops : list op) :
  is_recording (cam (run ops new_recorder)) = true ->
  is_active (cam (run ops new_recorder)) = true /\
  exists w, video_writer (run ops new_recorder) = Some w /\
            released w = false /\
            recording_filename (run ops new_recorder) = Some (target w).
Proof.
  assert (H : forall r, recording_ok r -> recording_ok (run ops r)).
  { induction ops as [|o ops IH]; intros r Hr; [exact Hr|].
    apply IH. now apply apply_op_recording_ok. }
  apply H. unfold recording_ok. discriminate.
Qed.

Lemma recording_needs_active_camera_witness :
  let ops := [ StartCamera Opened; Capture "frame-1";
               StartRecording None "20240101_120000" WriterOpens;
               RecordingStep; Capture "frame-2"; RecordingStep ] in
  is_recording (cam (run ops new_recorder)) = true /\
  is_active (cam (run ops new_recorder)) = true /\
  video_writer (run ops new_recorder)
  = Some {| target := "output/videos/jarvis_video_20240101_120000.mp4";
            frames := ["frame-2"; "frame-1"]; released := false |}.
Proof.
  intros ops.
  assert (Hr : is_recording (cam (run ops new_recorder)) = true) by reflexivity.
  split; [exact Hr|].
  destruct (recording_needs_active_camera ops Hr) as [Ha _].
  split; [exact Ha | reflexivity].
Defined.

(** [stop_camera] clears [is_recording] without releasing the video
    writer, and [stop_recording] returns at once when [is_recording] is
    clear: a recording cut short by [stop_camera] leaves its writer
    unreleased however often [stop_recording] is called afterwards,
    while [stop_recording] on the running recording releases it. *)
Theorem stop_camera_leaves_writer_open (r : recorder) (w : writer) (n : nat) :
  is_recording (cam r) = true ->
  is_active (cam r) = true ->
  video_writer r = Some w ->
  released w = false ->
  video_writer (run (StopCamera :: repeat StopRecording n) r) = Some w /\
  is_recording (cam (run (StopCamera :: repeat StopRecording n) r)) = false /\
  video_writer (stop_recording r)
  = Some {| target := target w; frames := frames w; released := true |}.
Proof.
  intros Hr Ha Hw Hrel. cbn [run fold_left apply_op].
  assert (Hstopped :
    forall r', is_recording (cam r') = false ->
               run (repeat StopRecording n) r' = r').
  { induction n as [|n IH]; intros r' Hr'; [reflexivity|].
    cbn. unfold stop_recording at 1. rewrite Hr'. cbn [negb].
    now apply IH. }
  fold (run (repeat StopRecording n) (with_cam (stop_camera (cam r)) r)).
  rewrite Hstopped; unfold stop_camera; rewrite Ha; cbn; [|reflexivity].
  split; [exact Hw|]. split; [reflexivity|].
  unfold stop_recording. rewrite Hr, Hw. reflexivity.
Qed.

Lemma stop_camera_leaves_writer_open_witness :
  let r := run [ StartCamera Opened; Capture "frame-1";
                 StartRecording (Some "clip.mp4") "t" WriterOpens; RecordingStep ]
               new_recorder in
  let w := {| target := "clip.mp4"; frames := ["frame-1"]; released := false |} in
  (is_recording (cam r) = true /\ is_active (cam r) = true /\
   video_writer r = Some w /\ released w = false) /\
  video_writer (run (StopCamera :: repeat StopRecording 2) r) = Some w.
Proof.
  intros r w. split; [repeat split|].
  exact (proj1 (stop_camera_leaves_writer_open r w 2 eq_refl eq_refl eq_refl eq_refl)).
Defined.

Lemma read_write_same (fs : files) (name : string) (content : frame) :
  read_file (write_file fs name content) name = Some content.
Proof.
  induction fs as [|[n c] rest IH]; cbn.
  - now rewrite String.eqb_refl.
  - destruct (String.eqb name n) eqn:E; cbn.
    + now rewrite String.eqb_refl.
    + now rewrite E.
Qed.

Lemma read_write_other (fs : files) (name other : string) (content : frame) :
  other <> name ->
  read_file (write_file fs name content) other = read_file fs other.
Proof.
  intros Hne. apply String.eqb_neq in Hne.
  induction fs as [|[n c] rest IH]; cbn.
  - now rewrite Hne.
  - destruct (String.eqb name n) eqn:E; cbn.
    + apply String.eqb_eq in E. subst n. now rewrite Hne.
    + destruct (String.eqb other n); [reflexivity | exact IH].
Qed.

Lemma write_file_length (fs : files) (name : string) (content : frame) :
  List.length (write_file fs name content)
  = (List.length fs + match read_file fs name with Some _ => 0 | None => 1 end)%nat.
Proof.
  induction fs as [|[n c] rest IH]; cbn; [reflexivity|].
  destruct (String.eqb name n); cbn; [lia|]. now rewrite IH.
Qed.

(** A camera that is off, once started on a device that opens and
    handed a frame by the capture loop, takes a photo of exactly that
    frame: afterwards the file named after the time stamp holds the
    frame, whatever a file of that name held before, and every file of
    another name is as it was. A second photo within the same second
    replaces the first: the number of files grows only when the name is
    new. *)
Theorem photo_of_captured_frame (cm : camera_manager) (fs : files)
  (f : frame) (stamp : string) :
  is_active cm = false ->
  let started := snd (start_camera cm Opened) in
  let name := "output/photos/jarvis_photo_" ++ stamp ++ ".jpg" in
  fst (start_camera cm Opened) = true /\
  exists fs',
    take_photo (capture started f) fs None stamp Written = (Ok name, fs') /\
    read_file fs' name = Some f /\
    (forall other, other <> name -> read_file fs' other = read_file fs other) /\
    List.length fs'
    = (List.length fs + match read_file fs name with Some _ => 0 | None => 1 end)%nat.
Proof.
  intros Hoff started name. subst started name. unfold start_camera. rewrite Hoff.
  split; [reflexivity|].
  eexists. split; [reflexivity|].
  split; [apply read_write_same|].
  split; [intros other Hne; now apply read_write_other | apply write_file_length].
Qed.

Lemma photo_of_captured_frame_witness :
  is_active new_CameraManager = false /\
  exists fs',
    take_photo (capture (snd (start_camera new_CameraManager Opened)) "pixels")
      [("old.jpg", "older");
       ("output/photos/jarvis_photo_20240101_120000.jpg", "a moment ago")]
      None "20240101_120000" Written
    = (Ok "output/photos/jarvis_photo_20240101_120000.jpg", fs') /\
    read_file fs' "output/photos/jarvis_photo_20240101_120000.jpg" = Some "pixels" /\
    read_file fs' "old.jpg" = Some "older" /\
    List.length fs' = 2%nat.
Proof.
  split; [reflexivity|].
  destruct (photo_of_captured_frame new_CameraManager
              [("old.jpg", "older");
               ("output/photos/jarvis_photo_20240101_120000.jpg", "a moment ago")]
              "pixels" "20240101_120000" eq_refl)
    as [_ [fs' [Hphoto [Hnew [Hold Hlen]]]]].
  exists fs'. split; [exact Hphoto|]. split; [exact Hnew|].
  split; [rewrite Hold; [reflexivity | discriminate] | exact Hlen].
Defined.

(** [take_photo] changes the files only when the camera is active, holds
    a frame and the write succeeds: then the file of the returned name
    holds that frame and no file of another name has changed. In every
    other case, the failing write included, the files are those from
    before. *)
Theorem photo_file_only_when_written (cm : camera_manager) (fs fs' : files)
  (filename : option string) (stamp : string) (wr : imwrite_outcome)
  (r : result string) :
  take_photo cm fs filename stamp wr = (r, fs') ->
  fs' <> fs ->
  is_active cm = true /\ current_frame cm <> None /\ wr = Written /\
  exists name f,
    r = Ok name /\ current_frame cm = Some f /\
    fs' = write_file fs name f /\
    read_file fs' name = Some f /\
    (forall other, other <> name -> read_file fs' other = read_file fs other).
Proof.
  unfold take_photo, get_current_frame.
  destruct (is_active cm); cbn [negb].
  - destruct (current_frame cm) as [f|].
    + destruct wr; intros H Hne; injection H as <- <-;
        try (now elim Hne).
      repeat split; try discriminate.
      eexists _, f. repeat split;
        [apply read_write_same | intros other Ho; now apply read_write_other].
    + intros H Hne. injection H as _ <-. now elim Hne.
  - intros H Hne. injection H as _ <-. now elim Hne.
Qed.

Lemma photo_file_only_when_written_witness :
  let cm := capture (snd (start_camera new_CameraManager Opened)) "pixels" in
  (take_photo cm [("a.jpg", "before")] (Some "a.jpg") "t" Written
   = (Ok "a.jpg", [("a.jpg", "pixels")]) /\
   [("a.jpg", "pixels")] <> ([("a.jpg", "before")] : files)) /\
  is_active cm = true /\ current_frame cm <> None.
Proof.
  intros cm.
  assert (H1 : take_photo cm [("a.jpg", "before")] (Some "a.jpg") "t" Written
               = (Ok "a.jpg", [("a.jpg", "pixels")])) by reflexivity.
  assert (H2 : [("a.jpg", "pixels")] <> ([("a.jpg", "before")] : files))
    by discriminate.
  split; [split; assumption|].
  destruct (photo_file_only_when_written cm _ _ _ _ _ _ H1 H2) as [Ha [Hf _]].
  split; assumption.
Defined.

End RecorderFacts.

(* ===================================================================== *)
(** ** More facts about the speech engine *)
(* ===================================================================== *)

Module SpeechTextFacts.
Import PyStr.
Import SpeechText.

Lemma replace_from_absent (old new : string) (s : string) :
  str_in old s = false -> replace_from old new 0 s = s.
Proof.
  induction s as [|c rest IH]; [reflexivity|].
  cbn [str_in replace_from]. intros H.
  apply orb_false_elim in H. destruct H as [Hp Hrest].
  rewrite Hp. now rewrite IH.
Qed.

Lemma replace_absent (old new s : string) :
  nonempty old = true -> str_in old s = false -> replace old new s = s.
Proof.
  destruct old; [discriminate|]. intros _. apply replace_from_absent.
Qed.

Lemma str_in_char (c : ascii) (s : string) :
  str_in (String c EmptyString) s = has_char c s.
Proof.
  induction s as [|x rest IH]; [reflexivity|].
  cbn [str_in has_char String.prefix]. rewrite IH.
  destruct (ascii_dec c x) as [->|Hne].
  - rewrite Ascii.eqb_refl. now destruct rest.
  - apply Ascii.eqb_neq in Hne. now rewrite Hne.
Qed.

Lemma has_char_app (c : ascii) (a b : string) :
  has_char c (a ++ b) = has_char c a || has_char c b.
Proof.
  induction a as [|x a IH]; [reflexivity|].
  cbn. rewrite IH. now rewrite orb_assoc.
Qed.

Lemma replace_from_keeps_absent (c : ascii) (old new : string) (s : string) :
  has_char c new = false -> has_char c s = false ->
  forall skip, has_char c (replace_from old new skip s) = false.
Proof.
  intros Hnew. induction s as [|x rest IH]; intros Hs skip; [reflexivity|].
  cbn in Hs. apply orb_false_elim in Hs. destruct Hs as [Hx Hrest].
  cbn [replace_from]. destruct skip as [|n]; [|now apply IH].
  destruct (String.prefix old (String x rest)).
  - rewrite has_char_app, Hnew. now apply IH.
  - cbn. rewrite Hx. now apply IH.
Qed.

Lemma replace_keeps_absent (c : ascii) (old new s : string) :
  nonempty old = true ->
  has_char c new = false -> has_char c s = false ->
  has_char c (replace old new s) = false.
Proof.
  destruct old; [discriminate|]. intros _ Hnew Hs.
  now apply replace_from_keeps_absent.
Qed.

Lemma replace_from_removes (c : ascii) (new : string) (s : string) :
  has_char c new = false ->
  forall skip, has_char c (replace_from (String c EmptyString) new skip s) = false.
Proof.
  intros Hnew. induction s as [|x rest IH]; intros skip; [reflexivity|].
  cbn [replace_from]. destruct skip as [|n]; [|apply IH].
  cbn [String.prefix]. destruct (ascii_dec c x) as [->|Hne].
  - replace (String.prefix EmptyString rest) with true by now destruct rest.
    rewrite has_char_app, Hnew. apply IH.
  - cbn. apply Ascii.eqb_neq in Hne. rewrite Hne. apply IH.
Qed.

Section Runtime.
Variable lower : string -> string.

Lemma emphasise_keeps_absent (c : ascii) (t word : string) :
  nonempty word = true ->
  has_char c (emphasis_tag word) = false ->
  has_char c t = false ->
  has_char c (emphasise lower t word) = false.
Proof.
  intros Hw Htag Ht. unfold emphasise.
  destruct (str_in word (lower t)); [|exact Ht].
  now apply replace_keeps_absent.
Qed.

Lemma emphasis_keeps_absent (c : ascii) (t : string) :
  forallb (fun w => negb (has_char c (emphasis_tag w))) emphasis_words = true ->
  has_char c t = false ->
  has_char c (fold_left (emphasise lower) emphasis_words t) = false.
Proof.
  unfold emphasis_words. cbn [forallb fold_left]. intros Htags Ht.
  repeat (apply andb_prop in Htags; destruct Htags as [?H Htags]).
  repeat (apply emphasise_keeps_absent;
          [reflexivity | now apply negb_true_iff |]).
  exact Ht.
Qed.

(** The text handed to the synthesis never holds an exclamation or a
    question mark: both are turned into pauses, and nothing that follows
    brings one back. *)
Theorem robotic_text_has_no_marks (text : string) :
  str_in "!" (_apply_robotic_effects lower text) = false /\
  str_in "?" (_apply_robotic_effects lower text) = false.
Proof.
  unfold _apply_robotic_effects. rewrite !str_in_char. split.
  - apply emphasis_keeps_absent; [reflexivity|].
    apply replace_keeps_absent; [reflexivity | reflexivity |].
    now apply replace_from_removes.
  - apply emphasis_keeps_absent; [reflexivity|].
    now apply replace_from_removes.
Qed.

Lemma emphasise_absent (t word : string) :
  nonempty word = true -> str_in word t = false -> emphasise lower t word = t.
Proof.
  intros Hw Habs. unfold emphasise.
  destruct (str_in word (lower t)); [|reflexivity].
  now apply replace_absent.
Qed.

(** A text without full stop, comma, exclamation and question mark
    that holds none of the five emphasis words in lower-case spelling
    goes to the synthesis unchanged; the words are tested on the lowered
    text but replaced in the text as written, so another spelling of
    them is never marked. *)
Theorem robotic_text_plain (text : string) :
  str_in "." text = false ->
  str_in "," text = false ->
  str_in "!" text = false ->
  str_in "?" text = false ->
  forallb (fun w => negb (str_in w text)) emphasis_words = true ->
  _apply_robotic_effects lower text = text.
Proof.
  intros Hdot Hcomma Hbang Hq Hwords. unfold _apply_robotic_effects.
  rewrite (replace_absent "." _ text eq_refl Hdot).
  rewrite (replace_absent "," _ text eq_refl Hcomma).
  rewrite (replace_absent "!" _ text eq_refl Hbang).
  rewrite (replace_absent "?" _ text eq_refl Hq).
  unfold emphasis_words in *. cbn [forallb fold_left] in *.
  repeat (apply andb_prop in Hwords; destruct Hwords as [?H Hwords]).
  apply negb_true_iff in H, H0, H1, H2, H3.
  rewrite (emphasise_absent text "jarvis" eq_refl H).
  rewrite (emphasise_absent text "sistema" eq_refl H0).
  rewrite (emphasise_absent text "ativado" eq_refl H1).
  rewrite (emphasise_absent text "processando" eq_refl H2).
  exact (emphasise_absent text "comando" eq_refl H3).
Qed.

End Runtime.

Lemma robotic_text_plain_witness :
  (str_in "." "JARVIS online" = false /\ str_in "," "JARVIS online" = false /\
   str_in "!" "JARVIS online" = false /\ str_in "?" "JARVIS online" = false /\
   forallb (fun w => negb (str_in w "JARVIS online")) emphasis_words = true) /\
  str_in "jarvis" (lower_latin1 "JARVIS online") = true /\
  _apply_robotic_effects lower_latin1 "JARVIS online" = "JARVIS online".
Proof.
  split; [repeat split|]. split; [reflexivity|].
  exact (robotic_text_plain lower_latin1 "JARVIS online"
           eq_refl eq_refl eq_refl eq_refl eq_refl).
Defined.

End SpeechTextFacts.

Module SpeechStopFacts.
Import Speech.

Lemma upd_same (f : nat -> pc) (i : nat) (p : pc) : upd f i p i = p.
Proof. unfold upd. now rewrite Nat.eqb_refl. Qed.

Lemma upd_other (f : nat -> pc) (i j : nat) (p : pc) :
  i <> j -> upd f j p i = f i.
Proof. unfold upd. intros H. apply Nat.eqb_neq in H. now rewrite H. Qed.

Lemma step_others (s : engine) (j k : nat) (a : string) :
  k <> j -> threads (step s j a) k = threads s k.
Proof.
  intros Hk. unfold step.
  destruct (threads s j); try destruct (speech_lock s); cbn [threads];
    try reflexivity; now apply upd_other.
Qed.

Ltac step_at H :=
  unfold step; rewrite H; cbn [threads is_speaking speech_lock];
  rewrite ?upd_same; auto.

Lemma step_from_idle (s : engine) (j : nat) (a : string) :
  threads s j = Idle ->
  threads (step s j a) j = Entered a /\
  speech_lock (step s j a) = speech_lock s /\
  is_speaking (step s j a) = is_speaking s.
Proof. intros H. step_at H. Qed.

Lemma step_from_entered (s : engine) (j : nat) (t a : string) :
  threads s j = Entered t -> PyStr.nonempty t = true ->
  threads (step s j a) j = AtLock t /\
  speech_lock (step s j a) = speech_lock s /\
  is_speaking (step s j a) = is_speaking s.
Proof. intros H Hne. step_at H. now rewrite Hne. Qed.

Lemma step_from_atlock (s : engine) (j : nat) (t a : string) :
  threads s j = AtLock t -> speech_lock s = false ->
  threads (step s j a) j = InLock t /\
  is_speaking (step s j a) = is_speaking s.
Proof.
  intros H Hl. unfold step. rewrite H, Hl. cbn. now rewrite upd_same.
Qed.

Lemma step_from_inlock (s : engine) (j : nat) (t a : string) :
  threads s j = InLock t -> is_speaking s = false ->
  threads (step s j a) j = Setting t.
Proof.
  intros H Hs. unfold step. rewrite H, Hs. cbn. now rewrite upd_same.
Qed.

Lemma step_from_setting (s : engine) (j : nat) (t a : string) :
  threads s j = Setting t -> threads (step s j a) j = Leaving t.
Proof. intros H. step_at H. Qed.

Lemma step_from_leaving (s : engine) (j : nat) (t a : string) :
  threads s j = Leaving t -> threads (step s j a) j = Synthesising t.
Proof. intros H. step_at H. Qed.

(** [stop] clears [is_speaking] without regard to a call of [speak] that
    is still in its synthesis: [is_busy] then answers [False], and a
    second call of [speak] passes the guarded test and enters the
    synthesis while the first call has not left it. *)
Theorem stop_admits_second_call (s : engine) (i j : nat) (first text : string) :
  i <> j ->
  threads s i = Synthesising first ->
  threads s j = Idle ->
  speech_lock s = false ->
  PyStr.nonempty text = true ->
  is_busy (stop s) = false /\
  threads (run (repeat (j, text) 6) (stop s)) i = Synthesising first /\
  threads (run (repeat (j, text) 6) (stop s)) j = Synthesising text.
Proof.
  intros Hij Hi Hj Hlock Hne. split; [reflexivity|].
  cbn [repeat run fold_left fst snd]. split.
  - rewrite !step_others by exact Hij. exact Hi.
  - destruct (step_from_idle (stop s) j text Hj) as [H1 [L1 S1]].
    destruct (step_from_entered _ j text text H1 Hne) as [H2 [L2 S2]].
    rewrite L1 in L2. cbn [stop speech_lock] in L2. rewrite Hlock in L2.
    destruct (step_from_atlock _ j text text H2 L2) as [H3 S3].
    rewrite S2, S1 in S3. cbn [stop is_speaking] in S3.
    pose proof (step_from_inlock _ j text text H3 S3) as H4.
    pose proof (step_from_setting _ j text text H4) as H5.
    exact (step_from_leaving _ j text text H5).
Qed.

Lemma stop_admits_second_call_witness :
  let s := run (repeat (0, "first") 6) new_SpeechEngine in
  (0 <> 1 /\ threads s 0 = Synthesising "first" /\ threads s 1 = Idle /\
   speech_lock s = false /\ PyStr.nonempty "second" = true) /\
  threads (run (repeat (1, "second") 6) (stop s)) 0 = Synthesising "first" /\
  threads (run (repeat (1, "second") 6) (stop s)) 1 = Synthesising "second".
Proof.
  intros s.
  assert (H01 : 0 <> 1) by discriminate.
  split; [repeat split; exact H01|].
  exact (proj2 (stop_admits_second_call s 0 1 "first" "second"
                  H01 eq_refl eq_refl eq_refl eq_refl)).
Defined.

End SpeechStopFacts.

(* ===================================================================== *)
(** ** More facts about the coordinator *)
(* ===================================================================== *)

Module CoreMoreFacts.
Import Py.
Import PyStr.
Import Core.
Import CoreMore.
Import CoreFacts.

Lemma queue_replied (w : world) (c : command_data) (t : turn)
  (language response : string) (s : jarvis) :
  command_queue (finished (replied w c t language response s)) = command_queue s.
Proof. destruct response; reflexivity. Qed.

Lemma language_replied (w : world) (c : command_data) (t : turn)
  (language response : string) (s : jarvis) :
  current_language (finished (replied w c t language response s))
  = current_language s.
Proof. destruct response; reflexivity. Qed.

Lemma recent_history_snoc (h : list turn) (t : turn) :
  exists front, recent_history (h ++ [t]) = (front ++ [t])%list.
Proof.
  unfold recent_history. destruct (6 <? List.length (h ++ [t]))%nat eqn:E.
  - rewrite skipn_app, length_app. simpl.
    replace (List.length h + 1 - 6 - List.length h)%nat with 0%nat by lia.
    now exists (skipn (List.length h + 1 - 6) h).
  - now exists h.
Qed.

Lemma system_prompt_absent (language : string) :
  ~ In language prompt_languages ->
  system_prompt language = system_prompt "pt-BR".
Proof.
  unfold prompt_languages, system_prompt, system_prompts. cbn. intros Hn.
  destruct (String.eqb language "pt-BR") eqn:E1;
    [apply String.eqb_eq in E1; elim Hn; subst; auto 10|].
  destruct (String.eqb language "en-US") eqn:E2;
    [apply String.eqb_eq in E2; elim Hn; subst; auto 10|].
  destruct (String.eqb language "es-ES") eqn:E3;
    [apply String.eqb_eq in E3; elim Hn; subst; auto 10|].
  reflexivity.
Qed.

(** For every language other than [pt-BR], [en-US] and [es-ES] the system
    prompt of [_build_context] is the Portuguese one, which tells the
    model to answer in Brazilian Portuguese; that includes [fr-FR] and
    [de-DE], for which the AI client has fallback texts of their own. *)
Theorem system_prompt_defaults_to_portuguese (language : string) :
  ~ In language prompt_languages ->
  system_prompt language = system_prompt "pt-BR" /\
  (forall s, hd_error (_build_context s language) = Some (system_prompt "pt-BR")) /\
  In "fr-FR" OpenRouter.supported_languages /\ ~ In "fr-FR" prompt_languages /\
  In "de-DE" OpenRouter.supported_languages /\ ~ In "de-DE" prompt_languages.
Proof.
  intros Hn. split; [now apply system_prompt_absent|].
  split; [intros s; unfold _build_context; cbn [hd_error];
          now rewrite system_prompt_absent|].
  cbn. repeat split; try tauto;
    intros [H|[H|[H|[]]]]; discriminate H.
Qed.

Lemma system_prompt_defaults_to_portuguese_witness :
  ~ In "fr-FR" prompt_languages /\
  OpenRouter.content (system_prompt "fr-FR")
  = "Você é JARVIS, um assistente virtual inteligente. Seja útil, conciso e amigável. Responda sempre em português brasileiro.".
Proof.
  assert (H : ~ In "fr-FR" prompt_languages)
    by (cbn; intros [H|[H|[H|[]]]]; discriminate H).
  split; [exact H|].
  now rewrite (proj1 (system_prompt_defaults_to_portuguese "fr-FR" H)).
Defined.

Section Runtime.
Variable lower : string -> string.
Variable strip : string -> string.

(** The message list [_process_command] passes to the AI client ends
    with the user's message twice: once as the newest turn of the
    history window and once more as the message that [_process_with_ai]
    appends. *)
Theorem user_message_sent_twice (w : world) (c : command_data) (s : jarvis)
  (messages : list OpenRouter.message) (language : string) :
  In (messages, language)
     (chat_calls (effects s (snd (_process_command lower strip w c s)))) ->
  exists front,
    messages =
      (front
       ++ [{| OpenRouter.role := "user"; OpenRouter.content := command_text c |};
           {| OpenRouter.role := "user"; OpenRouter.content := command_text c |}])%list.
Proof.
  intros Hin.
  destruct (process_command_outcome lower strip w c s) as [s' [Hrun Hout]].
  rewrite Hrun in Hin. cbn [snd] in Hin.
  destruct (outcome_chat_calls lower strip w c s s' Hout) as [Hnone | [_ [_ Hone]]].
  - rewrite Hnone in Hin. contradiction.
  - rewrite Hone in Hin. destruct Hin as [Heq | []]. injection Heq as <- _.
    unfold ai_messages, _build_context.
    change (conversation_history (at_dispatch w c s))
      with (conversation_history s ++ [user_turn w c s])%list.
    destruct (recent_history_snoc (conversation_history s) (user_turn w c s))
      as [front ->].
    exists (system_prompt (command_language c s) :: map message_of front).
    rewrite map_app. cbn. now rewrite <- app_assoc.
Qed.

(** What one command does to the history and to the queue. *)
Lemma process_command_summary (w : world) (c : command_data) (s : jarvis) :
  exists tail,
    conversation_history (snd (_process_command lower strip w c s))
    = (conversation_history s ++ user_turn w c s :: tail)%list /\
    (tail = [] \/ exists response, tail = [assistant_turn w c s response]) /\
    command_queue (snd (_process_command lower strip w c s)) = command_queue s.
Proof.
  destruct (process_command_outcome lower strip w c s) as [s' [Hrun Hout]].
  rewrite Hrun. cbn [snd].
  destruct Hout as [r s2 _ _ _ Hpres | e s2 _ _ _ _ Hpres | _ _ _ | response _ _ _ _].
  - exists [assistant_turn w c s r].
    rewrite history_replied, queue_replied.
    rewrite (pres_history _ _ Hpres), (pres_queue _ _ Hpres).
    split; [cbn; now rewrite <- app_assoc|]. split; [right; eauto | reflexivity].
  - exists []. rewrite history_failed.
    change (command_queue (finished (failed w e s2))) with (command_queue s2).
    rewrite (pres_history _ _ Hpres), (pres_queue _ _ Hpres).
    split; [reflexivity|]. split; [now left | reflexivity].
  - eexists [_]. rewrite history_replied, queue_replied.
    split; [cbn; now rewrite <- app_assoc|]. split; [right; eauto | reflexivity].
  - exists [assistant_turn w c s response].
    rewrite history_replied, queue_replied.
    split; [cbn; now rewrite <- app_assoc|]. split; [right; eauto | reflexivity].
Qed.

Lemma perform_history (a : action) (s : jarvis) :
  exists added,
    conversation_history (snd (perform lower strip a s))
    = (conversation_history s ++ added)%list.
Proof.
  destruct a as [c | w | | heard now | wake_word heard]; cbn [perform].
  - exists []. cbn. now rewrite app_nil_r.
  - unfold _command_processor, try_except, mbind, read, modify.
    destruct (command_queue s) as [|c rest].
    + exists []. cbn. now rewrite app_nil_r.
    + destruct (process_command_summary w c (set_command_queue rest s))
        as [tail [Hh _]].
      pose proof (process_command_returns lower strip w c (set_command_queue rest s)) as Hr.
      destruct (_process_command lower strip w c (set_command_queue rest s))
        as [[[]|e] s']; [|discriminate].
      cbn [snd] in *. rewrite Hh. eauto.
  - exists []. rewrite app_nil_r. unfold start_listening, mbind, read.
    destruct (is_listening s || is_speaking s); reflexivity.
  - exists []. rewrite app_nil_r.
    unfold _listen_for_command, try_finally, try_except.
    destruct heard as [[[|ch r]|]|e]; reflexivity.
  - exists []. rewrite app_nil_r.
    unfold _voice_activation_listener, try_except, start_listening, mbind, read.
    destruct (negb (is_speaking s) && negb (is_processing s)); [|reflexivity].
    destruct heard as [[[|ch r]|]|e]; try reflexivity.
    destruct (str_in wake_word (lower (String ch r))); [|reflexivity].
    cbn. destruct (is_listening s || is_speaking s); reflexivity.
Qed.

(** The conversation history only grows. A processed command appends
    its user turn and then at most one assistant turn (none when the
    command fails before a response exists); no other call of the
    coordinator touches the history, so after any sequence of calls the
    old history is a prefix of the new one. *)
Theorem history_append_only :
  (forall w c s,
      exists tail,
        conversation_history (snd (_process_command lower strip w c s))
        = (conversation_history s ++ user_turn w c s :: tail)%list /\
        (tail = [] \/ exists response, tail = [assistant_turn w c s response])) /\
  (forall acts s,
      exists added,
        conversation_history (run lower strip acts s)
        = (conversation_history s ++ added)%list).
Proof.
  split.
  - intros w c s.
    destruct (process_command_summary w c s) as [tail [Hh [Ht _]]]. eauto.
  - induction acts as [|a acts IH]; intros s.
    + exists []. cbn. now rewrite app_nil_r.
    + cbn [run fold_left]. fold (run lower strip acts (snd (perform lower strip a s))).
      destruct (IH (snd (perform lower strip a s))) as [added2 H2].
      destruct (perform_history a s) as [added1 H1].
      exists (added1 ++ added2)%list. now rewrite H2, H1, app_assoc.
Qed.

Lemma user_texts_app (a b : list turn) :
  user_texts (a ++ b) = (user_texts a ++ user_texts b)%list.
Proof. unfold user_texts. now rewrite filter_app, map_app. Qed.

(** Commands are processed in the order in which they were queued: as
    many turns of the command thread as there are commands waiting take
    them from the front of the queue, and the user turns these add to
    the history carry their texts in queue order. *)
Theorem commands_processed_in_queue_order (ws : list world) :
  forall s,
    (List.length ws <= List.length (command_queue s))%nat ->
    command_queue (run lower strip (rounds ws) s)
    = skipn (List.length ws) (command_queue s) /\
    exists added,
      conversation_history (run lower strip (rounds ws) s)
      = (conversation_history s ++ added)%list /\
      user_texts added
      = map command_text (firstn (List.length ws) (command_queue s)).
Proof.
  induction ws as [|w ws IH]; intros s Hlen.
  - split; [reflexivity|]. exists []. cbn. now rewrite app_nil_r.
  - destruct (command_queue s) as [|c rest] eqn:Hq; [cbn in Hlen; lia|].
    change (run lower strip (rounds (w :: ws)) s)
      with (run lower strip (rounds ws) (snd (_command_processor lower strip w s))).
    change (List.length (w :: ws)) with (S (List.length ws)).
    cbn [skipn firstn map].
    assert (Hstep :
      exists tail,
        conversation_history (snd (_command_processor lower strip w s))
        = (conversation_history s
           ++ user_turn w c (set_command_queue rest s) :: tail)%list /\
        user_texts tail = [] /\
        command_queue (snd (_command_processor lower strip w s)) = rest).
    { unfold _command_processor, try_except, mbind, read, modify. rewrite Hq.
      destruct (process_command_summary w c (set_command_queue rest s))
        as [tail [Hh [Ht Hqueue]]].
      pose proof (process_command_returns lower strip w c (set_command_queue rest s)) as Hr.
      destruct (_process_command lower strip w c (set_command_queue rest s))
        as [[[]|e] s']; [|discriminate].
      cbn [snd] in *. exists tail. split; [exact Hh|]. split; [|exact Hqueue].
      destruct Ht as [-> | [response ->]]; reflexivity. }
    destruct Hstep as [tail [Hh [Htail Hqueue]]].
    destruct (IH (snd (_command_processor lower strip w s))) as [IHq [added [IHh IHt]]].
    { rewrite Hqueue. cbn in Hlen. lia. }
    rewrite Hqueue in IHq, IHt. split; [exact IHq|].
    exists ((user_turn w c (set_command_queue rest s) :: tail) ++ added)%list.
    split.
    + rewrite IHh, Hh. now rewrite <- app_assoc.
    + rewrite user_texts_app.
      change (user_texts (user_turn w c (set_command_queue rest s) :: tail))
        with (command_text c :: user_texts tail).
      rewrite Htail, IHt. reflexivity.
Qed.

(** Without an AI client every command that is no system command gets
    the same fixed Portuguese reply: it is recorded as the assistant
    turn and spoken, and no request is made. *)
Theorem without_ai_client (w : world) (c : command_data) (s : jarvis) :
  ai_client s = false ->
  system_command_phrase (lower (command_text c)) = false ->
  let s' := snd (_process_command lower strip w c s) in
  let reply := "Sistema de IA não configurado. Verifique sua chave de API." in
  chat_calls (effects s s') = [] /\
  map fst (spoken (effects s s')) = [reply] /\
  conversation_history s'
  = (conversation_history s ++ [user_turn w c s; assistant_turn w c s reply])%list.
Proof.
  intros Hai Hph s' reply. subst s' reply.
  destruct (process_command_outcome lower strip w c s) as [s' [Hrun Hout]].
  rewrite Hrun. cbn [snd].
  destruct Hout as [r s2 Hph' _ _ _ | e s2 Hph' _ _ _ _ | _ _ _
                   | response _ _ Hai' _]; try congruence.
  rewrite (outcome_reply_effects w c s _ _ _ _ (trace_dispatch w c s)).
  rewrite chat_calls_app, chat_calls_reply, spoken_app, spoken_reply, history_replied.
  cbn. rewrite <- app_assoc. auto.
Qed.

End Runtime.

End CoreMoreFacts.

Module CoreDispatchFacts.
Import Py.
Import PyStr.
Import Core.
Import CoreMore.
Import CoreFacts.

Ltac atoms :=
  repeat match goal with
         | |- context [str_in ?a ?b] =>
             let E := fresh "E" in
             destruct (str_in a b) eqn:E;
             cbn [orb andb negb existsb any_in]
         end.

Lemma language_commands_frame (cl : string) (s : jarvis) :
  camera_manager (snd (language_commands cl s)) = camera_manager s /\
  files (snd (language_commands cl s)) = files s /\
  trace (snd (language_commands cl s)) = trace s.
Proof.
  unfold language_commands. atoms; repeat split.
Qed.

Lemma volume_commands_frame (cl : string) (s : jarvis) :
  volume_phrase cl = true ->
  camera_manager (snd (volume_commands cl s)) = camera_manager s /\
  files (snd (volume_commands cl s)) = files s /\
  current_language (snd (volume_commands cl s)) = current_language s /\
  exists e, controller_event e = true /\
            trace (snd (volume_commands cl s)) = (e, get_status s) :: trace s.
Proof.
  unfold volume_commands, volume_phrase, any_in. cbn [existsb].
  atoms; try discriminate; intros _; repeat split;
    eexists; (split; [|reflexivity]); reflexivity.
Qed.

Section Runtime.
Variable lower : string -> string.

Lemma camera_commands_frame (w : world) (command : string) (s : jarvis) :
  camera_phrase (lower command) = true ->
  trace (snd (_handle_system_commands lower w command s)) = trace s /\
  current_language (snd (_handle_system_commands lower w command s))
  = current_language s.
Proof.
  unfold _handle_system_commands, camera_phrase, any_in. cbn [existsb].
  set (cl := lower command).
  atoms; try discriminate; intros _.
  all: unfold mbind, camera_start_camera, camera_stop_camera, camera_take_photo,
         modify, ret.
  all: try (destruct (Camera.start_camera (camera_manager s) (device w));
            split; reflexivity).
  all: destruct (Camera.take_photo (camera_manager s) (files s) None
                   (photo_stamp w) (imwrite w)) as [[name|e] fs];
       split; reflexivity.
Qed.

(** The three blocks of [_handle_system_commands] are tried in the order
    camera, volume, language, and the first whose key word and action
    word both occur decides alone: a camera phrase never reaches the
    system controller or the language; a volume phrase (with no camera
    phrase) makes exactly one call of the system controller and leaves
    camera and language alone; and with neither, camera, files and
    system controller are left alone. *)
Theorem first_block_decides (w : world) (command : string) (s : jarvis) :
  let s' := snd (_handle_system_commands lower w command s) in
  (camera_phrase (lower command) = true ->
   trace s' = trace s /\ current_language s' = current_language s) /\
  (camera_phrase (lower command) = false ->
   volume_phrase (lower command) = true ->
   camera_manager s' = camera_manager s /\ files s' = files s /\
   current_language s' = current_language s /\
   exists e, controller_event e = true /\ trace s' = (e, get_status s) :: trace s) /\
  (camera_phrase (lower command) = false ->
   volume_phrase (lower command) = false ->
   camera_manager s' = camera_manager s /\ files s' = files s /\
   trace s' = trace s).
Proof.
  intros s'. subst s'.
  pose proof (camera_commands_spec lower w command s) as Hc.
  pose proof (volume_commands_spec (lower command) s) as Hv.
  split; [|split].
  - apply camera_commands_frame.
  - intros Hcam Hvol. rewrite Hcam in Hc. rewrite Hc.
    now apply volume_commands_frame.
  - intros Hcam Hvol. rewrite Hcam in Hc. rewrite Hvol in Hv. rewrite Hc, Hv.
    apply language_commands_frame.
Qed.

(** A round of listening: [start_listening] on an idle coordinator sets
    [is_listening]; [_listen_for_command] always clears it again and
    returns, whatever the recogniser does; the queue grows by one
    command, carrying the recognised text and the current language,
    exactly when a non-empty text was recognised. *)
Theorem listening_round (heard : result (option string)) (now : Z) (s : jarvis) :
  is_listening s = false ->
  is_speaking s = false ->
  let s1 := snd (start_listening s) in
  let s2 := snd (_listen_for_command heard now s1) in
  is_listening s1 = true /\
  fst (_listen_for_command heard now s1) = Ok tt /\
  is_listening s2 = false /\
  command_queue s2
  = (command_queue s
     ++ match heard with
        | Ok (Some (String ch r)) => [heard_command (String ch r) now s]
        | _ => []
        end)%list.
Proof.
  intros Hl Hs s1 s2. subst s1 s2.
  unfold start_listening, mbind, read. rewrite Hl, Hs. cbn [orb].
  split; [reflexivity|].
  unfold _listen_for_command, try_finally, try_except.
  destruct heard as [[[|ch r]|]|e]; cbn; rewrite ?app_nil_r; auto.
Qed.

End Runtime.

Lemma first_block_decides_witness :
  let s := new_JarvisCore "pt-BR" true in
  let command := "ligar a câmera e aumentar o volume em inglês" in
  camera_phrase (lower_latin1 command) = true /\
  volume_phrase (lower_latin1 command) = true /\
  trace (snd (_handle_system_commands lower_latin1 offline_world command s)) = [] /\
  current_language (snd (_handle_system_commands lower_latin1 offline_world command s))
  = "pt-BR".
Proof.
  intros s command.
  assert (Hcam : camera_phrase (lower_latin1 command) = true) by reflexivity.
  split; [exact Hcam|]. split; [reflexivity|].
  destruct (first_block_decides lower_latin1 offline_world command s) as [H _].
  exact (H Hcam).
Defined.

Lemma listening_round_witness :
  let s := new_JarvisCore "pt-BR" true in
  (is_listening s = false /\ is_speaking s = false) /\
  command_queue
    (snd (_listen_for_command (Ok (Some "que horas são")) 7 (snd (start_listening s))))
  = [heard_command "que horas são" 7 s] /\
  command_queue
    (snd (_listen_for_command (Raise (OtherException "microphone lost")) 7
            (snd (start_listening s))))
  = [].
Proof.
  intros s. split; [split; reflexivity|].
  destruct (listening_round (Ok (Some "que horas são")) 7 s eq_refl eq_refl)
    as [_ [_ [_ H1]]].
  destruct (listening_round (Raise (OtherException "microphone lost")) 7 s
              eq_refl eq_refl) as [_ [_ [_ H2]]].
  split; [exact H1 | exact H2].
Defined.

Lemma user_message_sent_twice_witness :
  let c := typed "e agora" "en-US" in
  let s' := snd (_process_command lower_latin1 strip_ascii offline_world c chatty) in
  exists messages front,
    In (messages, "en-US") (chat_calls (effects chatty s')) /\
    messages =
      (front
       ++ [{| OpenRouter.role := "user"; OpenRouter.content := "e agora" |};
           {| OpenRouter.role := "user"; OpenRouter.content := "e agora" |}])%list.
Proof.
  intros c s'. eexists.
  assert (Hin : In (_, "en-US") (chat_calls (effects chatty s')))
    by (vm_compute; left; reflexivity).
  destruct (CoreMoreFacts.user_message_sent_twice lower_latin1 strip_ascii
              offline_world c chatty _ _ Hin) as [front Hfront].
  exists front. split; [exact Hin | exact Hfront].
Defined.

Lemma commands_processed_in_queue_order_witness :
  let s := run lower_latin1 strip_ascii
             [ QueuePut (typed "bom dia" "pt-BR"); QueuePut (typed "tirar foto" "pt-BR");
               QueuePut (typed "mudo som" "pt-BR") ]
             (new_JarvisCore "pt-BR" true) in
  let ws := [offline_world; offline_world] in
  (List.length ws <= List.length (command_queue s))%nat /\
  command_queue (run lower_latin1 strip_ascii (rounds ws) s)
  = [typed "mudo som" "pt-BR"] /\
  user_texts (conversation_history (run lower_latin1 strip_ascii (rounds ws) s))
  = ["bom dia"; "tirar foto"].
Proof.
  intros s ws.
  assert (Hlen : (List.length ws <= List.length (command_queue s))%nat)
    by (cbn; lia).
  split; [exact Hlen|].
  destruct (CoreMoreFacts.commands_processed_in_queue_order lower_latin1 strip_ascii
              ws s Hlen) as [Hq _].
  split; [exact Hq | reflexivity].
Defined.

Lemma without_ai_client_witness :
  let s := new_JarvisCore "en-US" false in
  let c := typed "what time is it" "en-US" in
  let s' := snd (_process_command lower_latin1 strip_ascii offline_world c s) in
  (ai_client s = false /\
   system_command_phrase (lower_latin1 (command_text c)) = false) /\
  chat_calls (effects s s') = [] /\
  map fst (spoken (effects s s'))
  = ["Sistema de IA não configurado. Verifique sua chave de API."].
Proof.
  intros s c s'. split; [split; reflexivity|].
  destruct (CoreMoreFacts.without_ai_client lower_latin1 strip_ascii offline_world c s
              eq_refl eq_refl) as [H1 [H2 _]].
  split; [exact H1 | exact H2].
Defined.

End CoreDispatchFacts.

(* ===================================================================== *)
(** ** Facts about the callback registry and the log buffer *)
(* ===================================================================== *)

Module CallbacksFacts.
Import Py.
Import Core.
Import Callbacks.

Lemma called_app (a b : list notice) : called (a ++ b) = (called a ++ called b)%list.
Proof. apply flat_map_app. Qed.

Lemma logged_app (a b : list notice) : logged (a ++ b) = (logged a ++ logged b)%list.
Proof. apply flat_map_app. Qed.

(** [_trigger_callback] calls every subscriber of the event exactly
    once, in the order of registration, whether or not an earlier one
    raised; it logs one line per subscriber that raised and calls no
    subscriber of another event. *)
Theorem every_subscriber_is_called (reg : registry) (event : string) (data : payload) :
  called (_trigger_callback reg event data) = map cb_name (subscribers reg event) /\
  List.length (logged (_trigger_callback reg event data))
  = List.length (raising data (subscribers reg event)).
Proof.
  unfold _trigger_callback.
  induction (subscribers reg event) as [|cb cbs [IH1 IH2]]; [split; reflexivity|].
  cbn [flat_map map raising filter].
  change (Called (cb_name cb) data :: ?x) with ([Called (cb_name cb) data] ++ x)%list.
  rewrite !called_app, !logged_app, !length_app, IH1, IH2.
  destruct (cb_call cb data); split; reflexivity.
Qed.

Lemma subscribers_append_same (reg : registry) (event : string) (cb : callback) :
  known reg event = true ->
  subscribers (append_at reg event cb) event = (subscribers reg event ++ [cb])%list.
Proof.
  unfold subscribers.
  induction reg as [|[name cbs] rest IH]; [discriminate|].
  cbn. destruct (String.eqb event name) eqn:E; cbn; rewrite E; [reflexivity|].
  exact IH.
Qed.

Lemma subscribers_append_other (reg : registry) (event other : string) (cb : callback) :
  other <> event ->
  subscribers (append_at reg event cb) other = subscribers reg other.
Proof.
  unfold subscribers. intros Hne.
  induction reg as [|[name cbs] rest IH]; [reflexivity|].
  cbn. destruct (String.eqb event name) eqn:E; cbn.
  - apply String.eqb_eq in E. subst name.
    apply String.eqb_neq in Hne. now rewrite Hne.
  - destruct (String.eqb other name); [reflexivity | exact IH].
Qed.

(** [add_callback] registers a subscriber last in the list of a known
    event and leaves the other events as they are; for an event name the
    registry does not know it does nothing at all, so such a subscriber
    is never called. *)
Theorem add_callback_known_events_only (reg : registry) (event : string)
  (cb : callback) :
  (known reg event = true ->
   subscribers (add_callback reg event cb) event = (subscribers reg event ++ [cb])%list /\
   forall other, other <> event ->
     subscribers (add_callback reg event cb) other = subscribers reg other) /\
  (known reg event = false ->
   add_callback reg event cb = reg /\
   forall data, _trigger_callback (add_callback reg event cb) event data = []).
Proof.
  unfold add_callback. split; intros Hk; rewrite Hk.
  - split; [now apply subscribers_append_same|].
    intros other Hne. now apply subscribers_append_other.
  - split; [reflexivity|]. intros data. unfold _trigger_callback, subscribers.
    replace (lookup reg event []) with (@nil callback); [reflexivity|].
    induction reg as [|[name cbs] rest IH]; [reflexivity|].
    cbn in *. apply orb_false_elim in Hk. destruct Hk as [E Hk].
    rewrite E. now apply IH.
Qed.

Lemma add_callback_known_events_only_witness :
  let failing := {| cb_name := "gui"; cb_call := fun _ => Raise (OtherException "no display") |} in
  let logging := {| cb_name := "log"; cb_call := fun _ => Ok tt |} in
  let reg := add_callback (add_callback new_callbacks "on_error" failing)
               "on_error" logging in
  (known new_callbacks "on_error" = true /\ known new_callbacks "on_exit" = false) /\
  called (_trigger_callback reg "on_error" (PStr "boom")) = ["gui"; "log"] /\
  add_callback reg "on_exit" logging = reg.
Proof.
  intros failing logging reg.
  split; [split; reflexivity|]. split; [reflexivity|].
  destruct (add_callback_known_events_only reg "on_exit" logging) as [_ H].
  exact (proj1 (H eq_refl)).
Defined.

End CallbacksFacts.

Module LogBufferFacts.
Import LogBuffer.

Section Records.
Variable record : Type.

(** The last [n] elements. *)
Lemma skipn_snoc_last (n : nat) (l : list record) (r : record) :
  (n <= List.length l)%nat ->
  skipn n (l ++ [r]) = (skipn n l ++ [r])%list.
Proof.
  intros H. rewrite skipn_app.
  replace (n - List.length l)%nat with 0%nat by lia. reflexivity.
Qed.

Lemma emit_keeps_recent (rs : list record) (r : record) :
  emit record (skipn (List.length rs - 1000) rs) r
  = skipn (List.length (rs ++ [r]) - 1000) (rs ++ [r]).
Proof.
  unfold emit, slice_from, max_records.
  rewrite !length_app, length_skipn. cbn [List.length].
  destruct (1000 <? Z.of_nat (List.length rs - (List.length rs - 1000) + 1))%Z eqn:E.
  - apply Z.ltb_lt in E. cbn [Z.opp Z.ltb Z.compare].
    assert (Hlen : (1000 <= List.length rs)%nat) by lia.
    replace (Z.to_nat
               (Z.max 0 (Z.of_nat (List.length rs - (List.length rs - 1000) + 1) + -1000)))
      with 1%nat by lia.
    rewrite (skipn_snoc_last (List.length rs + 1 - 1000) rs r) by lia.
    rewrite (skipn_snoc_last 1 (skipn (List.length rs - 1000) rs) r)
      by (rewrite length_skipn; lia).
    rewrite skipn_skipn.
    replace (1 + (List.length rs - 1000))%nat
      with (List.length rs + 1 - 1000)%nat by lia.
    reflexivity.
  - apply Z.ltb_ge in E.
    assert (Hlen : (List.length rs < 1000)%nat) by lia.
    replace (List.length rs - 1000)%nat with 0%nat by lia.
    replace (List.length rs + 1 - 1000)%nat with 0%nat by lia.
    reflexivity.
Qed.

Lemma emitted_from (rs : list record) :
  forall seen,
    fold_left (emit record) rs (skipn (List.length seen - 1000) seen)
    = skipn (List.length (seen ++ rs) - 1000) (seen ++ rs).
Proof.
  induction rs as [|r rs IH]; intros seen.
  - cbn. now rewrite app_nil_r.
  - cbn [fold_left]. rewrite emit_keeps_recent, IH.
    now rewrite <- app_assoc.
Qed.

(** The buffer of the log handler is bounded: however many records are
    emitted, it holds at most 1000, and these are the most recent ones
    in the order they came. *)
Theorem log_buffer_keeps_recent (rs : list record) :
  (List.length (emitted record rs) <= 1000)%nat /\
  emitted record rs = skipn (List.length rs - 1000) rs /\
  exists dropped, rs = (dropped ++ emitted record rs)%list.
Proof.
  assert (H : emitted record rs = skipn (List.length rs - 1000) rs)
    by exact (emitted_from rs []).
  rewrite H. split; [rewrite length_skipn; lia|]. split; [reflexivity|].
  exists (firstn (List.length rs - 1000) rs). symmetry. apply firstn_skipn.
Qed.

(** [get_recent_logs(count)] returns the last [count] records for a
    positive count (all of them when there are no more than that); for
    the count 0 it returns every record, not none; a negative count
    drops that many of the oldest records. *)
Theorem get_recent_logs_counts (records : list record) (count : Z) :
  ((0 < count)%Z ->
   get_recent_logs record records count
   = skipn (List.length records - Z.to_nat count) records /\
   List.length (get_recent_logs record records count)
   = Nat.min (Z.to_nat count) (List.length records)) /\
  (count = 0%Z -> get_recent_logs record records count = records) /\
  ((count < 0)%Z ->
   get_recent_logs record records count = skipn (Z.to_nat (- count)) records).
Proof.
  unfold get_recent_logs, slice_from. split; [|split].
  - intros Hpos.
    destruct (count <? Z.of_nat (List.length records))%Z eqn:E.
    + apply Z.ltb_lt in E.
      replace (- count <? 0)%Z with true by (symmetry; apply Z.ltb_lt; lia).
      replace (Z.to_nat (Z.max 0 (Z.of_nat (List.length records) + - count)))
        with (List.length records - Z.to_nat count)%nat by lia.
      split; [reflexivity|]. rewrite length_skipn. lia.
    + apply Z.ltb_ge in E.
      replace (List.length records - Z.to_nat count)%nat with 0%nat by lia.
      split; [reflexivity|]. cbn [skipn]. lia.
  - intros ->. destruct (0 <? Z.of_nat (List.length records))%Z; [|reflexivity].
    cbn [Z.opp Z.ltb Z.compare]. rewrite Z.min_l by lia. reflexivity.
  - intros Hneg.
    replace (count <? Z.of_nat (List.length records))%Z with true
      by (symmetry; apply Z.ltb_lt; lia).
    replace (- count <? 0)%Z with false by (symmetry; apply Z.ltb_ge; lia).
    destruct (Z.min_spec (- count) (Z.of_nat (List.length records)))
      as [[Hlt ->] | [Hge ->]]; [reflexivity|].
    rewrite Nat2Z.id. rewrite skipn_all.
    symmetry. apply skipn_all2. lia.
Qed.

End Records.

Lemma get_recent_logs_counts_witness :
  ((0 < 2)%Z /\ (-1 < 0)%Z) /\
  get_recent_logs string ["a"; "b"; "c"] 2 = ["b"; "c"] /\
  get_recent_logs string ["a"; "b"; "c"] 0 = ["a"; "b"; "c"] /\
  get_recent_logs string ["a"; "b"; "c"] (-1) = ["b"; "c"].
Proof.
  split; [split; reflexivity|].
  destruct (get_recent_logs_counts string ["a"; "b"; "c"] 2) as [H2 _].
  destruct (get_recent_logs_counts string ["a"; "b"; "c"] 0) as [_ [H0 _]].
  destruct (get_recent_logs_counts string ["a"; "b"; "c"] (-1)) as [_ [_ Hn]].
  split; [exact (proj1 (H2 eq_refl))|].
  split; [exact (H0 eq_refl) | exact (Hn eq_refl)].
Defined.

End LogBufferFacts.

(* ===================================================================== *)
(** ** Facts about the system controller and the recognition engine *)
(* ===================================================================== *)

Module SystemControlFacts.
Import Py.
Import PyStr.
Import SystemControl.

Definition level_of (e : effect) : option Z :=
  match e with
  | SetMasterScalarVolume l | OsascriptVolume l | AmixerMaster l => Some l
  | BrowserOpen _ => None
  end.

(** Whatever level is asked for, the level [set_volume] hands to the
    operating system lies between 0 and 100: a level in that range is
    passed as it is, a smaller one becomes 0 and a larger one 100. The
    answer is [False] only when the call to the operating system
    raised. *)
Theorem set_volume_in_range (system : string) (level : Z) (os : result unit) :
  (forall e l, In e (snd (set_volume system level os)) ->
               level_of e = Some l ->
               (0 <= l <= 100)%Z /\
               ((0 <= level <= 100)%Z -> l = level) /\
               ((level < 0)%Z -> l = 0%Z) /\
               ((100 < level)%Z -> l = 100%Z)) /\
  (fst (set_volume system level os) = false -> exists e, os = Raise e).
Proof.
  unfold set_volume, volume_call. split.
  - intros e l Hin Hl.
    assert (Hl' : l = Z.max 0 (Z.min 100 level)).
    { destruct (String.eqb system "windows");
        [|destruct (String.eqb system "darwin");
          [|destruct (String.eqb system "linux")]];
        destruct os; cbn in Hin; try tauto;
        destruct Hin as [<- | []]; cbn in Hl; congruence. }
    subst l. lia.
  - destruct (String.eqb system "windows");
      [|destruct (String.eqb system "darwin");
        [|destruct (String.eqb system "linux")]];
      destruct os; cbn; intros H; try discriminate; eauto.
Qed.

Lemma set_volume_in_range_witness :
  In (AmixerMaster 100) (snd (set_volume "linux" 250 (Ok tt))) /\
  level_of (AmixerMaster 100) = Some 100%Z /\ (0 <= 100 <= 100)%Z.
Proof.
  assert (Hin : In (AmixerMaster 100) (snd (set_volume "linux" 250 (Ok tt))))
    by (left; reflexivity).
  split; [exact Hin|]. split; [reflexivity|].
  exact (proj1 (proj1 (set_volume_in_range "linux" 250 (Ok tt)) _ _ Hin eq_refl)).
Defined.

Lemma has_scheme_https (url : string) : has_scheme ("https://" ++ url) = true.
Proof.
  unfold has_scheme. destruct url; reflexivity.
Qed.

(** [open_website] always hands the browser a URL that starts with
    [http://] or [https://]: a URL that has such a start is passed as it
    is, any other gets [https://] in front. Opening the URL it opened
    opens the same URL again. *)
Theorem open_website_scheme (url : string) (browser : result unit) :
  exists opened,
    snd (open_website url browser) = [BrowserOpen opened] /\
    has_scheme opened = true /\
    (has_scheme url = true -> opened = url) /\
    (has_scheme url = false -> opened = "https://" ++ url) /\
    snd (open_website opened browser) = [BrowserOpen opened].
Proof.
  unfold open_website.
  destruct (has_scheme url) eqn:Hs; cbn [negb].
  - exists url. rewrite Hs. cbn [negb].
    destruct browser; repeat split; auto; discriminate.
  - exists ("https://" ++ url). rewrite has_scheme_https. cbn [negb].
    destruct browser; repeat split; auto using has_scheme_https; discriminate.
Qed.

Lemma open_website_scheme_witness :
  has_scheme "example.org/a b" = false /\
  snd (open_website "example.org/a b" (Ok tt)) = [BrowserOpen "https://example.org/a b"].
Proof.
  split; [reflexivity|].
  destruct (open_website_scheme "example.org/a b" (Ok tt))
    as [opened [Hopen [_ [_ [Hadd _]]]]].
  rewrite Hopen, (Hadd eq_refl). reflexivity.
Defined.

Lemma base_url_cases (engine : string) :
  base_url engine = "https://www.google.com/search?q=" \/
  base_url engine = "https://www.bing.com/search?q=" \/
  base_url engine = "https://duckduckgo.com/?q=" \/
  base_url engine = "https://www.youtube.com/results?search_query=".
Proof.
  unfold base_url, search_urls. cbn.
  repeat match goal with
         | |- context [String.eqb ?a ?b] => destruct (String.eqb a b)
         end; auto.
Qed.

(** [search_web] opens the address of the search engine followed by the
    query with every space turned into [+]: the URL has no space left,
    it already starts with [https://] so that [open_website] passes it
    unchanged, and an engine that is not in the table is searched on
    Google. *)
Theorem search_web_url (query engine : string) (browser : result unit) :
  snd (search_web query engine browser)
  = [BrowserOpen (base_url engine ++ SpeechText.replace " " "+" query)] /\
  str_in " " (base_url engine ++ SpeechText.replace " " "+" query) = false /\
  (~ In engine (map fst search_urls) -> base_url engine = base_url "google").
Proof.
  split; [|split].
  - unfold search_web, open_website.
    replace (has_scheme (base_url engine ++ SpeechText.replace " " "+" query))
      with true.
    + destruct browser; reflexivity.
    + symmetry. destruct (base_url_cases engine) as [-> | [-> | [-> | ->]]];
        apply (has_scheme_https _).
  - rewrite SpeechTextFacts.str_in_char, SpeechTextFacts.has_char_app.
    unfold SpeechText.replace.
    rewrite (SpeechTextFacts.replace_from_removes " " "+" query eq_refl 0).
    destruct (base_url_cases engine) as [-> | [-> | [-> | ->]]]; reflexivity.
  - intros Hn. unfold base_url, search_urls in *. cbn in *.
    repeat match goal with
           | |- context [String.eqb engine ?b] =>
               let E := fresh "E" in
               destruct (String.eqb engine b) eqn:E;
               [apply String.eqb_eq in E; elim Hn; subst; auto 10|]
           end.
    reflexivity.
Qed.

Lemma search_web_url_witness :
  ~ In "altavista" (map fst search_urls) /\
  snd (search_web "rocq proof assistant" "altavista" (Ok tt))
  = [BrowserOpen "https://www.google.com/search?q=rocq+proof+assistant"].
Proof.
  assert (Hn : ~ In "altavista" (map fst search_urls))
    by (cbn; intros [H|[H|[H|[H|[]]]]]; discriminate H).
  split; [exact Hn|].
  destruct (search_web_url "rocq proof assistant" "altavista" (Ok tt))
    as [Hopen [_ Hbase]].
  rewrite Hopen, (Hbase Hn). reflexivity.
Defined.

End SystemControlFacts.

Module RecognitionFacts.
Import PyStr.
Import Recognition.

Section Runtime.
Variable lower : string -> string.
Variable strip : string -> string.

(** [listen_for_command] leaves [is_listening] cleared whenever there is
    a microphone, and without one returns [None] and touches nothing. A
    command it returns is never empty; it is the lowered and stripped
    text of the online recogniser, or of the offline recogniser in the
    one case that the online recogniser raised a request error. *)
Theorem listen_for_command_result (e : engine) (l : listened)
  (google sphinx : recognised) :
  let r := fst (listen_for_command lower strip e l google sphinx) in
  let e' := snd (listen_for_command lower strip e l google sphinx) in
  (microphone e = true -> is_listening e' = false) /\
  (microphone e = false -> r = None /\ e' = e) /\
  (forall t, r = Some t ->
     nonempty t = true /\ microphone e = true /\ l = Audio /\
     ((exists raw, google = Text raw /\ nonempty raw = true /\
                   t = strip (lower raw)) \/
      (exists msg raw, google = RequestError msg /\ sphinx = Text raw /\
                       nonempty raw = true /\ t = strip (lower raw)))).
Proof.
  intros r e'. subst r e'. unfold listen_for_command.
  destruct (microphone e) eqn:Hm; cbn [negb fst snd].
  - split; [reflexivity|]. split; [discriminate|].
    intros t Ht.
    destruct l; try discriminate.
    unfold _recognize_speech, _offline_recognition in Ht.
    destruct google as [raw | | msg | msg]; try discriminate.
    + destruct (nonempty raw) eqn:Hraw; [|discriminate].
      destruct (strip (lower raw)) as [|c rest] eqn:Hs; [discriminate|].
      injection Ht as <-. repeat split. left. exists raw. auto.
    + destruct sphinx as [raw | | msg' | msg']; try discriminate.
      destruct (nonempty raw) eqn:Hraw; [|discriminate].
      destruct (strip (lower raw)) as [|c rest] eqn:Hs; [discriminate|].
      injection Ht as <-. repeat split. right. exists msg, raw. auto.
  - split; [discriminate|]. split; [auto | discriminate].
Qed.

End Runtime.

Lemma listen_for_command_result_witness :
  microphone {| microphone := true; is_listening := true |} = true /\
  fst (listen_for_command lower_latin1 strip_ascii
         {| microphone := true; is_listening := true |} Audio
         (RequestError "no network") (Text " Ligar Camera "))
  = Some "ligar camera" /\
  is_listening (snd (listen_for_command lower_latin1 strip_ascii
                       {| microphone := true; is_listening := true |} Audio
                       (RequestError "no network") (Text " Ligar Camera ")))
  = false.
Proof.
  split; [reflexivity|]. split; [reflexivity|].
  destruct (listen_for_command_result lower_latin1 strip_ascii
              {| microphone := true; is_listening := true |} Audio
              (RequestError "no network") (Text " Ligar Camera ")) as [H _].
  exact (H eq_refl).
Defined.

End RecognitionFacts.
